(** * Keyword-research gateway: a shallow embedding of the provider clients

    The development embeds the parts of the repository that its
    specification talks about:

    - the tolerant JSON extraction inside [GeminiClient.makeLLMRequest]
      (fence stripping, the bracket scan [findBalancedJSON], the
      object-salvage scan);
    - the cache / rate-limit prefix of [GeminiClient.makeLLMRequest] and the
      input validation of [expandToDream100] and [classifyIntent];
    - the cache keys of [GeminiClient], [AhrefsClient] and
      [DataForSEOClient];
    - [KeywordProvider]: normalisation and the provider cascade of
      [getKeywordMetrics] and [getBulkKeywordMetrics], with the two
      keyword clients over their transport, typed and untyped,
      [initializeProviders] and the generated records and suggestions;
    - the field [keywordsExplorerAvailable] of [AhrefsClient] under its two
      writers;
    - [GeminiClient.generateTitles] and the keyword mapping of
      [GeminiLLMProviderAdapter.expandKeywords];
    - [chunkArray], and [identifyContentGaps] and [countWords] of
      [EnhancedWebScraper].

    Conventions.  A JavaScript string is a [string]: a sequence of code
    units, restricted to the range 0..255.  Strings decoded by [JSON.parse]
    are sequences of code units in [N], because an escape may denote any
    16-bit unit.  A JavaScript number that the code only compares or copies
    is a [Z] when the code treats it as an integer (time stamps, counters)
    and a [Q] otherwise; arithmetic on [Q] is exact, where the code rounds
    to doubles. *)

From Stdlib Require Import String Ascii List ZArith QArith Qround Qminmax Lia Bool.
From Stdlib Require Import DecimalString.
From Stdlib Require Import Lqa.
From stdpp Require Import base list gmap strings sorting.
Import ListNotations.
Local Open Scope string_scope.
Local Open Scope Z_scope.

(** ** Characters and string helpers *)

Definition QUOTE : ascii := "034"%char.
Definition BACKSLASH : ascii := "092"%char.
Definition NEWLINE : ascii := "010"%char.

Definition str1 (c : ascii) : string := String c EmptyString.

(** [s += c] *)
Definition push (s : string) (c : ascii) : string := s ++ str1 c.

Fixpoint repeat_char (c : ascii) (n : nat) : string :=
  match n with
  | O => EmptyString
  | S n' => String c (repeat_char c n')
  end.

(** [str.substring(from)] *)
Fixpoint string_drop (n : nat) (s : string) : string :=
  match n, s with
  | O, _ => s
  | S n', String _ s' => string_drop n' s'
  | S _, EmptyString => EmptyString
  end.

(** Readable literals: every apostrophe of [s] stands for a double quote. *)
Fixpoint js (s : string) : string :=
  match s with
  | EmptyString => EmptyString
  | String c s' => String (if Ascii.eqb c "'"%char then QUOTE else c) (js s')
  end.

(** The white space of [String.prototype.trim] and of the regular-expression
    class [\s], among the code units below 256. *)
Definition isJSWhitespace (c : ascii) : bool :=
  let n := N_of_ascii c in
  ((9 <=? n) && (n <=? 13) || (n =? 32) || (n =? 160))%N.

Fixpoint trimStart (s : string) : string :=
  match s with
  | String c s' => if isJSWhitespace c then trimStart s' else s
  | EmptyString => EmptyString
  end.

Fixpoint allWhitespace (s : string) : bool :=
  match s with
  | EmptyString => true
  | String c s' => isJSWhitespace c && allWhitespace s'
  end.

Fixpoint trimEnd (s : string) : string :=
  match s with
  | EmptyString => EmptyString
  | String c s' => if allWhitespace s then EmptyString else String c (trimEnd s')
  end.

(** [s.trim()] *)
Definition trim (s : string) : string := trimEnd (trimStart s).

Definition FENCE : string := "```".

(** [text.match] with the code-fence pattern (three backticks, an optional
    [json], any white space, then a group capturing all that is left): the
    capture group of the leftmost match, [None] when the text holds no
    fence.  After the fence the optional [json] and the white space are
    taken greedily; the group matches whatever is left, so no backtracking
    occurs. *)
Fixpoint codeBlockMatch (text : string) : option string :=
  if String.prefix FENCE text then
    let after := string_drop 3 text in
    let after := if String.prefix "json" after then string_drop 4 after else after in
    Some (trimStart after)
  else
    match text with
    | EmptyString => None
    | String _ text' => codeBlockMatch text'
    end.

(** [s.replace] of a trailing fence (three backticks, then white space up to
    the end of the input) by the empty string: the leftmost fence that only
    white space follows is removed together with that white space. *)
Fixpoint stripTrailingFence (s : string) : string :=
  if String.prefix FENCE s && allWhitespace (string_drop 3 s) then EmptyString
  else
    match s with
    | EmptyString => EmptyString
    | String c s' => String c (stripTrailingFence s')
    end.

(** ** The bracket scan [findBalancedJSON]

    The loop state is [depth] and [startIdx] ([-1] is [None]); the loop
    either returns [str.substring(startIdx, i + 1)] or runs to the end. *)

Inductive ScanOutcome :=
| Returned (s : string)
| Exhausted (depth : Z) (startIdx : option nat).

Fixpoint balancedLoop (str : string) (startChar endChar : ascii)
    (rest : string) (i : nat) (depth : Z) (startIdx : option nat) : ScanOutcome :=
  match rest with
  | EmptyString => Exhausted depth startIdx
  | String c rest' =>
      if Ascii.eqb c startChar then
        balancedLoop str startChar endChar rest' (S i) (depth + 1)
          (if depth =? 0 then Some i else startIdx)
      else if Ascii.eqb c endChar then
        match startIdx with
        | Some s0 =>
            if depth - 1 =? 0 then Returned (substring s0 (S i - s0) str)
            else balancedLoop str startChar endChar rest' (S i) (depth - 1) startIdx
        | None => balancedLoop str startChar endChar rest' (S i) (depth - 1) startIdx
        end
      else balancedLoop str startChar endChar rest' (S i) depth startIdx
  end.

Definition findBalancedJSON (str : string) (startChar endChar : ascii)
    (allowIncomplete : bool) : option string :=
  match balancedLoop str startChar endChar str 0 0 None with
  | Returned s => Some s
  | Exhausted depth startIdx =>
      match startIdx with
      | Some s0 =>
          if allowIncomplete && (depth >? 0)
          then Some (string_drop s0 str ++ repeat_char endChar (Z.to_nat depth))
          else None
      | None => None
      end
  end.

(** The nesting depth the bracket scan tracks after each prefix of the
    input, for as long as the loop runs. *)
Definition bracketDepthStep (startChar endChar : ascii) (depth : Z) (c : ascii) : Z :=
  if Ascii.eqb c startChar then depth + 1
  else if Ascii.eqb c endChar then depth - 1
  else depth.

(** ** The object-salvage scan *)

Record SalvageState := mkSalvage {
  objectMatches : list string;
  currentObject : string;
  braceDepth : Z;
  inString : bool;
  escapeNext : bool
}.

Definition salvageInit : SalvageState := mkSalvage [] EmptyString 0 false false.

Definition salvageStep (st : SalvageState) (char : ascii) : SalvageState :=
  let '(mkSalvage ms cur d ins esc) := st in
  if esc then mkSalvage ms (push cur char) d ins false
  else if Ascii.eqb char BACKSLASH then mkSalvage ms (push cur char) d ins true
  else if Ascii.eqb char QUOTE then mkSalvage ms (push cur char) d (negb ins) esc
  else if negb ins then
    if Ascii.eqb char "{"%char then
      mkSalvage ms (if d =? 0 then "{" else push cur char) (d + 1) ins esc
    else if Ascii.eqb char "}"%char then
      if d - 1 =? 0 then mkSalvage (ms ++ [push cur char]) EmptyString (d - 1) ins esc
      else mkSalvage ms (push cur char) (d - 1) ins esc
    else if d >? 0 then mkSalvage ms (push cur char) d ins esc
    else st
  else mkSalvage ms (push cur char) d ins esc.

Fixpoint salvageRun (st : SalvageState) (s : string) : SalvageState :=
  match s with
  | EmptyString => st
  | String c s' => salvageRun (salvageStep st c) s'
  end.

Definition salvageObjects (jsonArray : string) : list string :=
  objectMatches (salvageRun salvageInit jsonArray).

(** ** A model of [JSON.parse]

    The built-in is modelled by a recursive-descent parser for the JSON
    grammar (ECMA-404).  Numbers keep their lexeme; an object keeps its
    members in source order. *)

#[warnings="-register-all"]
Inductive json :=
| JNull
| JBool (b : bool)
| JNumber (lexeme : string)
| JString (units : list N)
| JArray (items : list json)
| JObject (members : list (list N * json)).

(** Code units of a literal. *)
Definition ustr (s : string) : list N := map N_of_ascii (list_ascii_of_string s).

Definition isJSONWhitespace (c : ascii) : bool :=
  let n := N_of_ascii c in ((n =? 9) || (n =? 10) || (n =? 13) || (n =? 32))%N.

Fixpoint skipWs (s : string) : string :=
  match s with
  | String c s' => if isJSONWhitespace c then skipWs s' else s
  | EmptyString => EmptyString
  end.

Definition isDigit (c : ascii) : bool :=
  let n := N_of_ascii c in ((48 <=? n) && (n <=? 57))%N.

Definition hexValue (c : ascii) : option N :=
  let n := N_of_ascii c in
  if ((48 <=? n) && (n <=? 57))%N then Some (n - 48)%N
  else if ((65 <=? n) && (n <=? 70))%N then Some (n - 55)%N
  else if ((97 <=? n) && (n <=? 102))%N then Some (n - 87)%N
  else None.

Definition hex4 (a b c d : ascii) : option N :=
  match hexValue a, hexValue b, hexValue c, hexValue d with
  | Some x, Some y, Some z, Some w => Some (((x * 16 + y) * 16 + z) * 16 + w)%N
  | _, _, _, _ => None
  end.

(** The code unit a single-character escape denotes. *)
Definition simpleEscape (e : ascii) : option N :=
  if Ascii.eqb e QUOTE then Some 34%N
  else if Ascii.eqb e BACKSLASH then Some 92%N
  else if Ascii.eqb e "/"%char then Some 47%N
  else if Ascii.eqb e "b"%char then Some 8%N
  else if Ascii.eqb e "f"%char then Some 12%N
  else if Ascii.eqb e "n"%char then Some 10%N
  else if Ascii.eqb e "r"%char then Some 13%N
  else if Ascii.eqb e "t"%char then Some 9%N
  else None.

Definition consUnit (u : N) (r : option (list N * string)) : option (list N * string) :=
  match r with
  | Some (us, rest) => Some (u :: us, rest)
  | None => None
  end.

(** The characters of a string literal after its opening quote, up to and
    including the closing quote. *)
Fixpoint parseStringBody (s : string) : option (list N * string) :=
  match s with
  | EmptyString => None
  | String c s' =>
      if Ascii.eqb c QUOTE then Some ([], s')
      else if Ascii.eqb c BACKSLASH then
        match s' with
        | String e s'' =>
            if Ascii.eqb e "u"%char then
              match s'' with
              | String h1 (String h2 (String h3 (String h4 s4))) =>
                  match hex4 h1 h2 h3 h4 with
                  | Some u => consUnit u (parseStringBody s4)
                  | None => None
                  end
              | _ => None
              end
            else
              match simpleEscape e with
              | Some u => consUnit u (parseStringBody s'')
              | None => None
              end
        | EmptyString => None
        end
      else if (N_of_ascii c <? 32)%N then None
      else consUnit (N_of_ascii c) (parseStringBody s')
  end.

Fixpoint takeDigits (s : string) : string * string :=
  match s with
  | String c s' =>
      if isDigit c then let '(ds, rest) := takeDigits s' in (String c ds, rest)
      else (EmptyString, s)
  | EmptyString => (EmptyString, EmptyString)
  end.

Definition parseInt (s : string) : option (string * string) :=
  match s with
  | String c s' =>
      if Ascii.eqb c "0"%char then Some ("0", s')
      else if isDigit c then let '(ds, rest) := takeDigits s' in Some (String c ds, rest)
      else None
  | EmptyString => None
  end.

Definition parseFrac (s : string) : option (string * string) :=
  match s with
  | String c s' =>
      if Ascii.eqb c "."%char then
        match takeDigits s' with
        | (EmptyString, _) => None
        | (ds, rest) => Some (String c ds, rest)
        end
      else Some (EmptyString, s)
  | EmptyString => Some (EmptyString, s)
  end.

Definition parseExp (s : string) : option (string * string) :=
  match s with
  | String c s' =>
      if Ascii.eqb c "e"%char || Ascii.eqb c "E"%char then
        let '(sign, s'') :=
          match s' with
          | String g r => if Ascii.eqb g "+"%char || Ascii.eqb g "-"%char
                          then (str1 g, r) else (EmptyString, s')
          | EmptyString => (EmptyString, s')
          end in
        match takeDigits s'' with
        | (EmptyString, _) => None
        | (ds, rest) => Some (String c (sign ++ ds), rest)
        end
      else Some (EmptyString, s)
  | EmptyString => Some (EmptyString, s)
  end.

Definition parseNumber (s : string) : option (string * string) :=
  let '(sign, s1) :=
    match s with
    | String c r => if Ascii.eqb c "-"%char then ("-", r) else (EmptyString, s)
    | EmptyString => (EmptyString, s)
    end in
  match parseInt s1 with
  | Some (int, s2) =>
      match parseFrac s2 with
      | Some (frac, s3) =>
          match parseExp s3 with
          | Some (exp, s4) => Some (sign ++ int ++ frac ++ exp, s4)
          | None => None
          end
      | None => None
      end
  | None => None
  end.

Fixpoint parseValue (fuel : nat) (s : string) : option (json * string) :=
  match fuel with
  | O => None
  | S fuel' =>
      match skipWs s with
      | EmptyString => None
      | String c r =>
          if Ascii.eqb c "{"%char then
            match skipWs r with
            | String c' r' =>
                if Ascii.eqb c' "}"%char then Some (JObject [], r')
                else
                  match parseMembers fuel' (String c' r') with
                  | Some (ms, rest) => Some (JObject ms, rest)
                  | None => None
                  end
            | EmptyString => None
            end
          else if Ascii.eqb c "["%char then
            match skipWs r with
            | String c' r' =>
                if Ascii.eqb c' "]"%char then Some (JArray [], r')
                else
                  match parseElements fuel' (String c' r') with
                  | Some (vs, rest) => Some (JArray vs, rest)
                  | None => None
                  end
            | EmptyString => None
            end
          else if Ascii.eqb c QUOTE then
            match parseStringBody r with
            | Some (us, rest) => Some (JString us, rest)
            | None => None
            end
          else if String.prefix "true" (String c r) then Some (JBool true, string_drop 4 (String c r))
          else if String.prefix "false" (String c r) then Some (JBool false, string_drop 5 (String c r))
          else if String.prefix "null" (String c r) then Some (JNull, string_drop 4 (String c r))
          else
            match parseNumber (String c r) with
            | Some (lexeme, rest) => Some (JNumber lexeme, rest)
            | None => None
            end
      end
  end
(** one or more values separated by commas, then the closing bracket *)
with parseElements (fuel : nat) (s : string) : option (list json * string) :=
  match fuel with
  | O => None
  | S fuel' =>
      match parseValue fuel' s with
      | Some (v, rest) =>
          match skipWs rest with
          | String c r =>
              if Ascii.eqb c ","%char then
                match parseElements fuel' r with
                | Some (vs, rest') => Some (v :: vs, rest')
                | None => None
                end
              else if Ascii.eqb c "]"%char then Some ([v], r)
              else None
          | EmptyString => None
          end
      | None => None
      end
  end
(** one or more [key : value] members separated by commas, then the closing
    brace; [s] starts at the key *)
with parseMembers (fuel : nat) (s : string) : option (list (list N * json) * string) :=
  match fuel with
  | O => None
  | S fuel' =>
      match s with
      | String q r =>
          if Ascii.eqb q QUOTE then
            match parseStringBody r with
            | Some (key, rest) =>
                match skipWs rest with
                | String colon r1 =>
                    if Ascii.eqb colon ":"%char then
                      match parseValue fuel' r1 with
                      | Some (v, rest1) =>
                          match skipWs rest1 with
                          | String c r2 =>
                              if Ascii.eqb c ","%char then
                                match parseMembers fuel' (skipWs r2) with
                                | Some (ms, rest2) => Some ((key, v) :: ms, rest2)
                                | None => None
                                end
                              else if Ascii.eqb c "}"%char then Some ([(key, v)], r2)
                              else None
                          | EmptyString => None
                          end
                      | None => None
                      end
                    else None
                | EmptyString => None
                end
            | None => None
            end
          else None
      | EmptyString => None
      end
  end.

(** A whole text: one value, then nothing but white space. *)
Definition JSON_parse_fuel (fuel : nat) (text : string) : option json :=
  match parseValue fuel text with
  | Some (v, rest) =>
      match skipWs rest with
      | EmptyString => Some v
      | String _ _ => None
      end
  | None => None
  end.

(** [JSON.parse(text)]; [None] is the [SyntaxError].  Twice the length of
    the input is fuel enough: more fuel gives the same result
    ([JSON_parse_fuel_enough]). *)
Definition JSON_parse (text : string) : option json :=
  JSON_parse_fuel (2 * String.length text + 2) text.

(** [obj[key]] for a value that [JSON.parse] produced; [None] is
    [undefined].  A repeated key keeps its last value. *)
Fixpoint lookupMember (key : list N) (ms : list (list N * json)) : option json :=
  match ms with
  | [] => None
  | (k, v) :: ms' =>
      match lookupMember key ms' with
      | Some v' => Some v'
      | None => if decide (k = key) then Some v else None
      end
  end.

Definition getProperty (obj : json) (key : string) : option json :=
  match obj with
  | JObject ms => lookupMember (ustr key) ms
  | _ => None
  end.

(** The digits at the head of [s] read as a decimal number, continuing
    [acc]. *)
Fixpoint digitsValue (acc : Z) (s : string) : Z :=
  match s with
  | String c r =>
      if isDigit c then digitsValue (10 * acc + (Z.of_N (N_of_ascii c) - 48)) r else acc
  | EmptyString => acc
  end.

(** The mantissa of a number lexeme: its digits before and after the point
    read as one whole number, the count of the digits after the point, and
    what follows the letter that opens the exponent. *)
Fixpoint scanMantissa (s : string) (afterPoint : bool) (digits fraction : Z)
    : Z * Z * string :=
  match s with
  | EmptyString => (digits, fraction, EmptyString)
  | String c r =>
      if isDigit c then
        scanMantissa r afterPoint (10 * digits + (Z.of_N (N_of_ascii c) - 48))
          (if afterPoint then fraction + 1 else fraction)
      else if Ascii.eqb c "."%char then scanMantissa r true digits fraction
      else if Ascii.eqb c "-"%char then scanMantissa r afterPoint digits fraction
      else (digits, fraction, r)
  end.

(** The exponent written after the letter [e]. *)
Definition exponentValue (s : string) : Z :=
  match s with
  | String c r =>
      if Ascii.eqb c "-"%char then - digitsValue 0 r
      else if Ascii.eqb c "+"%char then digitsValue 0 r
      else digitsValue 0 s
  | EmptyString => 0
  end.

(** Whether the number a lexeme writes is the number zero once
    [JSON.parse] has made a double of it.  The parser takes the double
    nearest to the number written, ties going to the even one; the doubles
    next to zero are plus and minus 2^-1074, so the result is zero exactly
    when the magnitude written is at most 2^-1075.  With [digits] the
    mantissa as a whole number and [e] the decimal exponent that goes with
    it, that is [digits * 10^e <= 2^-1075]. *)
Definition parsesToZero (lexeme : string) : bool :=
  let '(digits, fraction, rest) := scanMantissa lexeme false 0 0 in
  let e := exponentValue rest - fraction in
  if digits =? 0 then true
  else if e <? 0 then digits * 2 ^ 1075 <=? 10 ^ (- e)
  else false.

(** JavaScript truthiness of a property value. *)
Definition truthy (v : option json) : bool :=
  match v with
  | None => false
  | Some JNull => false
  | Some (JBool b) => b
  | Some (JNumber lexeme) => negb (parsesToZero lexeme)
  | Some (JString us) => match us with [] => false | _ => true end
  | Some (JArray _) => true
  | Some (JObject _) => true
  end.

Definition isNull (v : json) : bool :=
  match v with JNull => true | _ => false end.

(** ** The response parser of [GeminiClient.makeLLMRequest] *)

(** [parsedData]: a parsed value, or the raw text handed on to the adapter. *)
Inductive ParsedData :=
| DataJSON (v : json)
| DataText (text : string).

(** [objectMatches.map(...).filter(obj => obj !== null && obj.keyword)] *)
Definition completeObjects (objectMatches : list string) : list json :=
  List.filter (fun obj => negb (isNull obj) && truthy (getProperty obj "keyword"))
    (map (fun m => match JSON_parse m with Some v => v | None => JNull end) objectMatches).

(** An object as the salvage keeps it: its text is accepted by
    [JSON.parse] and its [keyword] is truthy. *)
Definition recoveredObject (text : string) : option json :=
  match JSON_parse text with
  | Some v => if truthy (getProperty v "keyword") then Some v else None
  | None => None
  end.

(** The catch block of the array parse; [None] rethrows [arrayParseError]. *)
Definition salvageArray (jsonArray : string) : option (list json) :=
  match salvageObjects jsonArray with
  | [] => None
  | objectMatches =>
      match completeObjects objectMatches with
      | [] => None
      | objs => Some objs
      end
  end.

(** [jsonText]: the text the first [JSON.parse] is tried on. *)
Definition fencedJsonText (text : string) : string :=
  match codeBlockMatch text with
  | Some group => trim (stripTrailingFence group)
  | None => trim text
  end.

Definition parseResponseText (text : string) : ParsedData :=
  match JSON_parse (fencedJsonText text) with
  | Some v => DataJSON v
  | None =>
      let jsonArray :=
        match findBalancedJSON text "["%char "]"%char false with
        | Some a => Some a
        | None => findBalancedJSON text "["%char "]"%char true
        end in
      match jsonArray with
      | Some a =>
          match JSON_parse a with
          | Some v => DataJSON v
          | None =>
              match salvageArray a with
              | Some objs => DataJSON (JArray objs)
              | None => DataText text
              end
          end
      | None =>
          match findBalancedJSON text "{"%char "}"%char false with
          | Some o =>
              match JSON_parse o with
              | Some v => DataJSON v
              | None => DataText text
              end
          | None => DataText text
          end
      end
  end.

(** The string branch of [GeminiLLMProviderAdapter.expandKeywords]: the
    value bound to [keywords]. *)
Definition adapterKeywordsOfString (data : string) : json :=
  match findBalancedJSON data "["%char "]"%char false with
  | Some jsonArray =>
      match JSON_parse jsonArray with
      | Some (JArray items) => JArray items
      | Some _ => JArray []
      | None => JArray []
      end
  | None =>
      match findBalancedJSON data "{"%char "}"%char false with
      | Some jsonObject =>
          match JSON_parse jsonObject with
          | Some parsed =>
              if truthy (getProperty parsed "keywords")
              then match getProperty parsed "keywords" with Some v => v | None => JArray [] end
              else match parsed with JArray items => JArray items | _ => JArray [] end
          | None => JArray []
          end
      | None => JArray []
      end
  end.

(** ** Request fingerprints (cache keys) *)

(** A number in a template literal (the code only prints integers here). *)
Definition showZ (z : Z) : string := NilZero.string_of_int (Z.to_int z).

(** An optional string in a template literal. *)
Definition showOptional (o : option string) : string :=
  match o with Some s => s | None => "undefined" end.

(** The order of [Array.prototype.sort] without a comparator: strings are
    compared code unit by code unit. *)
Definition str_le (a b : string) : Prop := String.leb a b = true.

#[global] Instance str_le_dec : RelDecision str_le :=
  fun a b => decide (String.leb a b = true).

(** [array.sort()] *)
Definition arraySort (l : list string) : list string := merge_sort str_le l.

(** [array.join(sep)] *)
Definition join (sep : string) (l : list string) : string := String.concat sep l.

(** [GeminiClient.expandToDream100]: [cacheKey] *)
Definition expansionCacheKey (seed_keywords : list string) (target_count : Z)
    (intent_focus : option string) : string :=
  "expansion:" ++ showZ target_count ++ ":" ++ showOptional intent_focus ++ ":"
  ++ join "," (arraySort seed_keywords).

(** [GeminiClient.classifyIntent]: [cacheKey]; [contextJSON] is
    [JSON.stringify(context || {})]. *)
Definition intentCacheKey (keywords : list string) (contextJSON : string) : string :=
  "intent:" ++ join "," (arraySort keywords) ++ ":" ++ contextJSON.

(** [AhrefsClient.getKeywordMetrics]: [cacheKey] *)
Definition ahrefsMetricsCacheKey (keywords : list string) (country : string) : string :=
  "kw:metrics:" ++ country ++ ":" ++ join "," (arraySort keywords).

(** [chunkArray(array, chunkSize)]; the loop runs at most once per element. *)
Fixpoint chunkLoop {A} (fuel : nat) (array : list A) (chunkSize : nat) : list (list A) :=
  match fuel, array with
  | _, [] => []
  | O, _ => []
  | S fuel', _ => take chunkSize array :: chunkLoop fuel' (drop chunkSize array) chunkSize
  end.

Definition chunkArray {A} (array : list A) (chunkSize : nat) : list (list A) :=
  chunkLoop (length array) array chunkSize.

(** [DataForSEOClient.getKeywordData]: [cacheKey] of one batch *)
Definition dataForSEOBatchCacheKey (batch : list string) (location : Z)
    (language : string) : string :=
  "dfs:labs:bulk:" ++ showZ location ++ ":" ++ language ++ ":"
  ++ substring 0 50 (join "," (take 3 batch)).

(** The cache keys [getKeywordData] uses, one per batch of 1000 keywords. *)
Definition dataForSEOCacheKeys (keywords : list string) (location : Z)
    (language : string) : list string :=
  map (fun batch => dataForSEOBatchCacheKey batch location language)
      (chunkArray keywords 1000).

(** [DataForSEOClient.getKeywordDifficulty]: [cacheKey] *)
Definition dataForSEODifficultyCacheKey (keywords : list string) (location : Z)
    (language : string) : string :=
  "dfs:difficulty:" ++ showZ location ++ ":" ++ language ++ ":"
  ++ join "," (arraySort keywords).

(** ** [GeminiClient]: state and [makeLLMRequest] *)

(** The fields of [this.metrics] that the client reads and updates. *)
Record UsageMetrics := mkMetrics {
  requests : Z;
  successes : Z;
  failures : Z;
  rateLimitHits : Z;
  circuitBreakerTrips : Z;
  totalCost : Q;
  avgResponseTime : Q;
  lastRequest : Z
}.

Record AnthropicUsage := mkUsage {
  input_tokens : Z;
  output_tokens : Z;
  usage_model : string;
  cost_estimate : Q;
  usage_request_id : string
}.

Record AnthropicResponse := mkResponse {
  data : ParsedData;
  usage : AnthropicUsage;
  model : string;
  finish_reason : string;
  request_id : string;
  processing_time : Z
}.

(** What [setLLMCache] stores under a key. *)
Record CacheEntry := mkEntry {
  entry_data : AnthropicResponse;
  timestamp : Z;
  ttl : Z
}.

Record RateLimitInfo := mkRateLimitInfo {
  limit : Z;
  remaining : Q;
  reset : Z;
  retryAfter : Z
}.

Record LLMError := mkError {
  message : string;
  code : option string;
  statusCode : option Z;
  retryable : option bool;
  rateLimit : option RateLimitInfo;
  provider : option string;
  operation : option string
}.

Definition plainError (msg : string) : LLMError :=
  mkError msg None None None None None None.

(** Modelled from the spec: the rate limiter of [utils/rate-limiter], which
    is not among the sources.  The client only uses this interface; the
    limiter's state type and its refill policy are left open. *)
Record RateLimiterOps (L : Type) := mkLimiterOps {
  tryConsume : Z -> L -> bool * L;
  getRemainingTokens : L -> Q;
  getNextRefillTime : L -> Z;
  configCapacity : L -> option Z
}.
Arguments tryConsume {L}.
Arguments getRemainingTokens {L}.
Arguments getNextRefillTime {L}.
Arguments configCapacity {L}.

(** Modelled from the spec: a token bucket as section 4.1 describes it
    ([capacity], [tokens], [refillRate], [refillPeriod], [lastRefillTime];
    lazy refill at consumption, cost 1). *)
Record TokenBucket := mkBucket {
  capacity : Z;
  tokens : Q;
  refillRate : Q;
  refillPeriod : Z;
  lastRefillTime : Z
}.

(** Modelled from the spec: [tryConsume()] of the token bucket of section
    4.1, which is not among the sources: refill first, then take one token
    if there is one. *)
Definition bucketTryConsume (now : Z) (b : TokenBucket) : bool * TokenBucket :=
  let elapsed := now - lastRefillTime b in
  let refilled :=
    Qmin (inject_Z (capacity b))
         (tokens b + (inject_Z elapsed / inject_Z (refillPeriod b)) * refillRate b)%Q in
  if Qle_bool 1 refilled
  then (true, mkBucket (capacity b) (refilled - 1)%Q (refillRate b) (refillPeriod b) now)
  else (false, mkBucket (capacity b) refilled (refillRate b) (refillPeriod b) now).

(** Modelled from the spec: the token bucket of section 4.1 seen through
    the interface of the limiter. *)
Definition tokenBucketOps : RateLimiterOps TokenBucket :=
  mkLimiterOps TokenBucket bucketTryConsume tokens
    (fun b => lastRefillTime b + refillPeriod b)
    (fun b => Some (capacity b)).

(** Modelled from the spec: the state a client inherits from
    [BaseApiClient], which is not among the sources.  The cache store is a
    finite map with [get] and [set]; [upstreamCalls] records the prompts
    that reached [circuitBreaker.execute], the only place that calls the
    network. *)
Record GeminiClient (L : Type) := mkClient {
  cache : gmap string CacheEntry;
  rateLimiter : L;
  metrics : UsageMetrics;
  upstreamCalls : list string
}.
Arguments mkClient {L}.
Arguments cache {L}.
Arguments rateLimiter {L}.
Arguments metrics {L}.
Arguments upstreamCalls {L}.

Record Candidate := mkCandidate {
  finishReason : option string;
  finishMessage : option string
}.

(** What [circuitBreaker.execute] and [response.text()] come back with:
    a response after [latency] milliseconds, or a thrown error. *)
Inductive UpstreamReply :=
| Replied (text : string) (usageMetadata : option (option Z * option Z))
          (candidate : option Candidate) (latency : Z) (nonce : string)
| Failed (errorMessage : string) (latency : Z).

Definition DEFAULT_GEMINI_MODEL : string := "gemini-1.5-pro".
Definition costPerToken : Q := 125 # 1000000000.
Definition outputCostPerToken : Q := 5 # 10000000.
Definition cacheTtl : Z := 24 * 60 * 60 * 1000.

(** [Math.ceil(x / d)] for integers [x] and a positive [d] *)
Definition ceilDiv (x d : Z) : Z := - ((- x) / d).

Definition calculateCost (inputTokens outputTokens : Z) : Q :=
  (inject_Z inputTokens * costPerToken + inject_Z outputTokens * outputCostPerToken)%Q.

Definition nonEmpty (o : option string) : bool :=
  match o with
  | Some (String _ _) => true
  | _ => false
  end.

(** [getLLMCache(key)] *)
Definition getLLMCache {L} (st : GeminiClient L) (now : Z) (key : string)
    : option AnthropicResponse :=
  match cache st !! key with
  | Some cached => if now <? timestamp cached + ttl cached then Some (entry_data cached) else None
  | None => None
  end.

(** [setLLMCache(key, data)] *)
Definition setLLMCache {L} (st : GeminiClient L) (now : Z) (key : string)
    (result : AnthropicResponse) : GeminiClient L :=
  mkClient (<[key := mkEntry result now cacheTtl]> (cache st))
           (rateLimiter st) (metrics st) (upstreamCalls st).

(** [updateLLMMetrics(success, responseTime, cost)] *)
Definition updateLLMMetrics (m : UsageMetrics) (now : Z) (success : bool)
    (responseTime : Z) (cost : Q) : UsageMetrics :=
  mkMetrics (requests m + 1)
            (if success then successes m + 1 else successes m)
            (if success then failures m else failures m + 1)
            (rateLimitHits m) (circuitBreakerTrips m)
            (totalCost m + cost)%Q
            (avgResponseTime m * (1 - (1 # 10)) + inject_Z responseTime * (1 # 10))%Q
            now.

Definition bumpRateLimitHits (m : UsageMetrics) : UsageMetrics :=
  mkMetrics (requests m) (successes m) (failures m) (rateLimitHits m + 1)
            (circuitBreakerTrips m) (totalCost m) (avgResponseTime m) (lastRequest m).

Definition bumpCircuitBreakerTrips (m : UsageMetrics) : UsageMetrics :=
  mkMetrics (requests m) (successes m) (failures m) (rateLimitHits m)
            (circuitBreakerTrips m + 1) (totalCost m) (avgResponseTime m) (lastRequest m).

(** [message.includes(needle)] *)
Definition includes (needle s : string) : bool :=
  match index 0 needle s with Some _ => true | None => false end.

Record LLMOptions := mkOptions {
  opt_cacheKey : option string;
  opt_operation : string
}.

Section Gemini.
Context {L : Type} (limiter : RateLimiterOps L).
(** The reply the upstream gives to the n-th call that reaches it. *)
Variable upstream : nat -> UpstreamReply.

(** The rejection thrown when the limiter refuses admission. *)
Definition rateLimitError (now : Z) (rl : L) : LLMError :=
  mkError "Rate limit exceeded" (Some "RATE_LIMIT_ERROR") (Some 429) (Some true)
    (Some (mkRateLimitInfo
             (match configCapacity limiter rl with Some c => c | None => 0 end)
             (getRemainingTokens limiter rl)
             (ceilDiv (getNextRefillTime limiter rl) 1000)
             (ceilDiv (getNextRefillTime limiter rl - now) 1000)))
    None None.

(** The part of [makeLLMRequest] after admission: the network call, the
    parse, the cache write and the metrics. *)
Definition performRequest (prompt : string) (options : LLMOptions) (now : Z)
    (st : GeminiClient L) : (AnthropicResponse + LLMError) * GeminiClient L :=
  let called := mkClient (cache st) (rateLimiter st) (metrics st)
                         (upstreamCalls st ++ [prompt]) in
  match upstream (length (upstreamCalls st)) with
  | Replied text usageMetadata candidate latency nonce =>
      let processingTime := latency in
      let finished := now + latency in
      let parsedData := parseResponseText text in
      let '(inputTokens, outputTokens) :=
        match usageMetadata with
        | Some (p, c) => (match p with Some n => n | None => 0 end,
                          match c with Some n => n | None => 0 end)
        | None => (ceilDiv (Z.of_nat (String.length prompt)) 4,
                   ceilDiv (Z.of_nat (String.length text)) 4)
        end in
      let cost := calculateCost inputTokens outputTokens in
      let rid := "gemini_" ++ showZ finished ++ "_" ++ nonce in
      let usage := mkUsage inputTokens outputTokens DEFAULT_GEMINI_MODEL cost rid in
      let finishReason :=
        match candidate with
        | Some c =>
            if nonEmpty (finishReason c) then showOptional (finishReason c)
            else if nonEmpty (finishMessage c) then "stop" else "complete"
        | None => "complete"
        end in
      let result := mkResponse parsedData usage DEFAULT_GEMINI_MODEL finishReason rid
                               processingTime in
      let cached :=
        match opt_cacheKey options with
        | Some (String c k) => setLLMCache called finished (String c k) result
        | _ => called
        end in
      (inl result,
       mkClient (cache cached) (rateLimiter cached)
                (updateLLMMetrics (metrics cached) finished true processingTime cost)
                (upstreamCalls cached))
  | Failed msg latency =>
      let m := if includes "Circuit breaker" msg
               then bumpCircuitBreakerTrips (metrics called) else metrics called in
      (inr (mkError msg None None None None (Some "gemini") (Some (opt_operation options))),
       mkClient (cache called) (rateLimiter called)
                (updateLLMMetrics m (now + latency) false latency 0)
                (upstreamCalls called))
  end.

(** The cache check that opens [makeLLMRequest]: the cached response, if
    the options carry a key and the key has an unexpired entry. *)
Definition cacheCheck (options : LLMOptions) (now : Z) (st : GeminiClient L)
    : option AnthropicResponse :=
  match opt_cacheKey options with
  | Some (String c k) => getLLMCache st now (String c k)
  | _ => None
  end.

(** [makeLLMRequest] from the rate-limit check on. *)
Definition requestAfterMiss (prompt : string) (options : LLMOptions) (now : Z)
    (st : GeminiClient L) : (AnthropicResponse + LLMError) * GeminiClient L :=
  let '(canProceed, rl) := tryConsume limiter now (rateLimiter st) in
  let st1 := mkClient (cache st) rl (metrics st) (upstreamCalls st) in
  if canProceed then performRequest prompt options now st1
  else
    (inr (rateLimitError now rl),
     mkClient (cache st1) rl (bumpRateLimitHits (metrics st1)) (upstreamCalls st1)).

(** [makeLLMRequest(prompt, options)] at time [now]. *)
Definition makeLLMRequest (prompt : string) (options : LLMOptions) (now : Z)
    (st : GeminiClient L) : (AnthropicResponse + LLMError) * GeminiClient L :=
  match cacheCheck options now st with
  | Some cached =>
      (inl (mkResponse (data cached) (usage cached) (model cached) "cached"
                       ("cached_" ++ showZ now) 0), st)
  | None => requestAfterMiss prompt options now st
  end.

(** Which errors the retry executor retries and how long it waits before
    the attempts that are left; both belong to [utils/error-handler], which
    is not among the sources. *)
Variable isRetryable : LLMError -> bool.
Variable backoff : nat -> Z.

(** Modelled from the spec: [RetryHandler.withRetry] of
    [utils/error-handler], which is not among the sources (section 4.3:
    a retryable error is retried after a back-off, up to [maxAttempts]
    attempts; any other error fails at once). *)
Fixpoint withRetry (attemptsLeft : nat)
    (operation : Z -> GeminiClient L -> (AnthropicResponse + LLMError) * GeminiClient L)
    (now : Z) (st : GeminiClient L) : (AnthropicResponse + LLMError) * GeminiClient L :=
  match attemptsLeft with
  | O => (inr (plainError "No attempts left"), st)
  | S n =>
      match operation now st with
      | (inl r, st') => (inl r, st')
      | (inr e, st') =>
          match n with
          | O => (inr e, st')
          | S _ => if isRetryable e then withRetry n operation (now + backoff n) st'
                   else (inr e, st')
          end
      end
  end.

(** The prompts built from [ANTHROPIC_PROMPTS]; their wording plays no
    part in what follows. *)
Variable expansionPrompt : list string -> Z -> option string -> option string -> string.
Variable intentPrompt : list string -> string -> string.

Record AnthropicKeywordExpansion := mkExpansion {
  seed_keywords : list string;
  target_count : Z;
  industry : option string;
  intent_focus : option string
}.

(** [keywords] and [JSON.stringify(context || {})] *)
Record AnthropicIntentClassification := mkClassification {
  ic_keywords : list string;
  ic_contextJSON : string
}.

(** [expandToDream100(request)] *)
Definition expandToDream100 (request : AnthropicKeywordExpansion) (now : Z)
    (st : GeminiClient L) : (AnthropicResponse + LLMError) * GeminiClient L :=
  if (length (seed_keywords request) =? 0)%nat then
    (inr (plainError "At least one seed keyword is required"), st)
  else if target_count request >? 150 then
    (inr (plainError "Maximum 150 keywords per expansion to maintain quality and avoid token limits"), st)
  else
    let cacheKey := expansionCacheKey (seed_keywords request) (target_count request)
                                      (intent_focus request) in
    let fullPrompt := expansionPrompt (arraySort (seed_keywords request))
                        (target_count request) (industry request) (intent_focus request) in
    withRetry 2
      (makeLLMRequest fullPrompt (mkOptions (Some cacheKey) "keyword_expansion"))
      now st.

(** [classifyIntent(request)] *)
Definition classifyIntent (request : AnthropicIntentClassification) (now : Z)
    (st : GeminiClient L) : (AnthropicResponse + LLMError) * GeminiClient L :=
  if (length (ic_keywords request) =? 0)%nat then
    (inr (plainError "At least one keyword is required"), st)
  else if (500 <? length (ic_keywords request))%nat then
    (inr (plainError "Maximum 500 keywords per classification request"), st)
  else
    let cacheKey := intentCacheKey (ic_keywords request) (ic_contextJSON request) in
    let fullPrompt := intentPrompt (arraySort (ic_keywords request))
                                   (ic_contextJSON request) in
    makeLLMRequest fullPrompt (mkOptions (Some cacheKey) "intent_classification") now st.
End Gemini.

(** ** [KeywordProvider]: the unified record and the provider cascade *)

Inductive Source := dataforseo | ahrefs | mock | unavailable.

#[global] Instance Source_eq_dec : EqDecision Source.
Proof. solve_decision. Defined.

Record TrendPoint := mkTrend {
  month : string;
  trend_volume : Q
}.

Record UnifiedKeywordData := mkUnified {
  keyword : string;
  volume : option Q;
  difficulty : option Q;
  cpc : option Q;
  competition : option Q;
  trend : option (list TrendPoint);
  source : Source;
  confidence : Q
}.

(** The rows the clients hand over are untyped in the source; these records
    hold the fields the normalisers read, absent or [null] being [None]. *)
Record MonthlySearch := mkMonthly {
  ms_year : Z;
  ms_month : Z;
  ms_search_volume : Q
}.

Record KeywordInfo := mkInfo {
  search_volume : option Q;
  info_cpc : option Q;
  info_competition : option Q;
  monthly_searches : option (list MonthlySearch)
}.

(** [dfs_own] holds the row's own metric fields, read when the row has no
    [keyword_info]; [keyword_difficulty] is
    [keyword_properties?.keyword_difficulty]. *)
Record DataForSEORow := mkDfsRow {
  dfs_keyword : option string;
  keyword_info : option KeywordInfo;
  dfs_own : KeywordInfo;
  keyword_difficulty : option Q
}.

Record AhrefsRow := mkAhrefsRow {
  ah_keyword : option string;
  ah_volume : option Q;
  ah_search_volume : option Q;
  ah_difficulty : option Q;
  ah_keyword_difficulty : option Q;
  ah_cpc : option Q;
  traffic_potential : option Q;
  ah_trend : option (list TrendPoint)
}.

(** [value || ''] *)
Definition orEmpty (o : option string) : string :=
  match o with Some s => s | None => EmptyString end.

(** [value || fallback] for an optional string: the empty string is falsy *)
Definition orDefault (o : option string) (fallback : string) : string :=
  match o with
  | Some (String c s) => String c s
  | _ => fallback
  end.

(** [a ?? b] *)
Definition coalesce {A} (a b : option A) : option A :=
  match a with Some x => Some x | None => b end.

(** [Math.round(x)] *)
Definition mathRound (x : Q) : Q := inject_Z (Qfloor (x + (1 # 2))%Q).

(** [Math.floor(x)] *)
Definition mathFloor (x : Q) : Q := inject_Z (Qfloor x).

(** [s.padStart(2, '0')] *)
Definition padStart2 (s : string) : string :=
  repeat_char "0"%char (2 - String.length s) ++ s.

Definition lowerChar (c : ascii) : ascii :=
  let n := N_of_ascii c in
  if ((65 <=? n) && (n <=? 90) || (192 <=? n) && (n <=? 222) && negb (n =? 215))%N
  then ascii_of_N (n + 32) else c.

(** [s.toLowerCase()] on code units below 256 *)
Fixpoint toLowerCase (s : string) : string :=
  match s with
  | EmptyString => EmptyString
  | String c s' => String (lowerChar c) (toLowerCase s')
  end.

Definition upperAscii (c : ascii) : ascii :=
  let n := N_of_ascii c in
  if ((97 <=? n) && (n <=? 122))%N then ascii_of_N (n - 32) else c.

Fixpoint upperAsciiString (s : string) : string :=
  match s with
  | EmptyString => EmptyString
  | String c s' => String (upperAscii c) (upperAsciiString s')
  end.

(** [getLocationCode(country)].  The keys of the table are upper-case ASCII,
    so only the ASCII letters of [country.toUpperCase()] can match one. *)
Definition getLocationCode (country : string) : Z :=
  let c := upperAsciiString country in
  if String.eqb c "US" then 2840 else if String.eqb c "UK" then 2826
  else if String.eqb c "GB" then 2826 else if String.eqb c "CA" then 2124
  else if String.eqb c "AU" then 2036 else if String.eqb c "DE" then 2276
  else if String.eqb c "FR" then 2250 else if String.eqb c "ES" then 2724
  else if String.eqb c "IT" then 2380 else if String.eqb c "NL" then 2528
  else if String.eqb c "BR" then 2076 else if String.eqb c "IN" then 2356
  else if String.eqb c "JP" then 2392 else 2840.

(** [normalizeDataForSEOData(rawData)] *)
Definition normalizeDataForSEOData (rawData : DataForSEORow) : UnifiedKeywordData :=
  let keywordInfo :=
    match keyword_info rawData with Some ki => ki | None => dfs_own rawData end in
  mkUnified
    (orEmpty (dfs_keyword rawData))
    (search_volume keywordInfo)
    (keyword_difficulty rawData)
    (info_cpc keywordInfo)
    (match info_competition keywordInfo with
     | Some c => Some (mathRound (c * 100)%Q)
     | None => None
     end)
    (match monthly_searches keywordInfo with
     | Some ms =>
         Some (map (fun m => mkTrend (showZ (ms_year m) ++ "-" ++ padStart2 (showZ (ms_month m)))
                                     (ms_search_volume m)) ms)
     | None => None
     end)
    dataforseo
    (95 # 100).

(** [normalizeAhrefsData(rawData)] *)
Definition normalizeAhrefsData (rawData : AhrefsRow) : UnifiedKeywordData :=
  mkUnified
    (orEmpty (ah_keyword rawData))
    (coalesce (ah_volume rawData) (ah_search_volume rawData))
    (coalesce (ah_difficulty rawData) (ah_keyword_difficulty rawData))
    (ah_cpc rawData)
    (match traffic_potential rawData with
     | Some tp => if Qeq_bool tp 0 then None else Some (Qmin (tp / 1000 * 100) 100)%Q
     | None => None
     end)
    (ah_trend rawData)
    ahrefs
    (9 # 10).

(** The record the partial-batch branch builds for a keyword the provider
    did not return. *)
Definition unavailableRecord (k : string) : UnifiedKeywordData :=
  mkUnified k None None None None None unavailable 0%Q.

Definition MONTHS : list string :=
  ["Jan"; "Feb"; "Mar"; "Apr"; "May"; "Jun"; "Jul"; "Aug"; "Sep"; "Oct"; "Nov"; "Dec"].

(** [Math.random()] is a stream [rand]; [i] counts the values drawn so far. *)
Fixpoint mockTrendPoints (rand : nat -> Q) (i : nat) (baseVolume : Q)
    (months : list string) : list TrendPoint :=
  match months with
  | [] => []
  | m :: ms =>
      mkTrend m (mathFloor (baseVolume + (rand i - (1 # 2)) * 1000)%Q)
      :: mockTrendPoints rand (S i) baseVolume ms
  end.

(** [generateMockTrend()]: thirteen draws *)
Definition generateMockTrend (rand : nat -> Q) (i : nat) : list TrendPoint :=
  let baseVolume := (1000 + rand i * 5000)%Q in
  mockTrendPoints rand (S i) baseVolume MONTHS.

(** [getMockKeywordData(keyword)]: seventeen draws *)
Definition getMockKeywordData (rand : nat -> Q) (i : nat) (k : string) : UnifiedKeywordData :=
  let baseVolume := (inject_Z (Z.of_nat (String.length k)) * 1000 + rand i * 5000)%Q in
  let difficulty := mathFloor (rand (i + 1)%nat * 100)%Q in
  mkUnified k
    (Some (mathFloor baseVolume))
    (Some difficulty)
    (Some (mathRound ((rand (i + 2)%nat * 5 + (1 # 2)) * 100) / 100)%Q)
    (Some (mathFloor (rand (i + 3)%nat * 100)%Q))
    (Some (generateMockTrend rand (i + 4)%nat))
    mock
    (1 # 2).

(** [keywords.map(keyword => this.getMockKeywordData(keyword))] *)
Fixpoint mockKeywords (rand : nat -> Q) (i : nat) (keywords : list string)
    : list UnifiedKeywordData :=
  match keywords with
  | [] => []
  | k :: ks => getMockKeywordData rand i k :: mockKeywords rand (i + 17)%nat ks
  end.

(** How an awaited client call ends: the promise rejects, or it resolves to
    an [ApiResponse] with its [success] flag and its [data]. *)
Inductive ClientOutcome (D : Type) :=
| Rejected (msg : string)
| Resolved (success : bool) (payload : option D).
Arguments Rejected {D}.
Arguments Resolved {D}.

(** A configured client is what its calls answer. *)
Record DataForSEOClient := mkDfsClient {
  getKeywordData : list string -> Z -> string -> ClientOutcome (list DataForSEORow)
}.

Record AhrefsClient := mkAhrefsClient {
  getKeywordMetricsCall : list string -> string -> ClientOutcome (list AhrefsRow);
  getKeywordOverview : string -> string -> ClientOutcome AhrefsRow
}.

Record KeywordProvider := mkProvider {
  mockMode : bool;
  dataForSEOClient : option DataForSEOClient;
  ahrefsClient : option AhrefsClient
}.

Record BulkOptions := mkBulkOptions {
  location : option string;
  language : option string
}.

(** The DataForSEO branch of [getBulkKeywordMetrics] once the call has
    resolved with data: normalise, then mark what is missing. *)
Definition fillMissing (keywords : list string) (rows : list DataForSEORow)
    : list UnifiedKeywordData :=
  let enriched := normalizeDataForSEOData <$> rows in
  let enrichedKeywords : gset string :=
    list_to_set ((fun k => toLowerCase (keyword k)) <$> enriched) in
  let missing := filter (fun k => toLowerCase k ∉ enrichedKeywords) keywords in
  enriched ++ (unavailableRecord <$> missing).

(** The Ahrefs branch and the final mock fallback. *)
Definition bulkFallback (kp : KeywordProvider) (rand : nat -> Q) (keywords : list string)
    (options : BulkOptions) : list UnifiedKeywordData :=
  let mocked := mockKeywords rand 0 keywords in
  match ahrefsClient kp with
  | Some client =>
      match getKeywordMetricsCall client keywords (orDefault (location options) "US") with
      | Resolved true (Some rows) => map normalizeAhrefsData rows
      | _ => mocked
      end
  | None => mocked
  end.

(** [getBulkKeywordMetrics(keywords, options)] *)
Definition getBulkKeywordMetrics (kp : KeywordProvider) (rand : nat -> Q)
    (keywords : list string) (options : BulkOptions) : list UnifiedKeywordData :=
  if mockMode kp || (length keywords =? 0)%nat then mockKeywords rand 0 keywords
  else
    match dataForSEOClient kp with
    | Some client =>
        match getKeywordData client keywords
                (getLocationCode (orDefault (location options) "US"))
                (orDefault (language options) "en") with
        | Resolved true (Some rows) => fillMissing keywords rows
        | _ => bulkFallback kp rand keywords options
        end
    | None => bulkFallback kp rand keywords options
    end.

(** The Ahrefs branch and the final mock fallback of [getKeywordMetrics]. *)
Definition singleFallback (kp : KeywordProvider) (rand : nat -> Q) (k : string)
    (options : BulkOptions) : UnifiedKeywordData :=
  match ahrefsClient kp with
  | Some client =>
      match getKeywordOverview client k (orDefault (location options) "US") with
      | Resolved true (Some row) => normalizeAhrefsData row
      | _ => getMockKeywordData rand 0 k
      end
  | None => getMockKeywordData rand 0 k
  end.

(** [getKeywordMetrics(keyword, options)] *)
Definition getKeywordMetrics (kp : KeywordProvider) (rand : nat -> Q) (k : string)
    (options : BulkOptions) : UnifiedKeywordData :=
  if mockMode kp then getMockKeywordData rand 0 k
  else
    match dataForSEOClient kp with
    | Some client =>
        match getKeywordData client [k]
                (getLocationCode (orDefault (location options) "US"))
                (orDefault (language options) "en") with
        | Resolved true (Some (row :: _)) => normalizeDataForSEOData row
        | _ => singleFallback kp rand k options
        end
    | None => singleFallback kp rand k options
    end.

(** The invariant of the unified record. *)
Definition recordInvariant (r : UnifiedKeywordData) : Prop :=
  (source r = unavailable ->
     volume r = None /\ difficulty r = None /\ cpc r = None /\
     competition r = None /\ trend r = None /\ (confidence r == 0)%Q)
  /\ (0 <= confidence r)%Q /\ (confidence r <= 1)%Q.

(** ** [DataForSEOClient.getKeywordData] over its transport

    [makeRequest] belongs to [BaseApiClient], which is not among the
    sources; a call of it is given by how it ends. *)

(** An item of [response.data?.[0]?.result]. *)
Record LabsItem := mkLabsItem {
  item_keyword : option string;
  item_search_volume : option Q
}.

(** The row pushed for an item whose keyword is truthy. *)
Definition labsRow (k : string) (item : LabsItem) : DataForSEORow :=
  mkDfsRow (Some k)
    (Some (mkInfo (Some (match item_search_volume item with Some v => v | None => 0%Q end))
                  (Some 0%Q) (Some 0%Q) (Some [])))
    (mkInfo None None None None)
    None.

(** The rows one batch contributes: none when the request fails, since the
    loop catches the error and goes on. *)
Definition dataForSEOBatchRows (outcome : ClientOutcome (list LabsItem)) : list DataForSEORow :=
  match outcome with
  | Rejected _ => []
  | Resolved _ payload =>
      let items := match payload with Some items => items | None => [] end in
      omap (fun item =>
              match item_keyword item with
              | Some (String c k) => Some (labsRow (String c k) item)
              | _ => None
              end) items
  end.

(** [DataForSEOClient.getKeywordData(keywords, options)]; [transport] is how
    [makeRequest] ends for a batch. *)
Definition dataForSEOGetKeywordData (transport : list string -> ClientOutcome (list LabsItem))
    (keywords : list string) : ClientOutcome (list DataForSEORow) :=
  if (length keywords =? 0)%nat
  then Rejected "At least one keyword is required"
  else Resolved true
         (Some (concat (map (fun batch => dataForSEOBatchRows (transport batch))
                            (chunkArray keywords 1000)))).

(** ** [AhrefsClient.getKeywordMetrics] over its transport

    [makeRequest] belongs to [BaseApiClient], which is not among the
    sources; a call of it is given by how it ends. *)

(** One row of [getMockKeywordMetrics(keywords)]: seven draws, of which the
    normaliser reads [search_volume], [keyword_difficulty], [cpc] and
    [traffic_potential]. *)
Definition mockAhrefsRow (rand : nat -> Q) (i : nat) (k : string) : AhrefsRow :=
  mkAhrefsRow (Some k) None
    (Some (mathFloor (rand i * 10000)%Q + 100)%Q)
    None
    (Some (mathFloor (rand (i + 1)%nat * 100)%Q))
    (Some (mathRound ((rand (i + 2)%nat * 5 + (1 # 2)) * 100) / 100)%Q)
    (Some (mathFloor (rand (i + 5)%nat * 10000)%Q))
    None.

Fixpoint getMockKeywordMetrics (rand : nat -> Q) (i : nat) (keywords : list string)
    : list AhrefsRow :=
  match keywords with
  | [] => []
  | k :: ks => mockAhrefsRow rand i k :: getMockKeywordMetrics rand (i + 7)%nat ks
  end.

(** [checkKeywordsExplorerAvailability()]: [known] is the field
    [keywordsExplorerAvailable]; [probe] is how the probing request ends,
    [None] for success and [Some message] for an error.  The result comes
    with the new value of the field. *)
Definition checkKeywordsExplorerAvailability (known : option bool) (probe : option string)
    : bool * option bool :=
  match known with
  | Some available => (available, known)
  | None =>
      match probe with
      | None => (true, Some true)
      | Some msg =>
          if includes "Insufficient plan" msg || includes "403" msg
          then (false, Some false)
          else (true, None)
      end
  end.

(** ** Complete and truncated objects

    What the specification calls a syntactically complete object, written
    as a grammar of its own so that the salvage scan can be compared with
    it: text between braces in which braces nest and quoted strings, with
    their escapes, are opaque. *)

Definition isPlain (c : ascii) : bool :=
  negb (Ascii.eqb c QUOTE || Ascii.eqb c BACKSLASH
        || Ascii.eqb c "{"%char || Ascii.eqb c "}"%char).

Fixpoint allPlain (s : string) : bool :=
  match s with
  | EmptyString => true
  | String c s' => isPlain c && allPlain s'
  end.

Definition isBracket (c : ascii) : bool :=
  Ascii.eqb c "["%char || Ascii.eqb c "]"%char.

Fixpoint bracketFree (s : string) : bool :=
  match s with
  | EmptyString => true
  | String c s' => negb (isBracket c) && bracketFree s'
  end.

(** The inside of a quoted string, between its quotes. *)
Inductive quoted_body : string -> Prop :=
| qb_nil : quoted_body EmptyString
| qb_char c s :
    Ascii.eqb c QUOTE = false -> Ascii.eqb c BACKSLASH = false ->
    quoted_body s -> quoted_body (String c s)
| qb_escape c s : quoted_body s -> quoted_body (String BACKSLASH (String c s)).

(** Text in which every brace and every quote is closed. *)
Inductive balanced : string -> Prop :=
| bal_nil : balanced EmptyString
| bal_plain c s : isPlain c = true -> balanced s -> balanced (String c s)
| bal_quoted q s :
    quoted_body q -> balanced s -> balanced (String QUOTE (q ++ String QUOTE s))
| bal_nested b s :
    balanced b -> balanced s -> balanced (String "{"%char (b ++ String "}"%char s)).

Definition complete_object (o : string) : Prop :=
  exists b, balanced b /\ o = String "{"%char (b ++ "}").

(** A quoted string cut before its closing quote, possibly right after a
    backslash. *)
Inductive quoted_prefix : string -> Prop :=
| qp_body q : quoted_body q -> quoted_prefix q
| qp_backslash q : quoted_body q -> quoted_prefix (q ++ str1 BACKSLASH).

(** The inside of an object cut anywhere before its closing brace. *)
Inductive open_body : string -> Prop :=
| open_here b : balanced b -> open_body b
| open_quoted b q : balanced b -> quoted_prefix q -> open_body (b ++ String QUOTE q)
| open_nested b p : balanced b -> open_body p -> open_body (b ++ String "{"%char p).

Definition truncated_object (t : string) : Prop :=
  exists p, open_body p /\ t = String "{"%char p.

(** The text of an array whose objects are followed by their separators. *)
Fixpoint joinItems (items : list (string * string)) : string :=
  match items with
  | [] => EmptyString
  | (o, sep) :: rest => o ++ sep ++ joinItems rest
  end.

(** The nesting depth the bracket scan has reached after a prefix. *)
Fixpoint bracketDepth (startChar endChar : ascii) (depth : Z) (s : string) : Z :=
  match s with
  | EmptyString => depth
  | String c s' => bracketDepth startChar endChar (bracketDepthStep startChar endChar depth c) s'
  end.

(** Whether a prefix ends inside a quoted string. *)
Definition endsInString (s : string) : bool :=
  inString (salvageRun salvageInit s).

(** The text of scenario C. *)
Definition scenarioC : string :=
  "```json" ++ str1 NEWLINE
  ++ js "[{'keyword':'a','intent':'commercial','relevance_score':0.8}]"
  ++ str1 NEWLINE ++ "``` thanks!".

(** The same text with the two line breaks written as a backslash and an
    [n], as the scenario is printed. *)
Definition scenarioCPrinted : string :=
  "```json" ++ str1 BACKSLASH ++ "n"
  ++ js "[{'keyword':'a','intent':'commercial','relevance_score':0.8}]"
  ++ str1 BACKSLASH ++ "n``` thanks!".

(** The lower-cased keyword of a DataForSEO row, as the partial-batch branch
    compares it. *)
Definition rowKey (row : DataForSEORow) : string := toLowerCase (orEmpty (dfs_keyword row)).

(** ** The keyword clients inside the provider *)

(** The DataForSEO client of the repository over a transport: what
    [KeywordProvider] holds after [DataForSEOClient.getInstance]. *)
Definition dataForSEOOver (transport : list string -> ClientOutcome (list LabsItem))
    : DataForSEOClient :=
  mkDfsClient (fun keywords _ _ => dataForSEOGetKeywordData transport keywords).

(** ** [GeminiClient.generateTitles] *)

Record AnthropicTitleGeneration := mkTitleGeneration {
  tg_keyword : string;
  tg_intent : string;
  tg_content_type : string;
  tg_tone : string;
  tg_max_length : option Z;
  tg_include_keyword : option bool
}.

(** [GeminiClient.generateTitles]: [cacheKey] *)
Definition titlesCacheKey (request : AnthropicTitleGeneration) : string :=
  "titles:" ++ tg_keyword request ++ ":" ++ tg_intent request ++ ":"
  ++ tg_content_type request ++ ":" ++ tg_tone request.

Section GeminiTitles.
Context {L : Type} (limiter : RateLimiterOps L).
Variable upstream : nat -> UpstreamReply.
(** The prompt built from [ANTHROPIC_PROMPTS.TITLE_GENERATION] out of the
    keyword, the intent, the content type, the tone and the maximal
    length. *)
Variable titlePrompt : string -> string -> string -> string -> Z -> string.

(** [generateTitles(request)] *)
Definition generateTitles (request : AnthropicTitleGeneration) (now : Z)
    (st : GeminiClient L) : (AnthropicResponse + LLMError) * GeminiClient L :=
  let max_length := match tg_max_length request with Some n => n | None => 60 end in
  let fullPrompt := titlePrompt (tg_keyword request) (tg_intent request)
                      (tg_content_type request) (tg_tone request) max_length in
  makeLLMRequest limiter upstream fullPrompt
    (mkOptions (Some (titlesCacheKey request)) "title_generation") now st.
End GeminiTitles.

(** ** Generated data and the Ahrefs client over its transport *)

(** [Math.random()] returns a number from 0 up to, not including, 1. *)
Definition fairRandom (rand : nat -> Q) : Prop :=
  forall i, (0 <= rand i)%Q /\ (rand i < 1)%Q.

(** [AhrefsClient.getKeywordOverview(keyword, country)]; the generated
    overview has the fields of a generated metrics row, drawn in the same
    order. *)
Definition ahrefsGetKeywordOverview (known : option bool) (probe : option string)
    (response : ClientOutcome AhrefsRow) (rand : nat -> Q) (k : string)
    : ClientOutcome AhrefsRow * option bool :=
  let '(available, known') := checkKeywordsExplorerAvailability known probe in
  if available then
    match response with
    | Rejected _ => (Resolved true (Some (mockAhrefsRow rand 0 k)), known')
    | Resolved success payload => (Resolved success payload, known')
    end
  else (Resolved true (Some (mockAhrefsRow rand 0 k)), known').

(** [AhrefsClient.getKeywordMetrics(request)] with the order of the rows it
    generates.  The cache key is built with [keywords.sort()], which sorts
    the array of the request in place before the request is sent; when the
    request then fails, the catch block generates its rows for the sorted
    array.  When Keywords Explorer is known to be unavailable the array is
    never sorted. *)
Definition ahrefsGetKeywordMetricsInPlace (known : option bool) (probe : option string)
    (response : ClientOutcome (list AhrefsRow)) (rand : nat -> Q)
    (keywords : list string) : ClientOutcome (list AhrefsRow) * option bool :=
  if (length keywords =? 0)%nat
  then (Rejected "At least one keyword is required", known)
  else
    let '(available, known') := checkKeywordsExplorerAvailability known probe in
    if available then
      match response with
      | Rejected _ =>
          (Resolved true (Some (getMockKeywordMetrics rand 0 (arraySort keywords))), known')
      | Resolved success payload => (Resolved success payload, known')
      end
    else (Resolved true (Some (getMockKeywordMetrics rand 0 keywords)), known').

(** The Ahrefs client of the repository over its transport: [known] is what
    the client knows about Keywords Explorer, [probe] how the probing
    request ends, [metrics] and [overview] how the requests themselves
    end. *)
Definition ahrefsOver (known : option bool) (probe : option string)
    (metrics : list string -> ClientOutcome (list AhrefsRow))
    (overview : string -> ClientOutcome AhrefsRow) (rand : nat -> Q) : AhrefsClient :=
  mkAhrefsClient
    (fun keywords _ =>
       fst (ahrefsGetKeywordMetricsInPlace known probe (metrics keywords) rand keywords))
    (fun k _ => fst (ahrefsGetKeywordOverview known probe (overview k) rand k)).

(** ** [KeywordProvider.initializeProviders] *)

(** The environment variables the providers read. *)
Record ProviderEnv := mkEnv {
  DATAFORSEO_LOGIN : option string;
  DATAFORSEO_PASSWORD : option string;
  ENABLE_DATAFORSEO : option string;
  AHREFS_API_KEY : option string;
  ENABLE_AHREFS : option string
}.

(** [variable === value] *)
Definition envIs (variable : option string) (value : string) : bool :=
  match variable with
  | Some v => String.eqb v value
  | None => false
  end.

(** [isDataForSEOConfigured()] *)
Definition isDataForSEOConfigured (env : ProviderEnv) : bool :=
  nonEmpty (DATAFORSEO_LOGIN env) && nonEmpty (DATAFORSEO_PASSWORD env)
  && negb (envIs (DATAFORSEO_LOGIN env) "your-login")
  && negb (envIs (ENABLE_DATAFORSEO env) "false").

(** [isAhrefsConfigured()] *)
Definition isAhrefsConfigured (env : ProviderEnv) : bool :=
  nonEmpty (AHREFS_API_KEY env)
  && negb (envIs (AHREFS_API_KEY env) "your-ahrefs-api-key")
  && negb (envIs (ENABLE_AHREFS env) "false").

(** [getAvailableProviders()] *)
Definition getAvailableProviders (env : ProviderEnv) : list Source :=
  (if isDataForSEOConfigured env then [dataforseo] else [])
  ++ (if isAhrefsConfigured env then [ahrefs] else []).

(** [config.preferredProvider] *)
Inductive PreferredProvider := preferAuto | preferDataForSEO | preferAhrefs.

(** The fields [initializeProviders] assigns. *)
Record ProviderState := mkProviderState {
  ps_dataForSEOClient : option DataForSEOClient;
  ps_ahrefsClient : option AhrefsClient;
  activeProvider : Source
}.

(** [initializeProviders()], on a provider whose fields still hold their
    initial values; [dfsInstance] and [ahrefsInstance] are what the two
    [getInstance] calls return, [None] when the call throws. *)
Definition initializeProviders (preferred : PreferredProvider) (env : ProviderEnv)
    (dfsInstance : option DataForSEOClient) (ahrefsInstance : option AhrefsClient)
    : ProviderState :=
  let viaAhrefs :=
    match preferred, isAhrefsConfigured env, ahrefsInstance with
    | (preferAuto | preferAhrefs), true, Some client =>
        mkProviderState None (Some client) ahrefs
    | _, _, _ => mkProviderState None None mock
    end in
  match preferred, isDataForSEOConfigured env, dfsInstance with
  | (preferAuto | preferDataForSEO), true, Some client =>
      mkProviderState (Some client) None dataforseo
  | _, _, _ => viaAhrefs
  end.

(** ** Shapes of scanned text *)

(** The bracket scan never sees the depth return to zero strictly inside
    [s]: after every non-empty proper prefix the depth is at least one. *)
Definition openInside (startChar endChar : ascii) (s : string) : Prop :=
  forall p q, s = p ++ q -> p <> EmptyString -> q <> EmptyString ->
              1 <= bracketDepth startChar endChar 0 p.

(** The state of the loop once a start has been recorded: the text read
    since then begins with the opening bracket, and the depth, which is
    that of this text, has stayed positive. *)
Definition scanStarted (sc ec : ascii) (done : string) (d : Z) (s0 : nat) : Prop :=
  exists pre mid',
    done = pre ++ String sc mid'
    /\ String.length pre = s0
    /\ d = bracketDepth sc ec 0 (String sc mid')
    /\ forall p q, String sc mid' = p ++ q -> p <> EmptyString ->
                   1 <= bracketDepth sc ec 0 p.

(** No backtick occurs in [s]. *)
Fixpoint noBacktick (s : string) : bool :=
  match s with
  | EmptyString => true
  | String c s' => negb (Ascii.eqb c "`"%char) && noBacktick s'
  end.

(** ** [GeminiLLMProviderAdapter.expandKeywords]: from parsed data to keywords *)

(** [value || fallback] for a property that may be absent *)
Definition orElse (value : option json) (fallback : json) : json :=
  match value with
  | Some v => if truthy value then v else fallback
  | None => fallback
  end.

(** A decoded string as a string of this development: possible when each
    of its code units is below 256. *)
Fixpoint unitsString (units : list N) : option string :=
  match units with
  | [] => Some EmptyString
  | u :: rest =>
      if (u <? 256)%N then String (ascii_of_N u) <$> unitsString rest else None
  end.

(** [keywords], as the adapter takes it from [response.data]: the array
    itself, the truthy [keywords] property of an object, what the adapter
    extracts from a string (the raw text that was handed on, or a string
    that [JSON.parse] decoded), and the empty array otherwise.  [None]
    stands for a decoded string with a code unit above 255, which has no
    counterpart among the strings of this development. *)
Definition adapterKeywords (data : ParsedData) : option json :=
  match data with
  | DataJSON (JArray items) => Some (JArray items)
  | DataJSON (JObject members) =>
      Some (orElse (getProperty (JObject members) "keywords") (JArray []))
  | DataJSON (JString units) => adapterKeywordsOfString <$> unitsString units
  | DataJSON _ => Some (JArray [])
  | DataText text => Some (adapterKeywordsOfString text)
  end.

Record LLMKeyword := mkLLMKeyword {
  lk_keyword : json;
  lk_intent : json;
  lk_relevance_score : json;
  lk_reasoning : option json
}.

(** The function mapped over [keywords]; reading a property of [null]
    throws a [TypeError], which is [None]. *)
Definition mapKeyword (k : json) : option LLMKeyword :=
  match k with
  | JNull => None
  | _ =>
      Some (mkLLMKeyword
              (orElse (getProperty k "keyword")
                      (orElse (getProperty k "keyword_name") (JString [])))
              (orElse (getProperty k "intent") (JString (ustr "informational")))
              (orElse (getProperty k "relevance_score")
                      (orElse (getProperty k "relevanceScore") (JNumber "0.5")))
              (if truthy (getProperty k "reasoning") then getProperty k "reasoning"
               else None))
  end.

(** What [keywords.map] comes to: [mappedKeywords] with [total_generated],
    or a [TypeError], when [keywords] is no array or one of its items is
    [null]. *)
Inductive Mapping :=
| mappedKeywords (mapped : list LLMKeyword) (total_generated : nat)
| mappingThrows.

Definition mapKeywords (keywords : json) : Mapping :=
  match keywords with
  | JArray items =>
      match mapM mapKeyword items with
      | Some mapped => mappedKeywords mapped (length items)
      | None => mappingThrows
      end
  | _ => mappingThrows
  end.

(** The mapping of [expandKeywords] from the parsed data on. *)
Definition expandKeywordsMapped (data : ParsedData) : option Mapping :=
  mapKeywords <$> adapterKeywords data.

(** ** [KeywordProvider.getMockKeywordSuggestions] *)

(** [array.slice(0, end)] for an integer [end]: a negative [end] counts
    from the end of the array. *)
Definition sliceTo {A} (array : list A) (limit : Z) : list A :=
  if limit <? 0 then take (Z.to_nat (Z.of_nat (length array) + limit)) array
  else take (Z.to_nat limit) array.

Definition mockSuggestions (seedKeyword : string) : list string :=
  [seedKeyword ++ " guide"; seedKeyword ++ " tips"; seedKeyword ++ " tools";
   seedKeyword ++ " strategy"; seedKeyword ++ " examples";
   seedKeyword ++ " best practices"; seedKeyword ++ " software";
   seedKeyword ++ " solutions"; seedKeyword ++ " services";
   seedKeyword ++ " platform"; "how to " ++ seedKeyword; "what is " ++ seedKeyword;
   seedKeyword ++ " for beginners"; seedKeyword ++ " vs";
   seedKeyword ++ " alternatives"].

(** [getMockKeywordSuggestions(seedKeyword, limit)] *)
Definition getMockKeywordSuggestions (seedKeyword : string) (limit : Z) : list string :=
  sliceTo (mockSuggestions seedKeyword) limit.

(** What tells two mock suggestions for [seedKeyword] apart: the part after
    the seed, or a mark for the two suggestions that end in the seed. *)
Definition suggestionMark (seedKeyword s : string) : string :=
  if (String.length s =? String.length seedKeyword + 7)%nat then "how to"
  else if (String.length s =? String.length seedKeyword + 8)%nat then "what is"
  else string_drop (String.length seedKeyword) s.

(** ** [EnhancedWebScraper]: content gaps and word counts *)

Definition commonTopics : list string :=
  ["pricing"; "features"; "benefits"; "comparison"; "reviews"; "tutorial";
   "getting started"; "best practices"; "case study"; "integration";
   "api"; "documentation"; "support"; "faq"; "about"; "contact"].

(** The fields of [ScrapedContent] that [identifyContentGaps] reads. *)
Record ScrapedContent := mkScraped {
  sc_title : string;
  sc_content : option string
}.

(** The lower-cased title and content of a page, a space in between. *)
Definition pageText (page : ScrapedContent) : string :=
  toLowerCase (sc_title page ++ " " ++ orEmpty (sc_content page)).

(** The inner [forEach]: the topics the text of [page] includes join
    [coveredTopics]. *)
Definition coverTopics (coveredTopics : gset string) (page : ScrapedContent) : gset string :=
  foldl (fun covered topic =>
           if includes topic (pageText page) then {[topic]} ∪ covered else covered)
        coveredTopics commonTopics.

(** [identifyContentGaps(pages)] *)
Definition identifyContentGaps (pages : list ScrapedContent) : list string :=
  let coveredTopics := foldl coverTopics ∅ pages in
  filter (fun topic => topic ∉ coveredTopics) commonTopics.

(** [text.split] at every run of white space: [cur] is the piece being
    read, [skipping] tells that the last character belonged to a run. *)
Fixpoint splitWhitespace (cur : string) (skipping : bool) (s : string) : list string :=
  match s with
  | EmptyString => [cur]
  | String c s' =>
      if isJSWhitespace c then
        if skipping then splitWhitespace cur true s'
        else cur :: splitWhitespace EmptyString true s'
      else splitWhitespace (push cur c) false s'
  end.

(** [countWords(text)] *)
Definition countWords (text : string) : nat :=
  length (List.filter (fun word => (0 <? String.length word)%nat)
            (splitWhitespace EmptyString false (trim text))).

(** No white space occurs in [s]. *)
Fixpoint noWhitespace (s : string) : bool :=
  match s with
  | EmptyString => true
  | String c s' => negb (isJSWhitespace c) && noWhitespace s'
  end.

(** [s] is empty or begins with white space. *)
Definition startsWithGap (s : string) : bool :=
  match s with
  | EmptyString => true
  | String c _ => isJSWhitespace c
  end.

(** ** [getBulkKeywordMetrics] over the repository's clients

    The provider only ever holds the clients of the repository, and what
    their upstreams answer is untyped ([makeRequest<any>],
    [response.json()]): a value need not have the type the interfaces
    declare for it.  This part follows the bulk operation down to the two
    transports and keeps the cases in which a value of another kind makes
    the code throw. *)

(** The [keyword] of an item as it arrives: a string, or a value of any
    other kind ([undefined], [null], a boolean, a number, an array, an
    object), of which the code sees the truthiness before it uses the
    value as a string. *)
Inductive RawKeyword :=
| rawString (s : string)
| rawOther (isTruthy : bool).

Definition rawTruthy (kw : RawKeyword) : bool :=
  match kw with
  | rawString EmptyString => false
  | rawString (String _ _) => true
  | rawOther isTruthy => isTruthy
  end.

Definition isRawString (kw : RawKeyword) : bool :=
  match kw with
  | rawString _ => true
  | rawOther _ => false
  end.

(** An entry of [response.data?.[0]?.result]: [null], or a value with its
    [keyword] and its [search_volume] ([None] when absent or [null]). *)
Inductive RawLabsItem :=
| labsNull
| labsItem (kw : RawKeyword) (volume : option Q).

(** A row [getKeywordData] pushes: the keyword of the item and the
    [keyword_info] built for it. *)
Record RawLabsRow := mkRawRow {
  raw_keyword : RawKeyword;
  raw_info : KeywordInfo
}.

(** [keyword_info] of a pushed row: [item.search_volume ?? 0], and zero
    for what the Labs endpoint does not return. *)
Definition labsInfo (volume : option Q) : KeywordInfo :=
  mkInfo (Some (match volume with Some v => v | None => 0%Q end))
         (Some 0%Q) (Some 0%Q) (Some []).

(** The loop over the items of one answer: an item with a truthy keyword
    is pushed.  Reading the keyword of [null] throws; the catch block of
    the batch takes over, and the rows pushed before stay in [results]. *)
Fixpoint rawItemRows (items : list RawLabsItem) : list RawLabsRow :=
  match items with
  | [] => []
  | labsNull :: _ => []
  | labsItem kw volume :: rest =>
      if rawTruthy kw then mkRawRow kw (labsInfo volume) :: rawItemRows rest
      else rawItemRows rest
  end.

(** The rows one batch contributes.  The payload is [None] when
    [response.data?.[0]?.result] is no array: it is falsy and the loop
    runs over the empty array, or the loop throws, or it runs over the
    characters of a string, which have no keyword. *)
Definition rawBatchRows (outcome : ClientOutcome (list RawLabsItem)) : list RawLabsRow :=
  match outcome with
  | Rejected _ => []
  | Resolved _ payload =>
      rawItemRows (match payload with Some items => items | None => [] end)
  end.

(** [results] after the loop over the batches. *)
Definition rawRows (transport : list string -> ClientOutcome (list RawLabsItem))
    (keywords : list string) : list RawLabsRow :=
  concat (map (fun batch => rawBatchRows (transport batch)) (chunkArray keywords 1000)).

(** [DataForSEOClient.getKeywordData(keywords, options)] over its
    transport. *)
Definition rawGetKeywordData (transport : list string -> ClientOutcome (list RawLabsItem))
    (keywords : list string) : ClientOutcome (list RawLabsRow) :=
  if (length keywords =? 0)%nat
  then Rejected "At least one keyword is required"
  else Resolved true (Some (rawRows transport keywords)).

(** A pushed row whose keyword is a string, as the provider normalises it;
    [None] when the keyword is no string, so that
    [k.keyword.toLowerCase()] throws a [TypeError]. *)
Definition typedRow (row : RawLabsRow) : option DataForSEORow :=
  match raw_keyword row with
  | rawString k => Some (mkDfsRow (Some k) (Some (raw_info row)) (mkInfo None None None None) None)
  | rawOther _ => None
  end.

(** [result.data] of an answer of the Ahrefs client as it arrives: a falsy
    value, a truthy value that is no array (it has no [map]), or an array,
    in which [None] is a [null] entry. *)
Inductive RawAhrefsData :=
| ahrefsNoData
| ahrefsNoArray
| ahrefsArray (rows : list (option AhrefsRow)).

Inductive RawAhrefsOutcome :=
| ahrefsRejected (msg : string)
| ahrefsResolved (success : bool) (data : RawAhrefsData).

(** The Ahrefs client of the repository: what it knows about Keywords
    Explorer ([keywordsExplorerAvailable]), how the probing request ends
    and how [makeRequest] ends for the metrics of a list of keywords. *)
Record RawAhrefs := mkRawAhrefs {
  ra_known : option bool;
  ra_probe : option string;
  ra_metrics : list string -> RawAhrefsOutcome
}.

(** [AhrefsClient.getKeywordMetrics(request)] over its transport, together
    with the array of the request as the call leaves it: building the
    cache key sorts that array in place, before the request is sent. *)
Definition rawAhrefsGetKeywordMetrics (client : RawAhrefs) (rand : nat -> Q)
    (keywords : list string) : RawAhrefsOutcome * list string :=
  if (length keywords =? 0)%nat
  then (ahrefsRejected "At least one keyword is required", keywords)
  else if fst (checkKeywordsExplorerAvailability (ra_known client) (ra_probe client)) then
    (match ra_metrics client keywords with
     | ahrefsRejected _ =>
         ahrefsResolved true
           (ahrefsArray (Some <$> getMockKeywordMetrics rand 0 (arraySort keywords)))
     | ahrefsResolved success data => ahrefsResolved success data
     end,
     arraySort keywords)
  else (ahrefsResolved true (ahrefsArray (Some <$> getMockKeywordMetrics rand 0 keywords)),
        keywords).

(** The rows [result.data.map(normalizeAhrefsData)] runs over: [None] when
    the data are falsy, and also when they are no array or hold a [null]
    entry, in which case the [TypeError] is caught and the branch is left
    in the same way. *)
Definition ahrefsUsableRows (data : RawAhrefsData) : option (list AhrefsRow) :=
  match data with
  | ahrefsArray rows => mapM id rows
  | ahrefsNoData | ahrefsNoArray => None
  end.

(** A provider by what it holds: mock mode, and for each client the
    transport underneath, [None] when the client was not set up. *)
Record ProviderOver := mkProviderOver {
  over_mockMode : bool;
  over_dataForSEO : option (list string -> ClientOutcome (list RawLabsItem));
  over_ahrefs : option RawAhrefs
}.

(** The Ahrefs branch of [getBulkKeywordMetrics] and the mock fallback
    after it, which runs over the array as the Ahrefs call left it. *)
Definition viaAhrefs (ah : option RawAhrefs) (rand : nat -> Q) (keywords : list string)
    : list UnifiedKeywordData :=
  match ah with
  | Some client =>
      let '(answer, after) := rawAhrefsGetKeywordMetrics client rand keywords in
      match answer with
      | ahrefsResolved true data =>
          match ahrefsUsableRows data with
          | Some rows => normalizeAhrefsData <$> rows
          | None => mockKeywords rand 0 after
          end
      | _ => mockKeywords rand 0 after
      end
  | None => mockKeywords rand 0 keywords
  end.

(** [getBulkKeywordMetrics(keywords, options)] *)
Definition getBulkKeywordMetricsOver (kp : ProviderOver) (rand : nat -> Q)
    (keywords : list string) : list UnifiedKeywordData :=
  if over_mockMode kp || (length keywords =? 0)%nat then mockKeywords rand 0 keywords
  else
    match over_dataForSEO kp with
    | Some transport =>
        match rawGetKeywordData transport keywords with
        | Resolved true (Some rows) =>
            match mapM typedRow rows with
            | Some typed => fillMissing keywords typed
            | None => viaAhrefs (over_ahrefs kp) rand keywords
            end
        | _ => viaAhrefs (over_ahrefs kp) rand keywords
        end
    | None => viaAhrefs (over_ahrefs kp) rand keywords
    end.

(** The provider after its constructor has run with both [getInstance]
    calls succeeding: [initializeProviders] sets up the DataForSEO client
    when it is preferred or the choice is automatic and its credentials are
    configured, and the Ahrefs client only if it did not. *)
Definition constructedOver (mock : bool) (preferred : PreferredProvider) (env : ProviderEnv)
    (transport : list string -> ClientOutcome (list RawLabsItem)) (ahrefsInstance : RawAhrefs)
    : ProviderOver :=
  match preferred, isDataForSEOConfigured env with
  | (preferAuto | preferDataForSEO), true => mkProviderOver mock (Some transport) None
  | _, _ =>
      match preferred, isAhrefsConfigured env with
      | (preferAuto | preferAhrefs), true => mkProviderOver mock None (Some ahrefsInstance)
      | _, _ => mkProviderOver mock None None
      end
  end.

(** A typed item and a typed transport among the untyped ones. *)
Definition rawOfItem (item : LabsItem) : RawLabsItem :=
  labsItem (match item_keyword item with Some k => rawString k | None => rawOther false end)
           (item_search_volume item).

Definition rawOfTransport (transport : list string -> ClientOutcome (list LabsItem))
    : list string -> ClientOutcome (list RawLabsItem) :=
  fun batch =>
    match transport batch with
    | Rejected msg => Rejected msg
    | Resolved success payload => Resolved success (map rawOfItem <$> payload)
    end.

(** ** The field [keywordsExplorerAvailable] and its two writers *)


(** [checkKeywordsExplorerAvailability()] together with what its probing
    request does to the field on the way: [probe] is how the request ends,
    and [noted] tells whether [executeRequest] recorded an insufficient
    plan while it ran. *)
Definition checkKeywordsExplorerAvailabilityNoting (known : option bool)
    (probe : option string) (noted : bool) : bool * option bool :=
  match known with
  | Some available => (available, known)
  | None =>
      match probe with
      | None => (true, Some true)
      | Some msg =>
          if includes "Insufficient plan" msg || includes "403" msg
          then (false, Some false)
          else (true, if noted then Some false else None)
      end
  end.




(** ** Sample inputs *)

(** A truncated response: three complete objects, one of them without a
    keyword, then an object cut inside a key. *)
Definition truncatedSample : string :=
  js "[{'keyword':'a'},{'k':{}},{'keyword':'b','t':[1]},{'keyw".

(** A response with prose around a well-formed array whose keyword holds a
    closing bracket. *)
Definition quotedBracketSample : string :=
  "Here: " ++ js "[{'keyword':'a]b'}]" ++ " thanks".

Definition sampleResponse : AnthropicResponse :=
  mkResponse (DataText "x") (mkUsage 1 1 DEFAULT_GEMINI_MODEL 0 "r")
             DEFAULT_GEMINI_MODEL "stop" "r" 7.

Definition noMetrics : UsageMetrics := mkMetrics 0 0 0 0 0 0 0 0.

(** An empty bucket, last refilled at time 1000. *)
Definition emptyBucket : TokenBucket := mkBucket 50 0 10 60000 1000.

(** A client whose cache holds one entry, written at time 1000 and valid
    for 500 milliseconds. *)
Definition sampleClient : GeminiClient TokenBucket :=
  mkClient (<["k" := mkEntry sampleResponse 1000 500]> ∅) emptyBucket noMetrics [].

Definition silentUpstream : nat -> UpstreamReply := fun _ => Failed "unreachable" 0.

(** A client that has not been used yet, behind an empty bucket that was
    last refilled at time 1000 and refills every 1200 milliseconds. *)
Definition throttledClient : GeminiClient TokenBucket :=
  mkClient ∅ (mkBucket 50 0 10 1200 1000) noMetrics [].

Definition sampleKeyOptions : LLMOptions := mkOptions (Some "k") "keyword_expansion".

Definition sampleRow (k : string) : DataForSEORow :=
  mkDfsRow (Some k) (Some (mkInfo (Some 100%Q) (Some 0%Q) (Some 0%Q) (Some [])))
           (mkInfo None None None None) None.

Definition sampleAhrefsRow (k : string) : AhrefsRow :=
  mkAhrefsRow (Some k) (Some 100%Q) None (Some 10%Q) None None None None.

(** A DataForSEO client whose call rejects, one that answers with the row
    of "seo" only, and an Ahrefs client that answers with the row of "seo"
    only. *)
Definition rejectingDataForSEO : DataForSEOClient :=
  mkDfsClient (fun _ _ _ => Rejected "timeout").

Definition partialDataForSEO : DataForSEOClient :=
  mkDfsClient (fun _ _ _ => Resolved true (Some [sampleRow "seo"])).

Definition partialAhrefs : AhrefsClient :=
  mkAhrefsClient (fun _ _ => Resolved true (Some [sampleAhrefsRow "seo"]))
                 (fun _ _ => Rejected "unused").

(** A DataForSEO client that answers with the row of "seo" twice. *)
Definition repeatingDataForSEO : DataForSEOClient :=
  mkDfsClient (fun _ _ _ => Resolved true (Some [sampleRow "seo"; sampleRow "seo"])).

(** The DataForSEO client over a transport on which every request fails. *)
Definition dataForSEOOffline : DataForSEOClient :=
  mkDfsClient (fun keywords _ _ =>
                 dataForSEOGetKeywordData (fun _ => Rejected "fetch failed") keywords).

Definition defaultOptions : BulkOptions := mkBulkOptions None None.

Definition zeroRandom : nat -> Q := fun _ => 0%Q.

Definition halfRandom : nat -> Q := fun _ => (1 # 2)%Q.

(** A full bucket, an upstream that answers every call with an empty array
    after five milliseconds, and a client that has not been used yet. *)
Definition fullBucket : TokenBucket := mkBucket 50 50 10 60000 1000.

Definition answeringUpstream : nat -> UpstreamReply :=
  fun _ => Replied "[]" None None 5 "n".

Definition freshClient : GeminiClient TokenBucket := mkClient ∅ fullBucket noMetrics [].

Definition samplePrompt : list string -> string -> string :=
  fun keywords context => join ", " keywords ++ context.

Definition sampleTitlePrompt : string -> string -> string -> string -> Z -> string :=
  fun keyword intent content_type tone max_length => keyword ++ showZ max_length.

(** An environment with credentials for both providers. *)
Definition bothConfigured : ProviderEnv :=
  mkEnv (Some "login") (Some "secret") None (Some "key") None.

(** An upstream that reports its token counts. *)
Definition meteredUpstream : nat -> UpstreamReply :=
  fun _ => Replied "[]" (Some (Some 12, Some 3)) None 5 "n".

(** A Labs transport over untyped items that knows the volume of "seo" and
    nothing else. *)
Definition seoVolumeOnly : list string -> ClientOutcome (list RawLabsItem) :=
  fun _ => Resolved true (Some [labsItem (rawString "seo") (Some 1200%Q)]).

(** An environment with credentials for Ahrefs only. *)
Definition ahrefsConfigured : ProviderEnv :=
  mkEnv None None None (Some "key") None.

(** A Labs transport that answers with the row of "seo" and with an item
    whose keyword is the number 7. *)
Definition numericKeyword : list string -> ClientOutcome (list RawLabsItem) :=
  fun _ => Resolved true (Some [labsItem (rawString "seo") (Some 1200%Q);
                                labsItem (rawOther true) (Some 10%Q)]).

(** * Properties *)

(** ** Strings *)

Lemma append_cons (c : ascii) (a b : string) : String c a ++ b = String c (a ++ b).
Proof. reflexivity. Qed.

Lemma append_nil_l (s : string) : EmptyString ++ s = s.
Proof. reflexivity. Qed.

Lemma append_nil_r (s : string) : s ++ EmptyString = s.
Proof.
  induction s as [|c s IH]; [reflexivity | now rewrite append_cons, IH].
Qed.

Lemma append_assoc (a b c : string) : (a ++ b) ++ c = a ++ (b ++ c).
Proof.
  induction a as [|x a IH]; [reflexivity | now rewrite !append_cons, IH].
Qed.

Lemma push_append (cur : string) (c : ascii) (s : string) :
  push cur c ++ s = cur ++ String c s.
Proof. unfold push, str1. now rewrite append_assoc. Qed.

Lemma string_drop_append (pre s : string) :
  string_drop (String.length pre) (pre ++ s) = s.
Proof.
  induction pre as [|c pre IH]; [now destruct s | rewrite append_cons; exact IH].
Qed.

(** ** The fuel of the JSON model *)

Lemma skipWs_length (s : string) : (String.length (skipWs s) <= String.length s)%nat.
Proof.
  induction s as [|c s IH]; cbn [skipWs String.length]; [lia|].
  destruct (isJSONWhitespace c); cbn [String.length]; lia.
Qed.

Lemma string_drop_length (k : nat) (s : string) :
  (String.length (string_drop k s) <= String.length s)%nat.
Proof.
  revert s. induction k as [|k IH]; intros [|c s]; cbn [string_drop String.length]; try lia.
  specialize (IH s). lia.
Qed.

Lemma consUnit_inv (u : N) (r : option (list N * string)) (us : list N) (rest : string) :
  consUnit u r = Some (us, rest) -> exists us', r = Some (us', rest).
Proof. destruct r as [[us' rest']|]; cbn; [|discriminate]. intros [= _ <-]. eauto. Qed.

Lemma parseStringBody_length (n : nat) :
  forall s us rest,
    (String.length s <= n)%nat ->
    parseStringBody s = Some (us, rest) ->
    (String.length rest < String.length s)%nat.
Proof.
  induction n as [|n IH]; intros s us rest Hlen Hparse.
  - destruct s; [discriminate | cbn in Hlen; lia].
  - destruct s as [|c s]; [discriminate|]. cbn [parseStringBody] in Hparse.
    cbn [String.length] in *.
    destruct (Ascii.eqb c QUOTE); [injection Hparse as _ <-; lia|].
    destruct (Ascii.eqb c BACKSLASH).
    + destruct s as [|e s]; [discriminate|]. cbn [String.length] in *.
      destruct (Ascii.eqb e "u"%char).
      * destruct s as [|h1 [|h2 [|h3 [|h4 s4]]]]; try discriminate.
        cbn [String.length] in *.
        destruct (hex4 h1 h2 h3 h4); [|discriminate].
        apply consUnit_inv in Hparse as [us' Hparse].
        apply IH in Hparse; lia.
      * destruct (simpleEscape e); [|discriminate].
        apply consUnit_inv in Hparse as [us' Hparse].
        apply IH in Hparse; lia.
    + destruct (N_of_ascii c <? 32)%N; [discriminate|].
      apply consUnit_inv in Hparse as [us' Hparse].
      apply IH in Hparse; lia.
Qed.

Lemma takeDigits_length (s : string) :
  (String.length (snd (takeDigits s)) <= String.length s)%nat.
Proof.
  induction s as [|c s IH]; cbn [takeDigits]; [cbn; lia|].
  destruct (isDigit c); [|cbn; lia].
  destruct (takeDigits s) as [ds rest]. cbn [snd String.length] in *. lia.
Qed.

Lemma parseNumber_length (s lexeme rest : string) :
  parseNumber s = Some (lexeme, rest) ->
  (String.length rest < String.length s)%nat.
Proof.
  unfold parseNumber. intros H.
  assert (Hint : forall t int t', parseInt t = Some (int, t') ->
                                  (String.length t' < String.length t)%nat).
  { intros [|c t] int t'; cbn [parseInt]; [discriminate|].
    destruct (Ascii.eqb c "0"%char); [intros [= _ <-]; cbn; lia|].
    destruct (isDigit c); [|discriminate].
    pose proof (takeDigits_length t) as Hd. destruct (takeDigits t) as [ds r].
    intros [= _ <-]. cbn [snd String.length] in *. lia. }
  assert (Hfrac : forall t frac t', parseFrac t = Some (frac, t') ->
                                    (String.length t' <= String.length t)%nat).
  { intros [|c t] frac t'; cbn [parseFrac]; [intros [= _ <-]; lia|].
    destruct (Ascii.eqb c "."%char); [|intros [= _ <-]; lia].
    pose proof (takeDigits_length t) as Hd. destruct (takeDigits t) as [[|d ds] r];
      [discriminate|]. intros [= _ <-]. cbn [snd String.length] in *. lia. }
  assert (Hexp : forall t e t', parseExp t = Some (e, t') ->
                                (String.length t' <= String.length t)%nat).
  { intros [|c t] e t'; cbn [parseExp]; [intros [= _ <-]; lia|].
    destruct (Ascii.eqb c "e"%char || Ascii.eqb c "E"%char); [|intros [= _ <-]; lia].
    destruct t as [|g r].
    - cbn. discriminate.
    - destruct (Ascii.eqb g "+"%char || Ascii.eqb g "-"%char).
      + pose proof (takeDigits_length r) as Hd. destruct (takeDigits r) as [[|d ds] r'];
          [discriminate|]. intros [= _ <-]. cbn [snd String.length] in *. lia.
      + pose proof (takeDigits_length (String g r)) as Hd.
        destruct (takeDigits (String g r)) as [[|d ds] r'];
          [discriminate|]. intros [= _ <-]. cbn [snd String.length] in *. lia. }
  destruct s as [|c r].
  - cbn in H. discriminate.
  - destruct (Ascii.eqb c "-"%char).
    + destruct (parseInt r) as [[int s2]|] eqn:Hi; [|discriminate].
      destruct (parseFrac s2) as [[frac s3]|] eqn:Hf; [|discriminate].
      destruct (parseExp s3) as [[e s4]|] eqn:He; [|discriminate].
      injection H as _ <-.
      apply Hint in Hi. apply Hfrac in Hf. apply Hexp in He. cbn [String.length]. lia.
    + destruct (parseInt (String c r)) as [[int s2]|] eqn:Hi; [|discriminate].
      destruct (parseFrac s2) as [[frac s3]|] eqn:Hf; [|discriminate].
      destruct (parseExp s3) as [[e s4]|] eqn:He; [|discriminate].
      injection H as _ <-.
      apply Hint in Hi. apply Hfrac in Hf. apply Hexp in He. lia.
Qed.

Lemma skipWs_cons_length (s : string) (c : ascii) (r : string) :
  skipWs s = String c r -> (String.length r < String.length s)%nat.
Proof.
  intros H. pose proof (skipWs_length s) as Hle. rewrite H in Hle.
  cbn [String.length] in Hle. lia.
Qed.

(** Every successful parse consumes input. *)
Lemma parse_length (n : nat) :
  (forall s v rest, parseValue n s = Some (v, rest) ->
                    (String.length rest < String.length s)%nat)
  /\ (forall s vs rest, parseElements n s = Some (vs, rest) ->
                        (String.length rest < String.length s)%nat)
  /\ (forall s ms rest, parseMembers n s = Some (ms, rest) ->
                        (String.length rest < String.length s)%nat).
Proof.
  induction n as [|n (IHv & IHe & IHm)]; [repeat split; intros; discriminate|].
  split; [|split].
  - intros s v rest H. cbn [parseValue] in H.
    destruct (skipWs s) as [|c r] eqn:Hs; [discriminate|].
    apply skipWs_cons_length in Hs.
    destruct (Ascii.eqb c "{"%char).
    { destruct (skipWs r) as [|c' r'] eqn:Hr; [discriminate|].
      apply skipWs_cons_length in Hr.
      destruct (Ascii.eqb c' "}"%char); [injection H as _ <-; lia|].
      destruct (parseMembers n (String c' r')) as [[ms rest']|] eqn:Hm; [|discriminate].
      injection H as _ <-. apply IHm in Hm. cbn [String.length] in Hm. lia. }
    destruct (Ascii.eqb c "["%char).
    { destruct (skipWs r) as [|c' r'] eqn:Hr; [discriminate|].
      apply skipWs_cons_length in Hr.
      destruct (Ascii.eqb c' "]"%char); [injection H as _ <-; lia|].
      destruct (parseElements n (String c' r')) as [[vs rest']|] eqn:He; [|discriminate].
      injection H as _ <-. apply IHe in He. cbn [String.length] in He. lia. }
    destruct (Ascii.eqb c QUOTE).
    { destruct (parseStringBody r) as [[us rest']|] eqn:Hb; [|discriminate].
      injection H as _ <-.
      apply (parseStringBody_length _ _ _ _ (le_n _)) in Hb. lia. }
    destruct (String.prefix "true" (String c r)).
    { injection H as _ <-. clear -Hs.
      repeat match goal with
             | |- context [match ?x with _ => _ end] => destruct x
             end; cbn [String.length] in *; lia. }
    destruct (String.prefix "false" (String c r)).
    { injection H as _ <-. clear -Hs.
      repeat match goal with
             | |- context [match ?x with _ => _ end] => destruct x
             end; cbn [String.length] in *; lia. }
    destruct (String.prefix "null" (String c r)).
    { injection H as _ <-. clear -Hs.
      repeat match goal with
             | |- context [match ?x with _ => _ end] => destruct x
             end; cbn [String.length] in *; lia. }
    destruct (parseNumber (String c r)) as [[lexeme rest']|] eqn:Hn; [|discriminate].
    injection H as _ <-. apply parseNumber_length in Hn. cbn [String.length] in Hn. lia.
  - intros s vs rest H. cbn [parseElements] in H.
    destruct (parseValue n s) as [[v rest1]|] eqn:Hv; [|discriminate].
    apply IHv in Hv.
    destruct (skipWs rest1) as [|c r] eqn:Hs; [discriminate|].
    apply skipWs_cons_length in Hs.
    destruct (Ascii.eqb c ","%char).
    { destruct (parseElements n r) as [[vs' rest']|] eqn:He; [|discriminate].
      injection H as _ <-. apply IHe in He. lia. }
    destruct (Ascii.eqb c "]"%char); [|discriminate].
    injection H as _ <-. lia.
  - intros s ms rest H. cbn [parseMembers] in H.
    destruct s as [|q r]; [discriminate|].
    destruct (Ascii.eqb q QUOTE); [|discriminate].
    destruct (parseStringBody r) as [[key rest0]|] eqn:Hb; [|discriminate].
    apply (parseStringBody_length _ _ _ _ (le_n _)) in Hb.
    destruct (skipWs rest0) as [|colon r1] eqn:Hs; [discriminate|].
    apply skipWs_cons_length in Hs.
    destruct (Ascii.eqb colon ":"%char); [|discriminate].
    destruct (parseValue n r1) as [[v rest1]|] eqn:Hv; [|discriminate].
    apply IHv in Hv.
    destruct (skipWs rest1) as [|c r2] eqn:Hs1; [discriminate|].
    apply skipWs_cons_length in Hs1.
    cbn [String.length].
    destruct (Ascii.eqb c ","%char).
    { destruct (parseMembers n (skipWs r2)) as [[ms' rest']|] eqn:Hm; [|discriminate].
      injection H as _ <-. apply IHm in Hm. pose proof (skipWs_length r2). lia. }
    destruct (Ascii.eqb c "}"%char); [|discriminate].
    injection H as _ <-. lia.
Qed.

Lemma parseElements_unfold (fuel : nat) (s : string) :
  parseElements (S fuel) s
  = match parseValue fuel s with
    | Some (v, rest) =>
        match skipWs rest with
        | String c r =>
            if Ascii.eqb c ","%char then
              match parseElements fuel r with
              | Some (vs, rest') => Some (v :: vs, rest')
              | None => None
              end
            else if Ascii.eqb c "]"%char then Some ([v], r)
            else None
        | EmptyString => None
        end
    | None => None
    end.
Proof. reflexivity. Qed.

Lemma parseMembers_unfold (fuel : nat) (s : string) :
  parseMembers (S fuel) s
  = match s with
    | String q r =>
        if Ascii.eqb q QUOTE then
          match parseStringBody r with
          | Some (key, rest) =>
              match skipWs rest with
              | String colon r1 =>
                  if Ascii.eqb colon ":"%char then
                    match parseValue fuel r1 with
                    | Some (v, rest1) =>
                        match skipWs rest1 with
                        | String c r2 =>
                            if Ascii.eqb c ","%char then
                              match parseMembers fuel (skipWs r2) with
                              | Some (ms, rest2) => Some ((key, v) :: ms, rest2)
                              | None => None
                              end
                            else if Ascii.eqb c "}"%char then Some ([(key, v)], r2)
                            else None
                        | EmptyString => None
                        end
                    | None => None
                    end
                  else None
              | EmptyString => None
              end
          | None => None
          end
        else None
    | EmptyString => None
    end.
Proof. reflexivity. Qed.

(** Past twice the length of the input, one more unit of fuel changes
    nothing. *)
Lemma parse_fuel_step (n : nat) :
  (forall s, (2 * String.length s + 1 <= n)%nat -> parseValue (S n) s = parseValue n s)
  /\ (forall s, (2 * String.length s + 2 <= n)%nat ->
                parseElements (S n) s = parseElements n s)
  /\ (forall s, (2 * String.length s + 2 <= n)%nat ->
                parseMembers (S n) s = parseMembers n s).
Proof.
  induction n as [|n (IHv & IHe & IHm)]; [repeat split; intros; lia|].
  destruct (parse_length n) as (Lv & _ & _).
  split; [|split].
  - intros s Hn. cbn [parseValue].
    destruct (skipWs s) as [|c r] eqn:Hs; [reflexivity|].
    apply skipWs_cons_length in Hs.
    destruct (Ascii.eqb c "{"%char).
    { destruct (skipWs r) as [|c' r'] eqn:Hr; [reflexivity|].
      apply skipWs_cons_length in Hr.
      destruct (Ascii.eqb c' "}"%char); [reflexivity|].
      rewrite (IHm (String c' r')); [reflexivity|]. cbn [String.length]. lia. }
    destruct (Ascii.eqb c "["%char); [|reflexivity].
    destruct (skipWs r) as [|c' r'] eqn:Hr; [reflexivity|].
    apply skipWs_cons_length in Hr.
    destruct (Ascii.eqb c' "]"%char); [reflexivity|].
    rewrite (IHe (String c' r')); [reflexivity|]. cbn [String.length]. lia.
  - intros s Hn. rewrite (parseElements_unfold (S n)), (parseElements_unfold n).
    rewrite IHv by lia.
    destruct (parseValue n s) as [[v rest1]|] eqn:Hv; [|reflexivity].
    apply Lv in Hv.
    destruct (skipWs rest1) as [|c r] eqn:Hs; [reflexivity|].
    apply skipWs_cons_length in Hs.
    destruct (Ascii.eqb c ","%char); [|reflexivity].
    rewrite (IHe r); [reflexivity|]. lia.
  - intros s Hn. rewrite (parseMembers_unfold (S n)), (parseMembers_unfold n).
    destruct s as [|q r]; [reflexivity|]. cbn [String.length] in Hn.
    destruct (Ascii.eqb q QUOTE); [|reflexivity].
    destruct (parseStringBody r) as [[key rest0]|] eqn:Hb; [|reflexivity].
    apply (parseStringBody_length _ _ _ _ (le_n _)) in Hb.
    destruct (skipWs rest0) as [|colon r1] eqn:Hs; [reflexivity|].
    apply skipWs_cons_length in Hs.
    destruct (Ascii.eqb colon ":"%char); [|reflexivity].
    rewrite IHv by lia.
    destruct (parseValue n r1) as [[v rest1]|] eqn:Hv; [|reflexivity].
    apply Lv in Hv.
    destruct (skipWs rest1) as [|c r2] eqn:Hs1; [reflexivity|].
    apply skipWs_cons_length in Hs1.
    destruct (Ascii.eqb c ","%char); [|reflexivity].
    rewrite (IHm (skipWs r2)); [reflexivity|]. pose proof (skipWs_length r2). lia.
Qed.

Lemma parseValue_fuel_enough (s : string) (n : nat) :
  (2 * String.length s + 1 <= n)%nat ->
  parseValue n s = parseValue (2 * String.length s + 1) s.
Proof.
  intros Hn. induction Hn as [|n Hn IH]; [reflexivity|].
  rewrite <- IH. now apply parse_fuel_step.
Qed.

(** The fuel [JSON_parse] gives its parser is enough: with any larger
    amount the result is the same. *)
Lemma JSON_parse_fuel_enough (text : string) (n : nat) :
  (2 * String.length text + 2 <= n)%nat ->
  JSON_parse_fuel n text = JSON_parse text.
Proof.
  intros Hn. unfold JSON_parse, JSON_parse_fuel.
  rewrite (parseValue_fuel_enough text n) by lia.
  now rewrite (parseValue_fuel_enough text (2 * String.length text + 2)) by lia.
Qed.

(** ** The salvage scan against the grammar of complete objects *)

Lemma salvageRun_append (st : SalvageState) (a b : string) :
  salvageRun st (a ++ b) = salvageRun (salvageRun st a) b.
Proof.
  revert st. induction a as [|c a IH]; intros st; [reflexivity|].
  rewrite append_cons. cbn [salvageRun]. apply IH.
Qed.

Lemma isPlain_inv (c : ascii) :
  isPlain c = true ->
  Ascii.eqb c QUOTE = false /\ Ascii.eqb c BACKSLASH = false /\
  Ascii.eqb c "{"%char = false /\ Ascii.eqb c "}"%char = false.
Proof.
  unfold isPlain. intros H. apply negb_true_iff in H.
  repeat (apply orb_false_iff in H; destruct H as [H ?]). auto.
Qed.

(** The scan's step on the characters that matter. *)
Lemma salvageStep_quote (ms : list string) (cur : string) (d : Z) (ins : bool) :
  salvageStep (mkSalvage ms cur d ins false) QUOTE
  = mkSalvage ms (push cur QUOTE) d (negb ins) false.
Proof. reflexivity. Qed.

Lemma salvageStep_open_brace (ms : list string) (cur : string) (d : Z) :
  1 <= d ->
  salvageStep (mkSalvage ms cur d false false) "{"%char
  = mkSalvage ms (push cur "{"%char) (d + 1) false false.
Proof.
  intros Hd. simpl.
  now replace (d =? 0) with false by (symmetry; apply Z.eqb_neq; lia).
Qed.

Lemma salvageStep_open_brace_top (ms : list string) (cur : string) :
  salvageStep (mkSalvage ms cur 0 false false) "{"%char = mkSalvage ms "{" 1 false false.
Proof. reflexivity. Qed.

Lemma salvageStep_close_brace (ms : list string) (cur : string) (d : Z) :
  1 <= d ->
  salvageStep (mkSalvage ms cur (d + 1) false false) "}"%char
  = mkSalvage ms (push cur "}"%char) d false false.
Proof.
  intros Hd. simpl.
  replace (d + 1 - 1 =? 0) with false by (symmetry; apply Z.eqb_neq; lia).
  now replace (d + 1 - 1) with d by lia.
Qed.

Lemma salvageStep_close_brace_top (ms : list string) (cur : string) :
  salvageStep (mkSalvage ms cur 1 false false) "}"%char
  = mkSalvage (ms ++ [push cur "}"%char]) EmptyString 0 false false.
Proof. reflexivity. Qed.

(** Inside a quoted string the scan only copies. *)
Lemma salvageRun_quoted_body (q : string) :
  quoted_body q ->
  forall ms cur d,
    salvageRun (mkSalvage ms cur d true false) q = mkSalvage ms (cur ++ q) d true false.
Proof.
  induction 1 as [|c s Hq Hb _ IH|c s _ IH]; intros ms cur d.
  - simpl. now rewrite append_nil_r.
  - simpl. rewrite Hb, Hq. simpl. rewrite IH. now rewrite push_append.
  - simpl. rewrite IH. now rewrite !push_append.
Qed.

(** Balanced text below the top level is copied and leaves the depth alone. *)
Lemma salvageRun_balanced (b : string) :
  balanced b ->
  forall ms cur d, 1 <= d ->
    salvageRun (mkSalvage ms cur d false false) b = mkSalvage ms (cur ++ b) d false false.
Proof.
  induction 1 as [|c s Hp _ IH|q s Hq _ IH|b s _ IHb _ IHs]; intros ms cur d Hd.
  - simpl. now rewrite append_nil_r.
  - destruct (isPlain_inv c Hp) as (Hq & Hb & Ho & Hc).
    simpl. rewrite Hb, Hq, Ho, Hc. simpl.
    replace (d >? 0) with true by (symmetry; apply Z.gtb_lt; lia).
    rewrite IH by assumption. now rewrite push_append.
  - cbn [salvageRun]. rewrite salvageStep_quote.
    rewrite salvageRun_append, salvageRun_quoted_body by assumption.
    cbn [salvageRun negb]. rewrite salvageStep_quote. cbn [negb].
    rewrite IH by assumption.
    now rewrite !push_append, append_assoc.
  - cbn [salvageRun]. rewrite salvageStep_open_brace by assumption.
    rewrite salvageRun_append, IHb by lia.
    cbn [salvageRun]. rewrite salvageStep_close_brace by assumption.
    rewrite IHs by assumption.
    now rewrite !push_append, append_assoc.
Qed.

(** A complete object met at the top level is emitted, whole. *)
Lemma salvageRun_complete_object (o : string) :
  complete_object o ->
  forall ms cur,
    salvageRun (mkSalvage ms cur 0 false false) o
    = mkSalvage (ms ++ [o]) EmptyString 0 false false.
Proof.
  intros (b & Hb & ->) ms cur.
  cbn [salvageRun]. rewrite salvageStep_open_brace_top.
  rewrite salvageRun_append, salvageRun_balanced by (assumption || lia).
  cbn [salvageRun]. now rewrite salvageStep_close_brace_top.
Qed.

(** Separators at the top level are skipped. *)
Lemma salvageRun_plain_top (sep : string) :
  allPlain sep = true ->
  forall ms cur,
    salvageRun (mkSalvage ms cur 0 false false) sep = mkSalvage ms cur 0 false false.
Proof.
  induction sep as [|c sep IH]; intros Hp ms cur; [reflexivity|].
  simpl in Hp. apply andb_true_iff in Hp as [Hc Hp].
  destruct (isPlain_inv c Hc) as (Hq & Hb & Ho & Hcl).
  simpl. rewrite Hb, Hq, Ho, Hcl. simpl. now apply IH.
Qed.

Lemma salvageRun_items (items : list (string * string)) :
  Forall (fun it => complete_object (fst it) /\ allPlain (snd it) = true) items ->
  forall ms cur, exists cur',
    salvageRun (mkSalvage ms cur 0 false false) (joinItems items)
    = mkSalvage (ms ++ map fst items) cur' 0 false false.
Proof.
  induction 1 as [|[o sep] items [Ho Hs] _ IH]; intros ms cur.
  - exists cur. simpl. now rewrite app_nil_r.
  - simpl in Ho, Hs. cbn [joinItems].
    rewrite !salvageRun_append, salvageRun_complete_object by assumption.
    rewrite salvageRun_plain_top by assumption.
    destruct (IH (ms ++ [o])%list EmptyString) as [cur' Hrun].
    exists cur'. rewrite Hrun. cbn [map fst]. now rewrite <- app_assoc.
Qed.

(** A truncated object never brings the depth back to the top level, so it
    emits nothing. *)
Lemma salvageRun_quoted_prefix (q : string) :
  quoted_prefix q ->
  forall ms cur d,
    let st := salvageRun (mkSalvage ms cur d true false) q in
    objectMatches st = ms /\ braceDepth st = d.
Proof.
  intros [q' Hq|q' Hq] ms cur d; cbv zeta.
  - now rewrite salvageRun_quoted_body.
  - rewrite salvageRun_append, salvageRun_quoted_body by assumption. now simpl.
Qed.

Lemma salvageRun_open_body (p : string) :
  open_body p ->
  forall ms cur d, 1 <= d ->
    let st := salvageRun (mkSalvage ms cur d false false) p in
    objectMatches st = ms /\ d <= braceDepth st.
Proof.
  induction 1 as [b Hb|b q Hb Hq|b p Hb _ IH]; intros ms cur d Hd; cbv zeta.
  - rewrite salvageRun_balanced by assumption. simpl. split; [reflexivity | lia].
  - rewrite salvageRun_append, salvageRun_balanced by assumption.
    cbn [salvageRun]. rewrite salvageStep_quote. cbn [negb].
    destruct (salvageRun_quoted_prefix q Hq ms (push (cur ++ b) QUOTE) d) as [Hm Hdepth].
    split; [exact Hm | rewrite Hdepth; lia].
  - rewrite salvageRun_append, salvageRun_balanced by assumption.
    cbn [salvageRun]. rewrite salvageStep_open_brace by assumption.
    destruct (IH ms (push (cur ++ b) "{"%char) (d + 1) ltac:(lia)) as [Hm Hle].
    split; [exact Hm | lia].
Qed.

(** The closing brackets appended to an incomplete array change neither the
    depth nor the matches. *)
Lemma salvageStep_closing_bracket (st : SalvageState) :
  1 <= braceDepth st ->
  objectMatches (salvageStep st "]"%char) = objectMatches st
  /\ braceDepth (salvageStep st "]"%char) = braceDepth st.
Proof.
  destruct st as [ms cur d ins esc]. simpl. intros Hd.
  destruct esc; [now simpl|]. destruct ins; simpl; [easy|].
  replace (d >? 0) with true by (symmetry; apply Z.gtb_lt; lia). easy.
Qed.

Lemma salvageRun_closing_brackets (n : nat) :
  forall st, 1 <= braceDepth st ->
    objectMatches (salvageRun st (repeat_char "]"%char n)) = objectMatches st.
Proof.
  induction n as [|n IH]; intros st Hd; [reflexivity|].
  cbn [repeat_char salvageRun].
  destruct (salvageStep_closing_bracket st Hd) as [Hm Hdepth].
  rewrite IH by lia. exact Hm.
Qed.

(** The scan over a truncated array: exactly the complete objects. *)
Lemma salvageObjects_truncated_array
    (sep0 : string) (items : list (string * string)) (tail : string) (n : nat) :
  allPlain sep0 = true ->
  Forall (fun it => complete_object (fst it) /\ allPlain (snd it) = true) items ->
  truncated_object tail ->
  salvageObjects (sep0 ++ joinItems items ++ tail ++ repeat_char "]"%char n)
  = map fst items.
Proof.
  intros Hsep Hitems (p & Hp & ->). unfold salvageObjects, salvageInit.
  rewrite salvageRun_append, salvageRun_plain_top by assumption.
  rewrite salvageRun_append.
  destruct (salvageRun_items items Hitems [] EmptyString) as [cur' ->].
  rewrite salvageRun_append. rewrite app_nil_l.
  cbn [salvageRun]. rewrite salvageStep_open_brace_top.
  destruct (salvageRun_open_body p Hp (map fst items) "{" 1 ltac:(lia)) as [Hm Hd].
  rewrite salvageRun_closing_brackets by exact Hd. exact Hm.
Qed.

(** ** What [JSON.parse] accepts is balanced *)

Lemma balanced_append (a b : string) : balanced a -> balanced b -> balanced (a ++ b).
Proof.
  induction 1 as [|c s Hp _ IH|q s Hq _ IH|x s Hx _ _ IH]; intros Hb.
  - exact Hb.
  - rewrite append_cons. apply bal_plain; auto.
  - rewrite append_cons, append_assoc, append_cons. apply bal_quoted; auto.
  - rewrite append_cons, append_assoc, append_cons. apply bal_nested; auto.
Qed.

Lemma allPlain_balanced (w : string) : allPlain w = true -> balanced w.
Proof.
  induction w as [|c w IH]; [constructor|]. cbn [allPlain].
  intros [Hc Hw]%andb_true_iff. apply bal_plain; auto.
Qed.

Lemma balanced_object (b : string) : balanced b -> balanced (String "{"%char (b ++ "}")).
Proof. intros Hb. apply (bal_nested b EmptyString Hb). constructor. Qed.

Lemma skipWs_split (s : string) :
  exists w, s = w ++ skipWs s /\ allPlain w = true.
Proof.
  induction s as [|c s (w & Hw & Hp)]; [now exists EmptyString|].
  cbn [skipWs]. destruct (isJSONWhitespace c) eqn:Hc; [|now exists EmptyString].
  exists (String c w). rewrite append_cons, <- Hw. split; [reflexivity|].
  cbn [allPlain]. rewrite Hp, andb_true_r.
  revert Hc. destruct c as [[] [] [] [] [] [] [] []]; vm_compute; congruence.
Qed.

Lemma prefix_split (p s : string) :
  String.prefix p s = true -> s = p ++ string_drop (String.length p) s.
Proof.
  revert s. induction p as [|c p IH]; intros s; [now destruct s|].
  destruct s as [|d s]; cbn [String.prefix]; [discriminate|].
  destruct (ascii_dec c d) as [<-|]; [|discriminate].
  intros H. rewrite append_cons. cbn [String.length string_drop]. now rewrite <- IH.
Qed.

Lemma hexValue_plain (c : ascii) (v : N) :
  hexValue c = Some v -> Ascii.eqb c QUOTE = false /\ Ascii.eqb c BACKSLASH = false.
Proof. destruct c as [[] [] [] [] [] [] [] []]; vm_compute; intros; try discriminate; auto. Qed.

Lemma isDigit_plain (c : ascii) : isDigit c = true -> isPlain c = true.
Proof. destruct c as [[] [] [] [] [] [] [] []]; vm_compute; congruence. Qed.

(** A string literal that parses is a quoted body and its closing quote. *)
Lemma parseStringBody_quoted (n : nat) :
  forall s us rest,
    (String.length s <= n)%nat ->
    parseStringBody s = Some (us, rest) ->
    exists q, s = q ++ String QUOTE rest /\ quoted_body q.
Proof.
  induction n as [|n IH]; intros s us rest Hlen Hparse.
  - destruct s; [discriminate | cbn in Hlen; lia].
  - destruct s as [|c s]; [discriminate|]. cbn [parseStringBody] in Hparse.
    cbn [String.length] in *.
    destruct (Ascii.eqb c QUOTE) eqn:Hq.
    { injection Hparse as _ <-. apply Ascii.eqb_eq in Hq as ->.
      exists EmptyString. split; [reflexivity | constructor]. }
    destruct (Ascii.eqb c BACKSLASH) eqn:Hb.
    + apply Ascii.eqb_eq in Hb as ->.
      destruct s as [|e s]; [discriminate|]. cbn [String.length] in *.
      destruct (Ascii.eqb e "u"%char).
      * destruct s as [|h1 [|h2 [|h3 [|h4 s4]]]]; try discriminate.
        cbn [String.length] in *.
        destruct (hex4 h1 h2 h3 h4) eqn:Hhex; [|discriminate].
        apply consUnit_inv in Hparse as [us' Hparse].
        apply IH in Hparse as (q & -> & Hqb); [|lia].
        exists (String BACKSLASH (String e (String h1 (String h2 (String h3 (String h4 q)))))).
        split; [reflexivity|].
        unfold hex4 in Hhex.
        destruct (hexValue h1) eqn:H1; [|discriminate].
        destruct (hexValue h2) eqn:H2; [|discriminate].
        destruct (hexValue h3) eqn:H3; [|discriminate].
        destruct (hexValue h4) eqn:H4; [|discriminate].
        apply hexValue_plain in H1 as [? ?], H2 as [? ?], H3 as [? ?], H4 as [? ?].
        apply qb_escape. repeat (apply qb_char; [assumption|assumption|]). exact Hqb.
      * destruct (simpleEscape e); [|discriminate].
        apply consUnit_inv in Hparse as [us' Hparse].
        apply IH in Hparse as (q & -> & Hqb); [|lia].
        exists (String BACKSLASH (String e q)). split; [reflexivity|].
        now apply qb_escape.
    + destruct (N_of_ascii c <? 32)%N; [discriminate|].
      apply consUnit_inv in Hparse as [us' Hparse].
      apply IH in Hparse as (q & -> & Hqb); [|lia].
      exists (String c q). split; [reflexivity|]. now apply qb_char.
Qed.

Lemma takeDigits_split (s : string) :
  s = fst (takeDigits s) ++ snd (takeDigits s) /\ allPlain (fst (takeDigits s)) = true.
Proof.
  induction s as [|c s [IHs IHp]]; [now split|]. cbn [takeDigits].
  destruct (isDigit c) eqn:Hd; [|now split].
  destruct (takeDigits s) as [ds rest]. cbn [fst snd] in *.
  rewrite append_cons, <- IHs. split; [reflexivity|].
  cbn [allPlain]. now rewrite (isDigit_plain c Hd), IHp.
Qed.

Lemma allPlain_append (a b : string) : allPlain (a ++ b) = allPlain a && allPlain b.
Proof.
  induction a as [|c a IH]; [reflexivity|].
  rewrite append_cons. cbn [allPlain]. now rewrite IH, andb_assoc.
Qed.

Lemma parseNumber_split (s lexeme rest : string) :
  parseNumber s = Some (lexeme, rest) -> s = lexeme ++ rest /\ allPlain lexeme = true.
Proof.
  unfold parseNumber. intros H.
  assert (Hint : forall t int t', parseInt t = Some (int, t') ->
                                  t = int ++ t' /\ allPlain int = true).
  { intros [|c t] int t'; cbn [parseInt]; [discriminate|].
    destruct (Ascii.eqb c "0"%char) eqn:Hz.
    { apply Ascii.eqb_eq in Hz as ->. intros [= <- <-]. now split. }
    destruct (isDigit c) eqn:Hd; [|discriminate].
    destruct (takeDigits_split t) as [Hs Hp]. destruct (takeDigits t) as [ds r].
    intros [= <- <-]. cbn [fst snd] in *. rewrite append_cons, <- Hs.
    split; [reflexivity|]. cbn [allPlain]. now rewrite (isDigit_plain c Hd), Hp. }
  assert (Hfrac : forall t frac t', parseFrac t = Some (frac, t') ->
                                    t = frac ++ t' /\ allPlain frac = true).
  { intros [|c t] frac t'; cbn [parseFrac]; [intros [= <- <-]; now split|].
    destruct (Ascii.eqb c "."%char) eqn:Hdot; [|intros [= <- <-]; now split].
    apply Ascii.eqb_eq in Hdot as ->.
    destruct (takeDigits_split t) as [Hs Hp]. destruct (takeDigits t) as [[|d ds] r];
      [discriminate|]. intros [= <- <-]. cbn [fst snd] in *.
    rewrite append_cons, <- Hs. split; [reflexivity|]. cbn [allPlain] in *. exact Hp. }
  assert (Hexp : forall t e t', parseExp t = Some (e, t') ->
                                t = e ++ t' /\ allPlain e = true).
  { intros [|c t] e t'; cbn [parseExp]; [intros [= <- <-]; now split|].
    destruct (Ascii.eqb c "e"%char || Ascii.eqb c "E"%char) eqn:He;
      [|intros [= <- <-]; now split].
    assert (Hc : isPlain c = true).
    { apply orb_true_iff in He as [->%Ascii.eqb_eq | ->%Ascii.eqb_eq]; reflexivity. }
    destruct t as [|g r].
    - cbn. discriminate.
    - destruct (Ascii.eqb g "+"%char || Ascii.eqb g "-"%char) eqn:Hg.
      + assert (Hgp : isPlain g = true).
        { apply orb_true_iff in Hg as [->%Ascii.eqb_eq | ->%Ascii.eqb_eq]; reflexivity. }
        destruct (takeDigits_split r) as [Hs Hp]. destruct (takeDigits r) as [[|d ds] r'];
          [discriminate|]. intros [= <- <-]. cbn [fst snd] in *.
        rewrite Hs. split; [reflexivity|].
        change (allPlain (String c (String g (String d ds))) = true).
        cbn [allPlain] in *. now rewrite Hc, Hgp.
      + destruct (takeDigits_split (String g r)) as [Hs Hp].
        destruct (takeDigits (String g r)) as [[|d ds] r'];
          [discriminate|]. intros [= <- <-]. cbn [fst snd] in *.
        rewrite Hs. split; [reflexivity|].
        change (allPlain (String c (String d ds)) = true).
        cbn [allPlain] in *. now rewrite Hc. }
  assert (Hall : forall t int frac e s2 s3 s4,
             parseInt t = Some (int, s2) -> parseFrac s2 = Some (frac, s3) ->
             parseExp s3 = Some (e, s4) ->
             t = (int ++ frac ++ e) ++ s4 /\ allPlain (int ++ frac ++ e) = true).
  { intros t int frac e s2 s3 s4 Hi Hf He.
    apply Hint in Hi as [-> Hpi]. apply Hfrac in Hf as [-> Hpf]. apply Hexp in He as [-> Hpe].
    split; [now rewrite !append_assoc|]. now rewrite !allPlain_append, Hpi, Hpf, Hpe. }
  destruct s as [|c r].
  - cbn in H. discriminate.
  - destruct (Ascii.eqb c "-"%char) eqn:Hm.
    + apply Ascii.eqb_eq in Hm as ->.
      destruct (parseInt r) as [[int s2]|] eqn:Hi; [|discriminate].
      destruct (parseFrac s2) as [[frac s3]|] eqn:Hf; [|discriminate].
      destruct (parseExp s3) as [[e s4]|] eqn:He; [|discriminate].
      injection H as <- <-.
      destruct (Hall _ _ _ _ _ _ _ Hi Hf He) as [-> Hp].
      split; [reflexivity|]. change ("-" ++ int ++ frac ++ e) with (String "-" (int ++ frac ++ e)).
      cbn [allPlain]. exact Hp.
    + destruct (parseInt (String c r)) as [[int s2]|] eqn:Hi; [|discriminate].
      destruct (parseFrac s2) as [[frac s3]|] eqn:Hf; [|discriminate].
      destruct (parseExp s3) as [[e s4]|] eqn:He; [|discriminate].
      injection H as <- <-. rewrite append_nil_l.
      exact (Hall _ _ _ _ _ _ _ Hi Hf He).
Qed.

Ltac string_norm :=
  repeat first [rewrite append_assoc | rewrite append_cons
               | rewrite append_nil_l | rewrite append_nil_r].

Lemma balanced_plain_append (w b : string) :
  allPlain w = true -> balanced b -> balanced (w ++ b).
Proof. intros Hw Hb. apply balanced_append; [now apply allPlain_balanced | exact Hb]. Qed.

(** What the parser consumes is balanced: the text of a value, the text of
    the elements up to the closing bracket, and the text of the members up
    to, but without, the closing brace. *)
Lemma parse_balanced (n : nat) :
  (forall s v rest, parseValue n s = Some (v, rest) ->
                    exists b, s = b ++ rest /\ balanced b)
  /\ (forall s vs rest, parseElements n s = Some (vs, rest) ->
                        exists b, s = b ++ rest /\ balanced b)
  /\ (forall s ms rest, parseMembers n s = Some (ms, rest) ->
                        exists b, s = b ++ String "}"%char rest /\ balanced b).
Proof.
  induction n as [|n (IHv & IHe & IHm)]; [repeat split; intros; discriminate|].
  split; [|split].
  - intros s v rest H. cbn [parseValue] in H.
    destruct (skipWs_split s) as (w & Hw & Hpw).
    destruct (skipWs s) as [|c r] eqn:Hs; [discriminate|].
    destruct (Ascii.eqb c "{"%char) eqn:Hobj.
    { apply Ascii.eqb_eq in Hobj as ->.
      destruct (skipWs_split r) as (w2 & Hw2 & Hpw2).
      destruct (skipWs r) as [|c' r'] eqn:Hr; [discriminate|].
      destruct (Ascii.eqb c' "}"%char) eqn:Hclose.
      - apply Ascii.eqb_eq in Hclose as ->. injection H as _ <-.
        exists (w ++ String "{"%char (w2 ++ "}")). split.
        + rewrite Hw, Hw2. now string_norm.
        + apply balanced_plain_append; [assumption|].
          apply balanced_object. now apply allPlain_balanced.
      - destruct (parseMembers n (String c' r')) as [[ms rest']|] eqn:Hm; [|discriminate].
        injection H as _ <-. apply IHm in Hm as (bm & Hbm & Hbal).
        exists (w ++ String "{"%char ((w2 ++ bm) ++ "}")). split.
        + rewrite Hw, Hw2, Hbm. now string_norm.
        + apply balanced_plain_append; [assumption|].
          apply balanced_object. now apply balanced_plain_append. }
    destruct (Ascii.eqb c "["%char) eqn:Harr.
    { apply Ascii.eqb_eq in Harr as ->.
      destruct (skipWs_split r) as (w2 & Hw2 & Hpw2).
      destruct (skipWs r) as [|c' r'] eqn:Hr; [discriminate|].
      destruct (Ascii.eqb c' "]"%char) eqn:Hclose.
      - apply Ascii.eqb_eq in Hclose as ->. injection H as _ <-.
        exists (w ++ String "["%char (w2 ++ "]")). split.
        + rewrite Hw, Hw2. now string_norm.
        + apply balanced_plain_append; [assumption|].
          apply bal_plain; [reflexivity|].
          apply balanced_plain_append; [assumption|].
          apply bal_plain; [reflexivity | constructor].
      - destruct (parseElements n (String c' r')) as [[vs rest']|] eqn:He; [|discriminate].
        injection H as _ <-. apply IHe in He as (be & Hbe & Hbal).
        exists (w ++ String "["%char (w2 ++ be)). split.
        + rewrite Hw, Hw2, Hbe. now string_norm.
        + apply balanced_plain_append; [assumption|].
          apply bal_plain; [reflexivity|]. now apply balanced_plain_append. }
    destruct (Ascii.eqb c QUOTE) eqn:Hquote.
    { apply Ascii.eqb_eq in Hquote as ->.
      destruct (parseStringBody r) as [[us rest']|] eqn:Hb; [|discriminate].
      injection H as _ <-.
      apply (parseStringBody_quoted _ _ _ _ (le_n _)) in Hb as (q & Hq & Hqb).
      exists (w ++ String QUOTE (q ++ String QUOTE EmptyString)). split.
      - rewrite Hw, Hq. now string_norm.
      - apply balanced_plain_append; [assumption|].
        apply bal_quoted; [assumption | constructor]. }
    assert (Hlit : forall lit, allPlain lit = true ->
              String.prefix lit (String c r) = true ->
              exists b, s = b ++ string_drop (String.length lit) (String c r) /\ balanced b).
    { intros lit Hplain Hpre. exists (w ++ lit). split.
      - rewrite Hw at 1. rewrite (prefix_split lit (String c r) Hpre) at 1.
        now rewrite append_assoc.
      - apply balanced_plain_append; [assumption | now apply allPlain_balanced]. }
    destruct (String.prefix "true" (String c r)) eqn:Ht.
    { injection H as _ <-. now apply (Hlit "true"). }
    destruct (String.prefix "false" (String c r)) eqn:Hf.
    { injection H as _ <-. now apply (Hlit "false"). }
    destruct (String.prefix "null" (String c r)) eqn:Hnull.
    { injection H as _ <-. now apply (Hlit "null"). }
    destruct (parseNumber (String c r)) as [[lexeme rest']|] eqn:Hn; [|discriminate].
    injection H as _ <-. apply parseNumber_split in Hn as [Hn Hpl].
    exists (w ++ lexeme). split.
    + rewrite Hw, Hn. now rewrite append_assoc.
    + apply balanced_plain_append; [assumption | now apply allPlain_balanced].
  - intros s vs rest H. rewrite parseElements_unfold in H.
    destruct (parseValue n s) as [[v rest1]|] eqn:Hv; [|discriminate].
    apply IHv in Hv as (bv & -> & Hbv).
    destruct (skipWs_split rest1) as (w & Hw & Hpw).
    destruct (skipWs rest1) as [|c r] eqn:Hs; [discriminate|].
    destruct (Ascii.eqb c ","%char) eqn:Hcomma.
    { apply Ascii.eqb_eq in Hcomma as ->.
      destruct (parseElements n r) as [[vs' rest']|] eqn:He; [|discriminate].
      injection H as _ <-. apply IHe in He as (be & -> & Hbe).
      exists (bv ++ w ++ String ","%char be). split.
      - rewrite Hw. now string_norm.
      - apply balanced_append; [assumption|]. apply balanced_plain_append; [assumption|].
        now apply bal_plain. }
    destruct (Ascii.eqb c "]"%char) eqn:Hclose; [|discriminate].
    apply Ascii.eqb_eq in Hclose as ->. injection H as _ <-.
    exists (bv ++ w ++ "]"). split.
    + rewrite Hw. now string_norm.
    + apply balanced_append; [assumption|]. apply balanced_plain_append; [assumption|].
      apply bal_plain; [reflexivity | constructor].
  - intros s ms rest H. rewrite parseMembers_unfold in H.
    destruct s as [|q r]; [discriminate|].
    destruct (Ascii.eqb q QUOTE) eqn:Hquote; [|discriminate].
    apply Ascii.eqb_eq in Hquote as ->.
    destruct (parseStringBody r) as [[key rest0]|] eqn:Hb; [|discriminate].
    apply (parseStringBody_quoted _ _ _ _ (le_n _)) in Hb as (qk & -> & Hqk).
    destruct (skipWs_split rest0) as (w & Hw & Hpw).
    destruct (skipWs rest0) as [|colon r1] eqn:Hs; [discriminate|].
    destruct (Ascii.eqb colon ":"%char) eqn:Hcolon; [|discriminate].
    apply Ascii.eqb_eq in Hcolon as ->.
    destruct (parseValue n r1) as [[v rest1]|] eqn:Hv; [|discriminate].
    apply IHv in Hv as (bv & -> & Hbv).
    destruct (skipWs_split rest1) as (w1 & Hw1 & Hpw1).
    destruct (skipWs rest1) as [|c r2] eqn:Hs1; [discriminate|].
    assert (Hhead : balanced (String QUOTE (qk ++ String QUOTE (w ++ String ":"%char (bv ++ w1))))).
    { apply bal_quoted; [assumption|]. apply balanced_plain_append; [assumption|].
      apply bal_plain; [reflexivity|]. apply balanced_append; [assumption|].
      now apply allPlain_balanced. }
    destruct (Ascii.eqb c ","%char) eqn:Hcomma.
    { apply Ascii.eqb_eq in Hcomma as ->.
      destruct (skipWs_split r2) as (w2 & Hw2 & Hpw2).
      destruct (parseMembers n (skipWs r2)) as [[ms' rest']|] eqn:Hm; [|discriminate].
      injection H as _ <-. apply IHm in Hm as (bm & Hbm & Hbal).
      exists (String QUOTE (qk ++ String QUOTE (w ++ String ":"%char (bv ++ w1)))
              ++ String ","%char (w2 ++ bm)). split.
      - rewrite Hw, Hw1, Hw2, Hbm. now string_norm.
      - apply balanced_append; [assumption|]. apply bal_plain; [reflexivity|].
        now apply balanced_plain_append. }
    destruct (Ascii.eqb c "}"%char) eqn:Hclose; [|discriminate].
    apply Ascii.eqb_eq in Hclose as ->. injection H as _ <-.
    exists (String QUOTE (qk ++ String QUOTE (w ++ String ":"%char (bv ++ w1)))). split.
    + rewrite Hw, Hw1. now string_norm.
    + assumption.
Qed.

Lemma JSON_parse_balanced (text : string) (v : json) :
  JSON_parse text = Some v -> balanced text.
Proof.
  unfold JSON_parse, JSON_parse_fuel.
  destruct (parseValue _ text) as [[v' rest]|] eqn:Hv; [|discriminate].
  destruct (parse_balanced (2 * String.length text + 2)) as (Hbal & _ & _).
  apply Hbal in Hv as (b & -> & Hb).
  destruct (skipWs_split rest) as (w & Hw & Hpw).
  destruct (skipWs rest); [|discriminate]. intros _.
  rewrite append_nil_r in Hw. subst w.
  apply balanced_append; [assumption | now apply allPlain_balanced].
Qed.

(** Over balanced text the scan comes back to the depth it started from,
    outside any string. *)
Lemma salvageRun_balanced_state (b : string) :
  balanced b ->
  forall ms cur d, 0 <= d ->
    exists ms' cur',
      salvageRun (mkSalvage ms cur d false false) b = mkSalvage ms' cur' d false false.
Proof.
  induction 1 as [|c s Hp _ IH|q s Hq _ IH|x s _ IHx _ IHs]; intros ms cur d Hd.
  - eauto.
  - destruct (isPlain_inv c Hp) as (Hq & Hb & Ho & Hc).
    cbn [salvageRun]. unfold salvageStep at 1. rewrite Hb, Hq, Ho, Hc. cbn [negb].
    destruct (d >? 0); apply IH; assumption.
  - cbn [salvageRun]. rewrite salvageStep_quote.
    rewrite salvageRun_append, salvageRun_quoted_body by assumption.
    cbn [salvageRun negb]. rewrite salvageStep_quote. cbn [negb].
    apply IH; assumption.
  - cbn [salvageRun].
    assert (Hopen : exists cur1,
               salvageStep (mkSalvage ms cur d false false) "{"%char
               = mkSalvage ms cur1 (d + 1) false false) by (cbn; eauto).
    destruct Hopen as [cur1 ->].
    rewrite salvageRun_append.
    destruct (IHx ms cur1 (d + 1) ltac:(lia)) as (ms1 & cur2 & ->).
    cbn [salvageRun].
    assert (Hclose : exists ms2 cur3,
               salvageStep (mkSalvage ms1 cur2 (d + 1) false false) "}"%char
               = mkSalvage ms2 cur3 d false false).
    { cbn. replace (d + 1 - 1) with d by lia. destruct (d =? 0); eauto. }
    destruct Hclose as (ms2 & cur3 & ->).
    apply IHs; assumption.
Qed.

Lemma salvageRun_closing_brackets_depth (n : nat) :
  forall st, 1 <= braceDepth st ->
    braceDepth (salvageRun st (repeat_char "]"%char n)) = braceDepth st.
Proof.
  induction n as [|n IH]; intros st Hd; [reflexivity|].
  cbn [repeat_char salvageRun].
  destruct (salvageStep_closing_bracket st Hd) as [_ Hdepth].
  rewrite IH by lia. exact Hdepth.
Qed.

(** An array that breaks off inside an object does not parse, however many
    closing brackets are appended. *)
Lemma truncated_array_not_parsed
    (sep0 : string) (items : list (string * string)) (tail : string) (n : nat) :
  allPlain sep0 = true ->
  Forall (fun it => complete_object (fst it) /\ allPlain (snd it) = true) items ->
  truncated_object tail ->
  JSON_parse (sep0 ++ joinItems items ++ tail ++ repeat_char "]"%char n) = None.
Proof.
  intros Hsep Hitems (p & Hp & ->).
  destruct (JSON_parse _) as [v|] eqn:Hparse; [exfalso | reflexivity].
  apply JSON_parse_balanced in Hparse.
  destruct (salvageRun_balanced_state _ Hparse [] EmptyString 0 ltac:(lia))
    as (ms' & cur' & Hrun).
  apply (f_equal braceDepth) in Hrun. cbn [braceDepth] in Hrun.
  revert Hrun.
  rewrite salvageRun_append, salvageRun_plain_top by assumption.
  rewrite salvageRun_append.
  destruct (salvageRun_items items Hitems [] EmptyString) as [cur1 ->].
  rewrite salvageRun_append. cbn [salvageRun]. rewrite salvageStep_open_brace_top.
  destruct (salvageRun_open_body p Hp ([] ++ map fst items)%list "{" 1 ltac:(lia))
    as [_ Hd].
  rewrite salvageRun_closing_brackets_depth by exact Hd. lia.
Qed.

(** ** The bracket scan *)

(** One turn of the loop: it returns, or goes on with the depth moved by
    [bracketDepthStep]. *)
Lemma balancedLoop_step (str : string) (sc ec c : ascii) (rest : string)
    (i : nat) (d : Z) (s : option nat) :
  (exists r, balancedLoop str sc ec (String c rest) i d s = Returned r)
  \/ (exists s', balancedLoop str sc ec (String c rest) i d s
                 = balancedLoop str sc ec rest (S i) (bracketDepthStep sc ec d c) s').
Proof.
  cbn [balancedLoop]. unfold bracketDepthStep.
  destruct (Ascii.eqb c sc); [right; eauto|].
  destruct (Ascii.eqb c ec); [|right; eauto].
  destruct s as [s0|]; [|right; eauto].
  destruct (d - 1 =? 0); [left | right]; eauto.
Qed.

Lemma bracketFree_inv (c : ascii) (s : string) :
  bracketFree (String c s) = true ->
  Ascii.eqb c "["%char = false /\ Ascii.eqb c "]"%char = false /\ bracketFree s = true.
Proof.
  cbn [bracketFree]. unfold isBracket. intros H.
  apply andb_true_iff in H as [H1 H2]. apply negb_true_iff, orb_false_iff in H1.
  tauto.
Qed.

Lemma balancedLoop_bracket_free (str pre rest : string) :
  bracketFree pre = true ->
  forall i d s,
    balancedLoop str "["%char "]"%char (pre ++ rest) i d s
    = balancedLoop str "["%char "]"%char rest (i + String.length pre) d s.
Proof.
  induction pre as [|c pre IH]; intros Hfree i d s.
  - rewrite append_nil_l. cbn [String.length]. now rewrite Nat.add_0_r.
  - apply bracketFree_inv in Hfree as (Ho & Hc & Hfree).
    rewrite append_cons. cbn [balancedLoop String.length]. rewrite Ho, Hc.
    rewrite IH by assumption. f_equal. lia.
Qed.

(** Once the array has started, the loop returns at the bracket that brings
    the depth back to zero, or ends with a positive depth. *)
Lemma balancedLoop_started (str rest : string) :
  forall i d s0, 1 <= d ->
    (exists r, balancedLoop str "["%char "]"%char rest i d (Some s0) = Returned r)
    \/ (exists d', 1 <= d' /\
          balancedLoop str "["%char "]"%char rest i d (Some s0) = Exhausted d' (Some s0)).
Proof.
  induction rest as [|c rest IH]; intros i d s0 Hd.
  - right. exists d. now split.
  - cbn [balancedLoop].
    destruct (Ascii.eqb c "["%char).
    + replace (d =? 0) with false by (symmetry; apply Z.eqb_neq; lia).
      apply IH. lia.
    + destruct (Ascii.eqb c "]"%char); [|now apply IH].
      destruct (d - 1 =? 0) eqn:Hz; [left; eauto|].
      apply IH. apply Z.eqb_neq in Hz. lia.
Qed.

(** A text whose first bracket opens an array that no bracket closes is
    completed by appending closing brackets. *)
Lemma findBalancedJSON_incomplete (pre body : string) :
  bracketFree pre = true ->
  findBalancedJSON (pre ++ String "["%char body) "["%char "]"%char false = None ->
  exists n,
    findBalancedJSON (pre ++ String "["%char body) "["%char "]"%char true
    = Some (String "["%char body ++ repeat_char "]"%char n).
Proof.
  intros Hfree. unfold findBalancedJSON.
  rewrite balancedLoop_bracket_free by assumption.
  cbn [balancedLoop]. change (Ascii.eqb "[" "[") with true. cbn iota.
  change (0 =? 0) with true. cbn iota. change (0 + 1) with 1.
  destruct (balancedLoop_started (pre ++ String "["%char body) body
              (S (0 + String.length pre)) 1 (0 + String.length pre)%nat ltac:(lia))
    as [[r ->]|(d' & Hd' & ->)]; [discriminate|].
  intros _. exists (Z.to_nat d').
  replace (d' >? 0) with true by (symmetry; apply Z.gtb_lt; lia).
  cbn [andb Nat.add]. now rewrite string_drop_append.
Qed.

(** ** The response parser on a truncated array *)

Lemma completeObjects_keyword (objectMatches : list string) :
  Forall (fun obj => truthy (getProperty obj "keyword") = true)
         (completeObjects objectMatches).
Proof.
  unfold completeObjects. apply List.Forall_forall. intros obj Hin.
  apply List.filter_In in Hin as [_ H]. now apply andb_true_iff in H as [_ H].
Qed.

Lemma completeObjects_recovered (objectMatches : list string) :
  completeObjects objectMatches = omap recoveredObject objectMatches.
Proof.
  unfold completeObjects.
  induction objectMatches as [|m ms IH]; [reflexivity|].
  cbn [map List.filter omap list_omap]. rewrite IH. unfold recoveredObject.
  destruct (JSON_parse m) as [v|]; [|reflexivity].
  destruct v; cbn [isNull negb andb]; try reflexivity;
    match goal with |- context [truthy ?x] => destruct (truthy x) end; reflexivity.
Qed.

(** C5 (as amended).  A response whose first bracket opens an array of
    complete objects that breaks off inside an object, whose brackets never
    balance before the end, and which fails the direct parse, is parsed to
    the complete objects before the break that [JSON.parse] accepts with a
    truthy [keyword], in their order; when there is none, the raw text is
    handed on.  Nothing of the object that was cut is part of the result:
    the objects are those of [items], each kept or dropped on its own. *)
Theorem truncated_array_salvage
    (pre sep0 : string) (items : list (string * string)) (tail : string) :
  let text := pre ++ String "["%char (sep0 ++ joinItems items ++ tail) in
  bracketFree pre = true ->
  allPlain sep0 = true ->
  Forall (fun it => complete_object (fst it) /\ allPlain (snd it) = true) items ->
  truncated_object tail ->
  JSON_parse (fencedJsonText text) = None ->
  findBalancedJSON text "["%char "]"%char false = None ->
  parseResponseText text
  = match omap recoveredObject (map fst items) with
    | [] => DataText text
    | objs => DataJSON (JArray objs)
    end
  /\ Forall (fun obj => truthy (getProperty obj "keyword") = true)
            (omap recoveredObject (map fst items)).
Proof.
  intros text Hpre Hsep Hitems Htail Hdirect Hscan.
  rewrite <- completeObjects_recovered.
  split; [|apply completeObjects_keyword].
  unfold parseResponseText. rewrite Hdirect, Hscan.
  destruct (findBalancedJSON_incomplete pre _ Hpre Hscan) as [n Hn].
  fold text in Hn. rewrite Hn.
  replace (String "["%char (sep0 ++ joinItems items ++ tail) ++ repeat_char "]"%char n)
    with (String "["%char sep0 ++ joinItems items ++ tail ++ repeat_char "]"%char n)
    by (now rewrite !append_cons, !append_assoc).
  rewrite truncated_array_not_parsed by assumption.
  unfold salvageArray.
  rewrite salvageObjects_truncated_array by assumption.
  destruct items as [|it items']; [reflexivity|].
  cbn [map]. now destruct (completeObjects (fst it :: map fst items')).
Qed.

Lemma quoted_body_keyword : quoted_body "keyword".
Proof. repeat constructor. Qed.

Lemma complete_object_a : complete_object (js "{'keyword':'a'}").
Proof.
  exists (js "'keyword':'a'"). split; [|reflexivity].
  apply (bal_quoted "keyword" (js ":'a'") quoted_body_keyword).
  apply bal_plain; [reflexivity|].
  apply (bal_quoted "a" EmptyString); repeat constructor.
Qed.

Lemma complete_object_nested : complete_object (js "{'k':{}}").
Proof.
  exists (js "'k':{}"). split; [|reflexivity].
  apply (bal_quoted "k" ":{}"); [repeat constructor|].
  apply bal_plain; [reflexivity|].
  apply (bal_nested EmptyString EmptyString); constructor.
Qed.

Lemma complete_object_b : complete_object (js "{'keyword':'b','t':[1]}").
Proof.
  exists (js "'keyword':'b','t':[1]"). split; [|reflexivity].
  apply (bal_quoted "keyword" (js ":'b','t':[1]") quoted_body_keyword).
  apply bal_plain; [reflexivity|].
  apply (bal_quoted "b" (js ",'t':[1]")); [repeat constructor|].
  apply bal_plain; [reflexivity|].
  apply (bal_quoted "t" ":[1]"); repeat constructor.
Qed.

Lemma truncated_object_keyw : truncated_object (js "{'keyw").
Proof.
  exists (js "'keyw"). split; [|reflexivity].
  apply (open_quoted EmptyString "keyw"); repeat constructor.
Qed.

Lemma truncated_array_salvage_witness :
  JSON_parse (fencedJsonText truncatedSample) = None
  /\ findBalancedJSON truncatedSample "["%char "]"%char false = None
  /\ parseResponseText truncatedSample
  = DataJSON (JArray [JObject [(ustr "keyword", JString (ustr "a"))];
                      JObject [(ustr "keyword", JString (ustr "b"));
                               (ustr "t", JArray [JNumber "1"])]]).
Proof.
  pose proof (truncated_array_salvage EmptyString EmptyString
    [(js "{'keyword':'a'}", ","); (js "{'k':{}}", ",");
     (js "{'keyword':'b','t':[1]}", ",")]
    (js "{'keyw")) as H.
  cbv zeta in H.
  split; [vm_compute; reflexivity|]. split; [vm_compute; reflexivity|].
  destruct H as [H _].
  - reflexivity.
  - reflexivity.
  - repeat constructor; cbn [fst];
      [apply complete_object_a | apply complete_object_nested | apply complete_object_b].
  - apply truncated_object_keyw.
  - vm_compute. reflexivity.
  - vm_compute. reflexivity.
  - exact H.
Defined.

(** A keyword written as a number too small for a double parses to zero,
    which is falsy: the object is accepted by [JSON.parse] and dropped, and
    with no object left the raw text is handed on. *)
Lemma zero_keyword_is_dropped :
  let o := js "{'keyword':1e-400}" in
  let text := "[" ++ o ++ "," ++ js "{'keyw" in
  JSON_parse o = Some (JObject [(ustr "keyword", JNumber "1e-400")])
  /\ recoveredObject o = None
  /\ recoveredObject (js "{'keyword':5e-324}")
     = Some (JObject [(ustr "keyword", JNumber "5e-324")])
  /\ parseResponseText text = DataText text.
Proof. cbv zeta. repeat split; vm_compute; reflexivity. Qed.

Lemma complete_object_intent : complete_object (js "{'intent':'x'}").
Proof.
  exists (js "'intent':'x'"). split; [|reflexivity].
  apply (bal_quoted "intent" (js ":'x'")); [repeat constructor|].
  apply bal_plain; [reflexivity|].
  apply (bal_quoted "x" EmptyString); repeat constructor.
Qed.

(** C5 (counterexample).  First text: the one complete object before the
    break has no keyword; it is dropped, and then the parser rethrows the
    parse error and hands on the raw text, not an empty list of objects.
    Second text: two complete objects with a keyword precede the break, yet
    the raw text is handed on, because the bracket inside the first keyword
    ends the bracket scan early. *)
Lemma truncated_array_raw_text :
  (let o := js "{'intent':'x'}" in
   let tail := js "{'keyw" in
   let text := "[" ++ o ++ "," ++ tail in
   complete_object o /\ truncated_object tail
   /\ completeObjects [o] = []
   /\ parseResponseText text = DataText text
   /\ parseResponseText text <> DataJSON (JArray []))
  /\
  (let o1 := js "{'keyword':'a]'}" in
   let o2 := js "{'keyword':'b'}" in
   let tail := js "{'keyw" in
   let text := "[" ++ o1 ++ "," ++ o2 ++ "," ++ tail in
   complete_object o1 /\ complete_object o2 /\ truncated_object tail
   /\ completeObjects [o1; o2]
      = [JObject [(ustr "keyword", JString (ustr "a]"))];
         JObject [(ustr "keyword", JString (ustr "b"))]]
   /\ parseResponseText text = DataText text).
Proof.
  cbv zeta. split.
  - split; [apply complete_object_intent|].
    split; [apply truncated_object_keyw|].
    split; [vm_compute; reflexivity|].
    split; [vm_compute; reflexivity|].
    vm_compute. discriminate.
  - split; [|split; [|split; [|split]]].
    + exists (js "'keyword':'a]'"). split; [|reflexivity].
      apply (bal_quoted "keyword" (js ":'a]'") quoted_body_keyword).
      apply bal_plain; [reflexivity|].
      apply (bal_quoted "a]" EmptyString); repeat constructor.
    + exists (js "'keyword':'b'"). split; [|reflexivity].
      apply (bal_quoted "keyword" (js ":'b'") quoted_body_keyword).
      apply bal_plain; [reflexivity|].
      apply (bal_quoted "b" EmptyString); repeat constructor.
    + apply truncated_object_keyw.
    + vm_compute. reflexivity.
    + vm_compute. reflexivity.
Qed.

(** ** Quoted brackets *)

(** At object granularity the salvage scan leaves the depth alone inside a
    quoted string, whatever the character. *)
Lemma salvageStep_in_string (st : SalvageState) (c : ascii) :
  inString st = true -> braceDepth (salvageStep st c) = braceDepth st.
Proof.
  destruct st as [ms cur d ins esc]. simpl. intros ->.
  destruct esc; [reflexivity|].
  destruct (Ascii.eqb c BACKSLASH); [reflexivity|].
  now destruct (Ascii.eqb c QUOTE).
Qed.

(** C6 (the code at the failing input).  In the response below the closing
    bracket at offset 20 lies inside a quoted string; the bracket scan
    takes the depth from 1 to 0 there and returns a cut array, so that the
    parser and the adapter recover no keyword from a well-formed array. *)
Theorem bracket_scan_counts_quoted_brackets :
  let text := quotedBracketSample in
  String.get 20 text = Some "]"%char
  /\ endsInString (substring 0 20 text) = true
  /\ bracketDepth "["%char "]"%char 0 (substring 0 20 text) = 1
  /\ bracketDepth "["%char "]"%char 0 (substring 0 21 text) = 0
  /\ findBalancedJSON text "["%char "]"%char false = Some (js "[{'keyword':'a]")
  /\ JSON_parse (js "[{'keyword':'a]b'}]")
     = Some (JArray [JObject [(ustr "keyword", JString (ustr "a]b"))]])
  /\ parseResponseText text = DataText text
  /\ adapterKeywordsOfString text = JArray [].
Proof. cbv zeta. repeat split; vm_compute; reflexivity. Qed.

(** ** Scenario C *)

(** C7.  The fenced array followed by prose parses to exactly one object,
    whose keyword is "a"; the adapter's own extraction from the same text
    agrees. *)
Theorem scenario_C_one_object :
  let obj := JObject [(ustr "keyword", JString (ustr "a"));
                      (ustr "intent", JString (ustr "commercial"));
                      (ustr "relevance_score", JNumber "0.8")] in
  parseResponseText scenarioC = DataJSON (JArray [obj])
  /\ getProperty obj "keyword" = Some (JString (ustr "a"))
  /\ adapterKeywordsOfString scenarioC = JArray [obj].
Proof. cbv zeta. repeat split; vm_compute; reflexivity. Qed.

(** The outcome does not depend on how the scenario is read: a leading
    space before the fence, or the line breaks taken as printed, change
    nothing. *)
Lemma scenario_C_variants :
  parseResponseText (" " ++ scenarioC) = parseResponseText scenarioC
  /\ parseResponseText scenarioCPrinted = parseResponseText scenarioC.
Proof. split; vm_compute; reflexivity. Qed.

(** The route by which the scenario is parsed: the direct parse of the
    text after the fence fails on the trailing prose, and the bracket scan
    isolates the array. *)
Lemma scenario_C_route :
  fencedJsonText scenarioC
  = js "[{'keyword':'a','intent':'commercial','relevance_score':0.8}]"
    ++ str1 NEWLINE ++ "``` thanks!"
  /\ JSON_parse (fencedJsonText scenarioC) = None
  /\ findBalancedJSON scenarioC "["%char "]"%char false
     = Some (js "[{'keyword':'a','intent':'commercial','relevance_score':0.8}]").
Proof. repeat split; vm_compute; reflexivity. Qed.

(** ** Cache keys *)

Lemma string_compare_cons (x y : ascii) (a b : string) :
  String.compare (String x a) (String y b)
  = match (N_of_ascii x ?= N_of_ascii y)%N with
    | Eq => String.compare a b
    | Lt => Lt
    | Gt => Gt
    end.
Proof. reflexivity. Qed.

Lemma string_leb_trans (a b c : string) :
  String.leb a b = true -> String.leb b c = true -> String.leb a c = true.
Proof.
  unfold String.leb. revert b c.
  induction a as [|x a IH]; intros [|y b] [|z c]; try (cbn; congruence).
  rewrite !string_compare_cons.
  destruct (N.compare_spec (N_of_ascii x) (N_of_ascii y)) as [Hxy|Hxy|Hxy];
    destruct (N.compare_spec (N_of_ascii y) (N_of_ascii z)) as [Hyz|Hyz|Hyz];
    destruct (N.compare_spec (N_of_ascii x) (N_of_ascii z)) as [Hxz|Hxz|Hxz];
    try congruence; try lia; try (intros; reflexivity).
  apply IH.
Qed.

#[global] Instance str_le_trans : Transitive str_le.
Proof. intros a b c. apply string_leb_trans. Qed.

#[global] Instance str_le_antisymm : AntiSymm (=) str_le.
Proof. intros a b. apply String.leb_antisym. Qed.

#[global] Instance str_le_total : Total str_le.
Proof. intros a b. apply String.leb_total. Qed.

(** Sorting forgets the order in which the keywords were given. *)
Lemma arraySort_permutation (l1 l2 : list string) :
  l1 ≡ₚ l2 -> arraySort l1 = arraySort l2.
Proof.
  intros Hperm. unfold arraySort.
  apply (Sorted_unique str_le); try apply Sorted_merge_sort; try apply _.
  now rewrite !merge_sort_Permutation.
Qed.

Lemma expansionCacheKey_permutation (l1 l2 : list string) (target_count : Z)
    (intent_focus : option string) :
  l1 ≡ₚ l2 ->
  expansionCacheKey l1 target_count intent_focus
  = expansionCacheKey l2 target_count intent_focus.
Proof. intros H. unfold expansionCacheKey. now rewrite (arraySort_permutation l1 l2). Qed.

Lemma ahrefsMetricsCacheKey_permutation (l1 l2 : list string) (country : string) :
  l1 ≡ₚ l2 -> ahrefsMetricsCacheKey l1 country = ahrefsMetricsCacheKey l2 country.
Proof. intros H. unfold ahrefsMetricsCacheKey. now rewrite (arraySort_permutation l1 l2). Qed.

(** The sibling operation of the same client sorts as well. *)
Lemma dataForSEODifficultyCacheKey_permutation (l1 l2 : list string) (location : Z)
    (language : string) :
  l1 ≡ₚ l2 ->
  dataForSEODifficultyCacheKey l1 location language
  = dataForSEODifficultyCacheKey l2 location language.
Proof.
  intros H. unfold dataForSEODifficultyCacheKey. now rewrite (arraySort_permutation l1 l2).
Qed.

(** C4 (the code at the failing input).  [getKeywordData] builds its key
    from the first three keywords in the order given: the same two keywords
    in the other order give another key, and two different batches that
    share their first three keywords give the same key. *)
Theorem dataForSEO_cache_key_depends_on_order :
  ["a"; "b"] ≡ₚ ["b"; "a"]
  /\ dataForSEOCacheKeys ["a"; "b"] 2840 "en" = ["dfs:labs:bulk:2840:en:a,b"]
  /\ dataForSEOCacheKeys ["b"; "a"] 2840 "en" = ["dfs:labs:bulk:2840:en:b,a"]
  /\ expansionCacheKey ["a"; "b"] 100 (Some "mixed")
     = expansionCacheKey ["b"; "a"] 100 (Some "mixed")
  /\ ahrefsMetricsCacheKey ["a"; "b"] "us" = ahrefsMetricsCacheKey ["b"; "a"] "us"
  /\ dataForSEOCacheKeys ["a"; "b"; "c"; "d"] 2840 "en"
     = dataForSEOCacheKeys ["a"; "b"; "c"; "e"] 2840 "en".
Proof.
  split; [apply Permutation_swap|].
  repeat split; vm_compute; reflexivity.
Qed.

(** ** [GeminiClient]: cache hits, rate-limit rejections, input limits *)

(** [Math.ceil(x / d)] is the least whole number whose [d]-fold
    reaches [x]. *)
Lemma ceilDiv_least (x d : Z) :
  0 < d -> x <= d * ceilDiv x d /\ (forall n, x <= d * n -> ceilDiv x d <= n).
Proof.
  intros Hd. unfold ceilDiv.
  pose proof (Z.mul_div_le (- x) d Hd) as Hle. split; [lia|].
  intros n Hn.
  assert (- n <= - x / d) by (apply Z.div_le_lower_bound; lia).
  lia.
Qed.

Section GeminiProperties.
Context {L : Type} (limiter : RateLimiterOps L).
Variable upstream : nat -> UpstreamReply.
Variable isRetryable : LLMError -> bool.
Variable backoff : nat -> Z.
Variable expansionPrompt : list string -> Z -> option string -> option string -> string.
Variable intentPrompt : list string -> string -> string.

Lemma cacheCheck_hit (c : ascii) (k operation : string) (now : Z)
    (st : GeminiClient L) (entry : CacheEntry) :
  cache st !! String c k = Some entry ->
  now < timestamp entry + ttl entry ->
  cacheCheck (mkOptions (Some (String c k)) operation) now st = Some (entry_data entry).
Proof.
  intros Hget Hfresh. unfold cacheCheck, getLLMCache. cbn [opt_cacheKey].
  rewrite Hget. now apply Z.ltb_lt in Hfresh as ->.
Qed.

Lemma cacheCheck_miss (c : ascii) (k operation : string) (now : Z) (st : GeminiClient L) :
  (cache st !! String c k = None
   \/ exists entry, cache st !! String c k = Some entry
                    /\ timestamp entry + ttl entry <= now) ->
  cacheCheck (mkOptions (Some (String c k)) operation) now st = None.
Proof.
  unfold cacheCheck, getLLMCache. cbn [opt_cacheKey].
  intros [->|(entry & -> & Hold)]; [reflexivity|].
  now apply Z.ltb_ge in Hold as ->.
Qed.

(** C8.  A request whose key has an unexpired entry is answered from the
    cache: the cached data and usage, finish reason [cached], processing
    time zero, and the client's state (cache, rate limiter, metrics with
    their counters and total cost, upstream calls) exactly as before.
    An absent or expired entry sends the request on to the rate-limit
    check. *)
Theorem cache_hit_leaves_state (prompt : string) (c : ascii) (k operation : string)
    (now : Z) (st : GeminiClient L) :
  let key := String c k in
  let options := mkOptions (Some key) operation in
  (forall entry,
      cache st !! key = Some entry ->
      now < timestamp entry + ttl entry ->
      makeLLMRequest limiter upstream prompt options now st
      = (inl (mkResponse (data (entry_data entry)) (usage (entry_data entry))
                         (model (entry_data entry)) "cached" ("cached_" ++ showZ now) 0),
         st))
  /\ ((cache st !! key = None
       \/ exists entry, cache st !! key = Some entry /\ timestamp entry + ttl entry <= now) ->
      makeLLMRequest limiter upstream prompt options now st
      = requestAfterMiss limiter upstream prompt options now st).
Proof.
  cbv zeta. split.
  - intros entry Hget Hfresh. unfold makeLLMRequest.
    now rewrite (cacheCheck_hit c k operation now st entry Hget Hfresh).
  - intros Hmiss. unfold makeLLMRequest. now rewrite cacheCheck_miss.
Qed.

(** After the cache has missed, the limiter is consulted before anything
    else: its state afterwards is the one [tryConsume] left. *)
Lemma requestAfterMiss_consults_limiter (prompt : string) (options : LLMOptions) (now : Z)
    (st : GeminiClient L) :
  rateLimiter (snd (requestAfterMiss limiter upstream prompt options now st))
  = snd (tryConsume limiter now (rateLimiter st)).
Proof.
  unfold requestAfterMiss. destruct (tryConsume limiter now (rateLimiter st)) as [[|] rl].
  - unfold performRequest. cbn [snd upstreamCalls].
    destruct (upstream _) as [text um cand lat nonce|msg lat].
    + destruct um as [[p q]|]; cbn [snd rateLimiter];
        destruct (opt_cacheKey options) as [[|? ?]|]; reflexivity.
    + reflexivity.
  - reflexivity.
Qed.

(** C9.  When the cache misses and the limiter refuses, the request is
    rejected at once: the error carries code [RATE_LIMIT_ERROR], status
    429, [retryable], and a retry-after derived from the limiter's next
    refill time: the least whole number of seconds that reaches from now
    to that time, with [reset] the least whole number of seconds that
    reaches the time itself.  [rateLimitHits] grows by one; nothing reaches
    the upstream and no other metric or cache entry changes. *)
Theorem rate_limit_rejection (prompt : string) (options : LLMOptions) (now : Z)
    (st : GeminiClient L) (rl : L) :
  cacheCheck options now st = None ->
  tryConsume limiter now (rateLimiter st) = (false, rl) ->
  exists err st',
    makeLLMRequest limiter upstream prompt options now st = (inr err, st')
    /\ message err = "Rate limit exceeded"
    /\ code err = Some "RATE_LIMIT_ERROR"
    /\ statusCode err = Some 429
    /\ retryable err = Some true
    /\ (exists info, rateLimit err = Some info
          /\ getNextRefillTime limiter rl - now <= 1000 * retryAfter info
          /\ (forall n, getNextRefillTime limiter rl - now <= 1000 * n ->
                        retryAfter info <= n)
          /\ getNextRefillTime limiter rl <= 1000 * reset info
          /\ (forall n, getNextRefillTime limiter rl <= 1000 * n -> reset info <= n)
          /\ remaining info = getRemainingTokens limiter rl)
    /\ rateLimitHits (metrics st') = rateLimitHits (metrics st) + 1
    /\ upstreamCalls st' = upstreamCalls st
    /\ cache st' = cache st
    /\ rateLimiter st' = rl
    /\ requests (metrics st') = requests (metrics st)
    /\ successes (metrics st') = successes (metrics st)
    /\ failures (metrics st') = failures (metrics st)
    /\ totalCost (metrics st') = totalCost (metrics st).
Proof.
  intros Hmiss Hdeny. unfold makeLLMRequest, requestAfterMiss. rewrite Hmiss, Hdeny.
  eexists. eexists. split; [reflexivity|]. cbn.
  do 4 (split; [reflexivity|]).
  split; [|repeat split].
  eexists. split; [reflexivity|]. cbn [retryAfter reset remaining].
  destruct (ceilDiv_least (getNextRefillTime limiter rl - now) 1000 ltac:(lia)) as [Ha Hb].
  destruct (ceilDiv_least (getNextRefillTime limiter rl) 1000 ltac:(lia)) as [Hc Hd].
  repeat split; assumption.
Qed.

(** C10.  The two public operations reject out-of-range input before
    anything else happens: the result is the validation error and the
    client's state is the one it was given, whatever the cache, the
    limiter and the upstream would have done. *)
Theorem input_limits_enforced_first
    (expansion : AnthropicKeywordExpansion)
    (classification : AnthropicIntentClassification) (now : Z) (st : GeminiClient L) :
  seed_keywords expansion = [] \/ 150 < target_count expansion ->
  ic_keywords classification = [] \/ (500 < length (ic_keywords classification))%nat ->
  expandToDream100 limiter upstream isRetryable backoff expansionPrompt expansion now st
  = (inr (plainError
            (if decide (seed_keywords expansion = [])
             then "At least one seed keyword is required"
             else "Maximum 150 keywords per expansion to maintain quality and avoid token limits")),
     st)
  /\ classifyIntent limiter upstream intentPrompt classification now st
     = (inr (plainError
               (if decide (ic_keywords classification = [])
                then "At least one keyword is required"
                else "Maximum 500 keywords per classification request")),
        st).
Proof.
  intros Hexp Hcls. split.
  - unfold expandToDream100.
    destruct (decide (seed_keywords expansion = [])) as [->|Hne]; [reflexivity|].
    destruct Hexp as [?|Hbig]; [contradiction|].
    destruct (seed_keywords expansion); [contradiction|]. cbn [length Nat.eqb].
    now apply Z.gtb_lt in Hbig as ->.
  - unfold classifyIntent.
    destruct (decide (ic_keywords classification = [])) as [->|Hne]; [reflexivity|].
    destruct Hcls as [?|Hbig]; [contradiction|].
    destruct (ic_keywords classification) eqn:Hk; [contradiction|]. cbn [length Nat.eqb].
    cbn [length] in Hbig. now apply Nat.ltb_lt in Hbig as ->.
Qed.
End GeminiProperties.

(** ** The Gemini theorems at concrete inputs *)

Lemma cache_hit_leaves_state_witness :
  makeLLMRequest tokenBucketOps silentUpstream "prompt" sampleKeyOptions 1200 sampleClient
  = (inl (mkResponse (DataText "x") (mkUsage 1 1 DEFAULT_GEMINI_MODEL 0 "r")
                     DEFAULT_GEMINI_MODEL "cached" "cached_1200" 0),
     sampleClient)
  /\ makeLLMRequest tokenBucketOps silentUpstream "prompt" sampleKeyOptions 1600 sampleClient
     = requestAfterMiss tokenBucketOps silentUpstream "prompt" sampleKeyOptions 1600 sampleClient.
Proof.
  split.
  - apply (proj1 (cache_hit_leaves_state tokenBucketOps silentUpstream "prompt"
                    "k"%char EmptyString "keyword_expansion" 1200 sampleClient)
                 (mkEntry sampleResponse 1000 500)).
    + vm_compute. reflexivity.
    + vm_compute. reflexivity.
  - apply (proj2 (cache_hit_leaves_state tokenBucketOps silentUpstream "prompt"
                    "k"%char EmptyString "keyword_expansion" 1600 sampleClient)).
    right. exists (mkEntry sampleResponse 1000 500). split.
    + vm_compute. reflexivity.
    + vm_compute. discriminate.
Defined.

Lemma rate_limit_rejection_witness :
  fst (tryConsume tokenBucketOps 1000 (rateLimiter throttledClient)) = false
  /\ exists err st',
       makeLLMRequest tokenBucketOps silentUpstream "prompt"
         (mkOptions None "keyword_expansion") 1000 throttledClient = (inr err, st')
       /\ code err = Some "RATE_LIMIT_ERROR"
       /\ statusCode err = Some 429
       /\ (exists info, rateLimit err = Some info
             /\ 1200 <= 1000 * retryAfter info
             /\ retryAfter info <= 2
             /\ 2200 <= 1000 * reset info
             /\ reset info <= 3)
       /\ rateLimitHits (metrics st') = 1
       /\ upstreamCalls st' = [].
Proof.
  assert (Hdeny : tryConsume tokenBucketOps 1000 (rateLimiter throttledClient)
                  = (false, snd (tryConsume tokenBucketOps 1000 (rateLimiter throttledClient))))
    by (vm_compute; reflexivity).
  split; [vm_compute; reflexivity|].
  destruct (rate_limit_rejection tokenBucketOps silentUpstream "prompt"
              (mkOptions None "keyword_expansion") 1000 throttledClient _
              eq_refl Hdeny)
    as (err & st' & Hrun & _ & Hcode & Hstatus & _
        & (info & Hinfo & Hafter & Hleast & Hreset & Hresetleast & _)
        & Hhits & Hcalls & _).
  exists err, st'. split; [exact Hrun|]. split; [exact Hcode|]. split; [exact Hstatus|].
  split; [|split; [exact Hhits | exact Hcalls]].
  exists info. split; [exact Hinfo|].
  split; [exact Hafter|]. split; [apply Hleast; vm_compute; discriminate|].
  split; [exact Hreset|]. apply Hresetleast. vm_compute. discriminate.
Defined.

Lemma input_limits_enforced_first_witness :
  expandToDream100 tokenBucketOps silentUpstream (fun _ => true) (fun _ => 1000)
    (fun _ _ _ _ => "prompt") (mkExpansion ["seo"] 151 None (Some "commercial"))
    1200 sampleClient
  = (inr (plainError
            "Maximum 150 keywords per expansion to maintain quality and avoid token limits"),
     sampleClient)
  /\ classifyIntent tokenBucketOps silentUpstream (fun _ _ => "prompt")
       (mkClassification [] "{}") 1200 sampleClient
     = (inr (plainError "At least one keyword is required"), sampleClient).
Proof.
  apply (input_limits_enforced_first tokenBucketOps silentUpstream (fun _ => true)
           (fun _ => 1000) (fun _ _ _ _ => "prompt") (fun _ _ => "prompt")
           (mkExpansion ["seo"] 151 None (Some "commercial")) (mkClassification [] "{}")
           1200 sampleClient).
  - right. vm_compute. reflexivity.
  - left. reflexivity.
Defined.

(** ** [KeywordProvider] *)

Lemma recordInvariant_normalizeDataForSEOData (row : DataForSEORow) :
  recordInvariant (normalizeDataForSEOData row).
Proof. split; [discriminate|]. split; unfold Qle; cbn; lia. Qed.

Lemma recordInvariant_normalizeAhrefsData (row : AhrefsRow) :
  recordInvariant (normalizeAhrefsData row).
Proof. split; [discriminate|]. split; unfold Qle; cbn; lia. Qed.

Lemma recordInvariant_getMockKeywordData (rand : nat -> Q) (i : nat) (k : string) :
  recordInvariant (getMockKeywordData rand i k).
Proof. split; [discriminate|]. split; unfold Qle; cbn; lia. Qed.

Lemma recordInvariant_unavailableRecord (k : string) :
  recordInvariant (unavailableRecord k).
Proof.
  split; [intros _; cbn; repeat split; reflexivity|].
  split; unfold Qle; cbn; lia.
Qed.

Lemma recordInvariant_mockKeywords (rand : nat -> Q) (keywords : list string) :
  forall i, Forall recordInvariant (mockKeywords rand i keywords).
Proof.
  induction keywords as [|k ks IH]; intros i; cbn [mockKeywords]; constructor;
    [apply recordInvariant_getMockKeywordData | apply IH].
Qed.

Lemma recordInvariant_fillMissing (keywords : list string) (rows : list DataForSEORow) :
  Forall recordInvariant (fillMissing keywords rows).
Proof.
  unfold fillMissing. apply Forall_app. split; apply Forall_fmap, Forall_forall; intros;
    [apply recordInvariant_normalizeDataForSEOData | apply recordInvariant_unavailableRecord].
Qed.

Lemma recordInvariant_bulkFallback (kp : KeywordProvider) (rand : nat -> Q)
    (keywords : list string) (options : BulkOptions) :
  Forall recordInvariant (bulkFallback kp rand keywords options).
Proof.
  unfold bulkFallback.
  destruct (ahrefsClient kp) as [client|]; [|apply recordInvariant_mockKeywords].
  destruct (getKeywordMetricsCall client keywords _) as [msg|[|] [rows|]];
    try apply recordInvariant_mockKeywords.
  apply Forall_forall. intros r Hr. apply list_elem_of_In, in_map_iff in Hr as (row & <- & _).
  apply recordInvariant_normalizeAhrefsData.
Qed.

(** C3.  Whatever the configuration, the random stream and the clients'
    answers, every record that [getBulkKeywordMetrics] or
    [getKeywordMetrics] returns satisfies the invariant: a record marked
    unavailable has no metric and confidence 0, and every confidence lies
    between 0 and 1. *)
Theorem unified_record_invariant (kp : KeywordProvider) (rand : nat -> Q)
    (keywords : list string) (k : string) (options : BulkOptions) :
  Forall recordInvariant (getBulkKeywordMetrics kp rand keywords options)
  /\ recordInvariant (getKeywordMetrics kp rand k options).
Proof.
  split.
  - unfold getBulkKeywordMetrics.
    destruct (mockMode kp || (length keywords =? 0)%nat);
      [apply recordInvariant_mockKeywords|].
    destruct (dataForSEOClient kp) as [client|]; [|apply recordInvariant_bulkFallback].
    destruct (getKeywordData client keywords _ _) as [msg|[|] [rows|]];
      try apply recordInvariant_bulkFallback.
    apply recordInvariant_fillMissing.
  - unfold getKeywordMetrics.
    assert (Hfb : recordInvariant (singleFallback kp rand k options)).
    { unfold singleFallback.
      destruct (ahrefsClient kp) as [client|]; [|apply recordInvariant_getMockKeywordData].
      destruct (getKeywordOverview client k _) as [msg|[|] [row|]];
        try apply recordInvariant_getMockKeywordData.
      apply recordInvariant_normalizeAhrefsData. }
    destruct (mockMode kp); [apply recordInvariant_getMockKeywordData|].
    destruct (dataForSEOClient kp) as [client|]; [|exact Hfb].
    destruct (getKeywordData client [k] _ _) as [msg|[|] [[|row rows]|]]; try exact Hfb.
    apply recordInvariant_normalizeDataForSEOData.
Qed.

Lemma mockKeywords_mock (rand : nat -> Q) (keywords : list string) :
  forall i, Forall (fun r => source r = mock) (mockKeywords rand i keywords)
            /\ length (mockKeywords rand i keywords) = length keywords.
Proof.
  induction keywords as [|k ks IH]; intros i; cbn [mockKeywords length].
  - split; [constructor | reflexivity].
  - destruct (IH (i + 17)%nat) as [Hall Hlen]. split; [now constructor | now rewrite Hlen].
Qed.

Lemma fillMissing_sources (keywords : list string) (rows : list DataForSEORow) :
  Forall (fun r => (source r = dataforseo \/ source r = unavailable) /\ source r <> mock)
         (fillMissing keywords rows).
Proof.
  unfold fillMissing. apply Forall_app.
  split; apply Forall_fmap, Forall_forall; intros; cbn; split; (auto || discriminate).
Qed.

Lemma mapM_typedRow (rows : list RawLabsRow) :
  Forall (fun row => isRawString (raw_keyword row) = true) rows ->
  exists typed, mapM typedRow rows = Some typed.
Proof.
  intros Hall. apply (proj2 (mapM_is_Some typedRow rows)).
  eapply Forall_impl; [exact Hall|].
  intros [kw info]. unfold typedRow, compose. cbn [raw_keyword].
  destruct kw; [eauto | discriminate].
Qed.

Lemma mapM_typedRow_None (rows : list RawLabsRow) :
  Exists (fun row => isRawString (raw_keyword row) = false) rows ->
  mapM typedRow rows = None.
Proof.
  intros Hex. apply mapM_None. eapply Exists_impl; [exact Hex|].
  intros [kw info]. unfold typedRow. cbn [raw_keyword]. now destruct kw.
Qed.

Lemma rawRows_all_rejected
    (transport : list string -> ClientOutcome (list RawLabsItem)) (keywords : list string) :
  (forall batch, batch ∈ chunkArray keywords 1000 -> exists msg, transport batch = Rejected msg) ->
  rawRows transport keywords = [].
Proof.
  unfold rawRows. induction (chunkArray keywords 1000) as [|batch batches IH]; intros Hall.
  - reflexivity.
  - cbn [map concat]. destruct (Hall batch) as [msg ->]; [left|].
    cbn [rawBatchRows app]. apply IH. intros b Hb. apply Hall. now right.
Qed.

Lemma fillMissing_no_rows (keywords : list string) :
  fillMissing keywords [] = unavailableRecord <$> keywords.
Proof.
  unfold fillMissing. cbn [fmap list_fmap app]. f_equal.
  induction keywords as [|k ks IH]; [reflexivity|].
  rewrite filter_cons_True by set_solver. now rewrite IH.
Qed.

Lemma mapM_id_Some {A} (rows : list A) : mapM id (Some <$> rows) = Some rows.
Proof. apply mapM_Some. induction rows; constructor; [reflexivity | assumption]. Qed.

Lemma getBulkKeywordMetricsOver_dataForSEO (kp : ProviderOver) (rand : nat -> Q)
    (keywords : list string) (transport : list string -> ClientOutcome (list RawLabsItem)) :
  over_mockMode kp = false ->
  keywords <> [] ->
  over_dataForSEO kp = Some transport ->
  getBulkKeywordMetricsOver kp rand keywords
  = match mapM typedRow (rawRows transport keywords) with
    | Some typed => fillMissing keywords typed
    | None => viaAhrefs (over_ahrefs kp) rand keywords
    end.
Proof.
  intros Hmode Hne Hdfs. unfold getBulkKeywordMetricsOver, rawGetKeywordData.
  rewrite Hmode, Hdfs. destruct keywords; [contradiction | reflexivity].
Qed.

Lemma getBulkKeywordMetricsOver_ahrefs (kp : ProviderOver) (rand : nat -> Q)
    (keywords : list string) :
  over_mockMode kp = false ->
  keywords <> [] ->
  over_dataForSEO kp = None ->
  getBulkKeywordMetricsOver kp rand keywords = viaAhrefs (over_ahrefs kp) rand keywords.
Proof.
  intros Hmode Hne Hdfs. unfold getBulkKeywordMetricsOver.
  rewrite Hmode, Hdfs. destruct keywords; [contradiction | reflexivity].
Qed.

Lemma rawAhrefsGetKeywordMetrics_after (client : RawAhrefs) (rand : nat -> Q)
    (keywords : list string) :
  length (snd (rawAhrefsGetKeywordMetrics client rand keywords)) = length keywords.
Proof.
  unfold rawAhrefsGetKeywordMetrics.
  destruct (length keywords =? 0)%nat; [reflexivity|].
  destruct (fst (checkKeywordsExplorerAvailability _ _)); [|reflexivity].
  cbn [snd]. unfold arraySort.
  exact (Permutation_length (merge_sort_Permutation str_le keywords)).
Qed.

(** C1 (as amended).  With mock mode off and a non-empty request: a
    provider that holds the DataForSEO client returns only records marked
    [dataforseo] or [unavailable], never [mock], as long as every keyword
    in the rows of the client is a string, and when every request fails
    each requested keyword comes back marked [unavailable].  A provider
    that holds the Ahrefs client returns the rows the client resolves with,
    each marked [ahrefs]; when the client resolves without success or
    without data, the fallback of the class takes over and every record is
    a mock record, one per keyword. *)
Theorem bulk_sources_follow_answering_provider (kp : ProviderOver) (rand : nat -> Q)
    (keywords : list string) :
  over_mockMode kp = false ->
  keywords <> [] ->
  let out := getBulkKeywordMetricsOver kp rand keywords in
  (forall transport,
      over_dataForSEO kp = Some transport ->
      Forall (fun row => isRawString (raw_keyword row) = true) (rawRows transport keywords) ->
      Forall (fun r => (source r = dataforseo \/ source r = unavailable) /\ source r <> mock) out
      /\ ((forall batch, batch ∈ chunkArray keywords 1000 ->
                         exists msg, transport batch = Rejected msg) ->
          out = unavailableRecord <$> keywords))
  /\ (forall client success data,
        over_dataForSEO kp = None ->
        over_ahrefs kp = Some client ->
        fst (rawAhrefsGetKeywordMetrics client rand keywords) = ahrefsResolved success data ->
        (forall rows, success = true -> data = ahrefsArray (Some <$> rows) ->
           out = normalizeAhrefsData <$> rows
           /\ Forall (fun r => source r = ahrefs /\ source r <> mock) out)
        /\ (success = false \/ data = ahrefsNoData ->
            Forall (fun r => source r = mock) out /\ length out = length keywords)).
Proof.
  intros Hmode Hne. cbv zeta. split.
  - intros transport Hdfs Hstrings.
    rewrite (getBulkKeywordMetricsOver_dataForSEO kp rand keywords transport Hmode Hne Hdfs).
    destruct (mapM_typedRow _ Hstrings) as [typed Htyped]. rewrite Htyped.
    split; [apply fillMissing_sources|].
    intros Hfail. rewrite (rawRows_all_rejected transport keywords Hfail) in Htyped.
    injection Htyped as <-. apply fillMissing_no_rows.
  - intros client success data Hdfs Hah Hanswer.
    rewrite (getBulkKeywordMetricsOver_ahrefs kp rand keywords Hmode Hne Hdfs), Hah.
    unfold viaAhrefs.
    pose proof (rawAhrefsGetKeywordMetrics_after client rand keywords) as Hlen.
    destruct (rawAhrefsGetKeywordMetrics client rand keywords) as [answer after].
    cbn [fst snd] in Hanswer, Hlen. subst answer. split.
    + intros rows -> ->. cbn [ahrefsUsableRows]. rewrite mapM_id_Some.
      split; [reflexivity|].
      apply Forall_fmap, Forall_forall. intros row _. cbn. split; [reflexivity | discriminate].
    + intros Hwhy.
      assert (Hmock : match success with
                      | true => match ahrefsUsableRows data with
                                | Some rows => normalizeAhrefsData <$> rows
                                | None => mockKeywords rand 0 after
                                end
                      | false => mockKeywords rand 0 after
                      end = mockKeywords rand 0 after).
      { destruct Hwhy as [->| ->]; [reflexivity|]. now destruct success. }
      rewrite Hmock. destruct (mockKeywords_mock rand after 0%nat) as [Hall Hl].
      split; [exact Hall | now rewrite Hl].
Qed.

Lemma fillMissing_keys (rows : list DataForSEORow) :
  (fun k => toLowerCase (keyword k)) <$> (normalizeDataForSEOData <$> rows) = rowKey <$> rows.
Proof. rewrite <- list_fmap_compose. reflexivity. Qed.

Lemma fillMissing_length (keywords : list string) (rows : list DataForSEORow) :
  NoDup (toLowerCase <$> keywords) ->
  NoDup (rowKey <$> rows) ->
  (forall row, row ∈ rows -> rowKey row ∈ toLowerCase <$> keywords) ->
  length (fillMissing keywords rows) = length keywords.
Proof.
  intros Hkw Hrows Hsub. unfold fillMissing. rewrite fillMissing_keys.
  set (S := list_to_set (rowKey <$> rows) : gset string).
  rewrite length_app, !length_fmap.
  pose proof (filter_app_complement (fun k => toLowerCase k ∈ S) keywords) as Hperm.
  apply Permutation_length in Hperm. rewrite length_app in Hperm.
  assert (Hmatched : length (filter (fun k => toLowerCase k ∈ S) keywords) = length rows).
  { rewrite <- (length_fmap toLowerCase), <- (length_fmap rowKey rows).
    apply Permutation_length, NoDup_Permutation; [|assumption|].
    - apply (sublist_NoDup _ (toLowerCase <$> keywords)); [exact Hkw|].
      apply fmap_sublist, sublist_filter.
    - intros x. split.
      + intros (k & -> & Hk)%list_elem_of_fmap.
        apply list_elem_of_filter in Hk as [HS _].
        now apply elem_of_list_to_set in HS.
      + intros (row & -> & Hrow)%list_elem_of_fmap.
        pose proof (Hsub row Hrow) as Hin.
        apply list_elem_of_fmap in Hin as (k & Hk & Hin).
        apply list_elem_of_fmap. exists k. split; [assumption|].
        apply list_elem_of_filter. split; [|assumption].
        rewrite <- Hk. now apply elem_of_list_to_set, list_elem_of_fmap_2. }
  rewrite <- Hmatched. rewrite <- Hperm. reflexivity.
Qed.

(** C2 (as amended).  When the DataForSEO client resolves with rows, the
    requested keywords differ pairwise even ignoring case, and the rows
    carry pairwise different keywords (ignoring case) that were all
    requested, the result has one record per requested keyword: a keyword
    with a row gets a record of source [dataforseo] with positive
    confidence, a keyword without one gets a record of source [unavailable]
    with confidence 0 and every metric null, and there is no other kind of
    record. *)
Theorem partial_batch_fills_missing (kp : KeywordProvider) (rand : nat -> Q)
    (keywords : list string) (options : BulkOptions) (client : DataForSEOClient)
    (rows : list DataForSEORow) :
  mockMode kp = false ->
  keywords <> [] ->
  dataForSEOClient kp = Some client ->
  getKeywordData client keywords
    (getLocationCode (orDefault (location options) "US"))
    (orDefault (language options) "en") = Resolved true (Some rows) ->
  NoDup (toLowerCase <$> keywords) ->
  NoDup (rowKey <$> rows) ->
  (forall row, row ∈ rows -> rowKey row ∈ toLowerCase <$> keywords) ->
  let out := getBulkKeywordMetrics kp rand keywords options in
  length out = length keywords
  /\ (forall k, k ∈ keywords ->
        (toLowerCase k ∈ rowKey <$> rows ->
           exists r, r ∈ out /\ toLowerCase (keyword r) = toLowerCase k
                     /\ source r = dataforseo /\ (0 < confidence r)%Q)
        /\ (toLowerCase k ∉ rowKey <$> rows ->
              exists r, r ∈ out /\ keyword r = k /\ source r = unavailable
                        /\ (confidence r == 0)%Q /\ volume r = None /\ difficulty r = None
                        /\ cpc r = None /\ competition r = None /\ trend r = None))
  /\ Forall (fun r =>
               (source r = dataforseo /\ (0 < confidence r)%Q)
               \/ (source r = unavailable /\ (confidence r == 0)%Q /\ volume r = None
                   /\ difficulty r = None /\ cpc r = None /\ competition r = None
                   /\ trend r = None)) out.
Proof.
  intros Hmode Hne Hclient Hcall Hkw Hrows Hsub. cbv zeta.
  assert (Hout : getBulkKeywordMetrics kp rand keywords options = fillMissing keywords rows).
  { unfold getBulkKeywordMetrics. rewrite Hmode, Hclient, Hcall.
    destruct keywords; [contradiction | reflexivity]. }
  rewrite Hout. split; [now apply fillMissing_length|]. split.
  - intros k Hk. unfold fillMissing. rewrite fillMissing_keys. split.
    + intros (row & Hkey & Hrow)%list_elem_of_fmap.
      exists (normalizeDataForSEOData row). split; [|split; [|split]].
      * apply elem_of_app. left. now apply list_elem_of_fmap_2.
      * symmetry. exact Hkey.
      * reflexivity.
      * reflexivity.
    + intros Hnot. exists (unavailableRecord k). split.
      * apply elem_of_app. right. apply list_elem_of_fmap_2, list_elem_of_filter.
        split; [|assumption]. now rewrite elem_of_list_to_set.
      * cbn. repeat split; reflexivity.
  - unfold fillMissing. apply Forall_app. split; apply Forall_fmap, Forall_forall; intros.
    + left. split; reflexivity.
    + right. cbn. repeat split; reflexivity.
Qed.

(** The typed transports are among the untyped ones: over them the two
    embeddings of the bulk operation agree. *)
Lemma typedRow_items (items : list LabsItem) :
  Forall2 (fun row typed => typedRow row = Some typed)
          (rawItemRows (map rawOfItem items))
          (dataForSEOBatchRows (Resolved true (Some items))).
Proof.
  cbn [dataForSEOBatchRows].
  induction items as [|item items IH]; [constructor|].
  cbn [map rawItemRows rawOfItem omap list_omap].
  destruct item as [[[|c k]|] v]; cbn [item_keyword rawTruthy]; try exact IH.
  constructor; [reflexivity | exact IH].
Qed.

Lemma typedRow_batch (outcome : ClientOutcome (list LabsItem)) :
  Forall2 (fun row typed => typedRow row = Some typed)
          (rawBatchRows match outcome with
                        | Rejected msg => Rejected msg
                        | Resolved success payload => Resolved success (map rawOfItem <$> payload)
                        end)
          (dataForSEOBatchRows outcome).
Proof.
  destruct outcome as [msg|success [items|]]; try constructor.
  apply typedRow_items.
Qed.

Lemma typed_transport_rows (transport : list string -> ClientOutcome (list LabsItem))
    (keywords : list string) :
  mapM typedRow (rawRows (rawOfTransport transport) keywords)
  = Some (concat (map (fun batch => dataForSEOBatchRows (transport batch))
                      (chunkArray keywords 1000))).
Proof.
  apply mapM_Some. unfold rawRows, rawOfTransport.
  induction (chunkArray keywords 1000) as [|batch batches IH]; [constructor|].
  cbn [map concat]. apply Forall2_app; [apply typedRow_batch | exact IH].
Qed.

Lemma typed_transport_agrees (mock : bool)
    (transport : list string -> ClientOutcome (list LabsItem)) (rand : nat -> Q)
    (keywords : list string) (options : BulkOptions) :
  getBulkKeywordMetricsOver (mkProviderOver mock (Some (rawOfTransport transport)) None)
    rand keywords
  = getBulkKeywordMetrics (mkProvider mock (Some (dataForSEOOver transport)) None)
      rand keywords options.
Proof.
  unfold getBulkKeywordMetricsOver, getBulkKeywordMetrics, rawGetKeywordData.
  cbn [over_mockMode over_dataForSEO mockMode dataForSEOClient dataForSEOOver getKeywordData].
  unfold dataForSEOGetKeywordData.
  destruct (mock || (length keywords =? 0)%nat) eqn:Hfirst; [reflexivity|].
  apply orb_false_iff in Hfirst as [_ ->].
  now rewrite typed_transport_rows.
Qed.

(** C1 (counterexample).  Ahrefs is the one provider that is configured,
    Keywords Explorer is available, mock mode is off and two keywords are
    requested; the request for their metrics is answered without data.  The
    provider was queried, and yet every returned record is a mock record
    with generated metrics and confidence 0.5. *)
Lemma provider_failure_falls_back_to_mock :
  let client := mkRawAhrefs (Some true) None (fun _ => ahrefsResolved true ahrefsNoData) in
  let kp := constructedOver false preferAuto ahrefsConfigured (fun _ => Rejected "unused")
              client in
  let out := getBulkKeywordMetricsOver kp zeroRandom ["content marketing"; "seo tools"] in
  over_dataForSEO kp = None
  /\ over_ahrefs kp = Some client
  /\ keyword <$> out = ["content marketing"; "seo tools"]
  /\ source <$> out = [mock; mock]
  /\ volume <$> out = [Some (inject_Z 17000); Some (inject_Z 9000)]
  /\ confidence <$> out = [1 # 2; 1 # 2]%Q.
Proof. cbv zeta. repeat split; vm_compute; reflexivity. Qed.

Lemma bulk_sources_follow_answering_provider_witness :
  (let out := getBulkKeywordMetricsOver
                (mkProviderOver false (Some seoVolumeOnly) None) zeroRandom ["seo"; "ppc"] in
   source <$> out = [dataforseo; unavailable]
   /\ Forall (fun r => (source r = dataforseo \/ source r = unavailable) /\ source r <> mock)
             out)
  /\ getBulkKeywordMetricsOver
       (mkProviderOver false (Some (fun _ => Rejected "fetch failed")) None)
       zeroRandom ["seo"; "ppc"]
     = unavailableRecord <$> ["seo"; "ppc"]
  /\ (let out := getBulkKeywordMetricsOver
                   (mkProviderOver false None
                      (Some (mkRawAhrefs (Some true) None
                               (fun _ => ahrefsResolved true
                                           (ahrefsArray [Some (sampleAhrefsRow "seo")])))))
                   zeroRandom ["seo"; "ppc"] in
      out = [normalizeAhrefsData (sampleAhrefsRow "seo")]
      /\ Forall (fun r => source r = ahrefs /\ source r <> mock) out)
  /\ (let out := getBulkKeywordMetricsOver
                   (mkProviderOver false None
                      (Some (mkRawAhrefs (Some true) None
                               (fun _ => ahrefsResolved true ahrefsNoData))))
                   zeroRandom ["seo"; "ppc"] in
      Forall (fun r => source r = mock) out /\ length out = 2%nat).
Proof.
  cbv zeta. split; [|split; [|split]].
  - split; [vm_compute; reflexivity|].
    refine (proj1 (proj1 (bulk_sources_follow_answering_provider
                     (mkProviderOver false (Some seoVolumeOnly) None) zeroRandom
                     ["seo"; "ppc"] eq_refl _) seoVolumeOnly eq_refl _)).
    + discriminate.
    + apply (bool_decide_unpack _). vm_compute. exact I.
  - refine (proj2 (proj1 (bulk_sources_follow_answering_provider
                     (mkProviderOver false (Some (fun _ => Rejected "fetch failed")) None)
                     zeroRandom ["seo"; "ppc"] eq_refl _) (fun _ => Rejected "fetch failed")
                     eq_refl _) _).
    + discriminate.
    + constructor.
    + intros batch _. now exists "fetch failed".
  - refine (proj1 (proj2 (bulk_sources_follow_answering_provider
                     (mkProviderOver false None
                        (Some (mkRawAhrefs (Some true) None
                                 (fun _ => ahrefsResolved true
                                             (ahrefsArray [Some (sampleAhrefsRow "seo")])))))
                     zeroRandom ["seo"; "ppc"] eq_refl _) _ true
                     (ahrefsArray [Some (sampleAhrefsRow "seo")]) eq_refl eq_refl eq_refl)
                  [sampleAhrefsRow "seo"] eq_refl eq_refl).
    discriminate.
  - refine (proj2 (proj2 (bulk_sources_follow_answering_provider
                     (mkProviderOver false None
                        (Some (mkRawAhrefs (Some true) None
                                 (fun _ => ahrefsResolved true ahrefsNoData))))
                     zeroRandom ["seo"; "ppc"] eq_refl _) _ true ahrefsNoData
                     eq_refl eq_refl eq_refl) _).
    + discriminate.
    + now right.
Defined.

(** C2 (counterexample).  First request: DataForSEO answers with the row of
    "seo" alone; of the three requested keywords, "SEO" gets no record at
    all, so two records come back.  Second request: the DataForSEO call
    rejects and Ahrefs answers with one row for two keywords; one record
    comes back and nothing marks the other keyword unavailable.  Third
    request: DataForSEO answers with the row of "seo" twice; three records
    come back for two keywords. *)
Lemma partial_batch_cardinality_fails :
  let out1 := getBulkKeywordMetrics (mkProvider false (Some partialDataForSEO) None)
                zeroRandom ["seo"; "SEO"; "ppc"] defaultOptions in
  let out2 := getBulkKeywordMetrics
                (mkProvider false (Some rejectingDataForSEO) (Some partialAhrefs))
                zeroRandom ["seo"; "ppc"] defaultOptions in
  let out3 := getBulkKeywordMetrics (mkProvider false (Some repeatingDataForSEO) None)
                zeroRandom ["seo"; "ppc"] defaultOptions in
  (keyword <$> out1 = ["seo"; "ppc"] /\ source <$> out1 = [dataforseo; unavailable]
   /\ length out1 <> 3%nat)
  /\ (keyword <$> out2 = ["seo"] /\ source <$> out2 = [ahrefs] /\ length out2 <> 2%nat)
  /\ (keyword <$> out3 = ["seo"; "seo"; "ppc"]
      /\ source <$> out3 = [dataforseo; dataforseo; unavailable]
      /\ length out3 <> 2%nat).
Proof.
  cbv zeta. split; [|split]; (split; [vm_compute; reflexivity|]);
    (split; [vm_compute; reflexivity|]); vm_compute; discriminate.
Qed.

Lemma partial_batch_fills_missing_witness :
  let kp := mkProvider false (Some partialDataForSEO) None in
  let out := getBulkKeywordMetrics kp zeroRandom ["seo"; "ppc"] defaultOptions in
  NoDup (toLowerCase <$> ["seo"; "ppc"])
  /\ NoDup (rowKey <$> [sampleRow "seo"])
  /\ length out = 2%nat
  /\ keyword <$> out = ["seo"; "ppc"]
  /\ source <$> out = [dataforseo; unavailable].
Proof.
  cbv zeta.
  assert (H1 : NoDup (toLowerCase <$> ["seo"; "ppc"]))
    by (apply (bool_decide_unpack _); vm_compute; exact I).
  assert (H2 : NoDup (rowKey <$> [sampleRow "seo"]))
    by (apply (bool_decide_unpack _); vm_compute; exact I).
  split; [exact H1|]. split; [exact H2|].
  split; [|split; vm_compute; reflexivity].
  refine (proj1 (partial_batch_fills_missing
                   (mkProvider false (Some partialDataForSEO) None) zeroRandom
                   ["seo"; "ppc"] defaultOptions partialDataForSEO [sampleRow "seo"]
                   eq_refl _ eq_refl eq_refl H1 H2 _)).
  - discriminate.
  - intros row Hrow. apply list_elem_of_singleton in Hrow as ->.
    vm_compute. constructor.
Defined.

(** The DataForSEO client itself never rejects a non-empty request: it
    catches the failure of each batch.  With that client a failing upstream
    therefore ends in the partial-batch branch, with every keyword marked
    unavailable. *)
Lemma dataForSEOGetKeywordData_resolves
    (transport : list string -> ClientOutcome (list LabsItem)) (keywords : list string) :
  keywords <> [] ->
  exists rows, dataForSEOGetKeywordData transport keywords = Resolved true (Some rows).
Proof.
  intros Hne. unfold dataForSEOGetKeywordData.
  destruct keywords; [contradiction|]. cbn [length Nat.eqb]. eauto.
Qed.

Lemma dataForSEO_offline_marks_unavailable :
  getBulkKeywordMetrics (mkProvider false (Some dataForSEOOffline) None) zeroRandom
    ["seo tools"; "content marketing"] defaultOptions
  = [unavailableRecord "seo tools"; unavailableRecord "content marketing"].
Proof. vm_compute. reflexivity. Qed.

(** * Further properties of the code *)

(** ** Batching: [chunkArray] *)

Lemma chunkLoop_concat {A} (fuel : nat) (l : list A) (n : nat) :
  (0 < n)%nat -> (length l <= fuel)%nat -> concat (chunkLoop fuel l n) = l.
Proof.
  intros Hn. revert l. induction fuel as [|fuel IH]; intros l Hlen.
  - destruct l; [reflexivity | cbn in Hlen; lia].
  - destruct l as [|x l]; [reflexivity|].
    cbn [chunkLoop concat]. rewrite IH.
    + apply take_drop.
    + rewrite length_drop. cbn [length] in *. lia.
Qed.

(** X1.  Batching loses nothing: for a positive batch size the batches of
    [chunkArray], put end to end, are the input list, in its order. *)
Theorem chunkArray_concat {A} (array : list A) (chunkSize : nat) :
  (0 < chunkSize)%nat -> concat (chunkArray array chunkSize) = array.
Proof. intros Hn. now apply chunkLoop_concat. Qed.

Lemma chunkArray_concat_witness :
  concat (chunkArray ["a"; "b"; "c"; "d"; "e"] 2) = ["a"; "b"; "c"; "d"; "e"].
Proof. apply (chunkArray_concat ["a"; "b"; "c"; "d"; "e"] 2). lia. Defined.

Lemma chunkLoop_sizes {A} (fuel : nat) (l : list A) (n : nat) :
  (0 < n)%nat -> (length l <= fuel)%nat ->
  Forall (fun chunk => (0 < length chunk <= n)%nat) (chunkLoop fuel l n)
  /\ length (chunkLoop fuel l n) = ((length l + n - 1) / n)%nat.
Proof.
  intros Hn. revert l. induction fuel as [|fuel IH]; intros l Hlen.
  - destruct l; [|cbn in Hlen; lia]. split; [constructor|].
    cbn. symmetry. apply Nat.div_small. lia.
  - destruct l as [|x l].
    + split; [constructor|]. cbn. symmetry. apply Nat.div_small. lia.
    + cbn [chunkLoop].
      assert (Hdrop : (length (drop n (x :: l)) <= fuel)%nat)
        by (rewrite length_drop; cbn [length] in *; lia).
      destruct (IH _ Hdrop) as [Hall Hcount]. split.
      * constructor; [|exact Hall].
        rewrite length_take. cbn [length]. lia.
      * cbn [length]. rewrite Hcount, length_drop. cbn [length].
        destruct (le_lt_dec n (S (length l))) as [Hle|Hlt].
        -- replace (S (length l) + n - 1)%nat
             with ((S (length l) - n + n - 1) + 1 * n)%nat by lia.
           rewrite Nat.div_add by lia. lia.
        -- replace (S (length l) - n)%nat with 0%nat by lia.
           rewrite (Nat.div_small (0 + n - 1) n) by lia.
           replace (S (length l) + n - 1)%nat with (length l + 1 * n)%nat by lia.
           rewrite Nat.div_add by lia. rewrite Nat.div_small by lia. lia.
Qed.

(** X2.  For a positive batch size no batch of [chunkArray] is empty, none
    holds more than [chunkSize] items, and there are
    ceil(length / chunkSize) of them. *)
Theorem chunkArray_sizes {A} (array : list A) (chunkSize : nat) :
  (0 < chunkSize)%nat ->
  Forall (fun chunk => (0 < length chunk <= chunkSize)%nat) (chunkArray array chunkSize)
  /\ length (chunkArray array chunkSize)
     = ((length array + chunkSize - 1) / chunkSize)%nat.
Proof. intros Hn. now apply chunkLoop_sizes. Qed.

Lemma chunkArray_sizes_witness :
  Forall (fun chunk => (0 < length chunk <= 2)%nat) (chunkArray ["a"; "b"; "c"; "d"; "e"] 2)
  /\ length (chunkArray ["a"; "b"; "c"; "d"; "e"] 2) = ((5 + 2 - 1) / 2)%nat.
Proof. apply (chunkArray_sizes ["a"; "b"; "c"; "d"; "e"] 2). lia. Defined.

(** ** [DataForSEOClient.getKeywordData] and the provider on top of it *)

Lemma chunkArray_single {A} (l : list A) (n : nat) :
  l <> [] -> (length l <= n)%nat -> chunkArray l n = [l].
Proof.
  intros Hne Hlen. unfold chunkArray. destruct l as [|x l]; [contradiction|].
  cbn [length chunkLoop]. rewrite take_ge, drop_ge by exact Hlen.
  now destruct (length l).
Qed.

Lemma rawItemRows_origin (items : list RawLabsItem) :
  Forall (fun row =>
            rawTruthy (raw_keyword row) = true
            /\ exists volume, labsItem (raw_keyword row) volume ∈ items
                              /\ raw_info row = labsInfo volume)
         (rawItemRows items).
Proof.
  induction items as [|item items IH]; [constructor|].
  assert (Hrest : Forall (fun row =>
                            rawTruthy (raw_keyword row) = true
                            /\ exists volume, labsItem (raw_keyword row) volume ∈ item :: items
                                              /\ raw_info row = labsInfo volume)
                         (rawItemRows items)).
  { eapply Forall_impl; [exact IH|]. intros row (Ht & v & Hin & Hinfo).
    split; [exact Ht|]. exists v. split; [now right | exact Hinfo]. }
  destruct item as [|kw v]; [constructor|]. cbn [rawItemRows].
  destruct (rawTruthy kw) eqn:Hkw; [|exact Hrest].
  constructor; [|exact Hrest]. cbn [raw_keyword raw_info].
  split; [exact Hkw|]. exists v. split; [left | reflexivity].
Qed.

Lemma rawItemRows_complete (items : list RawLabsItem) :
  labsNull ∉ items ->
  rawItemRows items
  = omap (fun item =>
            match item with
            | labsItem kw volume =>
                if rawTruthy kw then Some (mkRawRow kw (labsInfo volume)) else None
            | labsNull => None
            end) items.
Proof.
  induction items as [|item items IH]; intros Hnull; [reflexivity|].
  destruct item as [|kw v]; [elim Hnull; left|].
  cbn [rawItemRows omap list_omap]. rewrite IH by (intros Hin; apply Hnull; now right).
  now destruct (rawTruthy kw).
Qed.

Lemma rawRows_origin (transport : list string -> ClientOutcome (list RawLabsItem))
    (keywords : list string) :
  Forall (fun row =>
            rawTruthy (raw_keyword row) = true
            /\ exists batch success items volume,
                 batch ∈ chunkArray keywords 1000
                 /\ transport batch = Resolved success (Some items)
                 /\ labsItem (raw_keyword row) volume ∈ items
                 /\ raw_info row = labsInfo volume)
         (rawRows transport keywords).
Proof.
  unfold rawRows. apply Forall_concat, Forall_fmap, Forall_forall. intros batch Hbatch.
  unfold compose, rawBatchRows.
  destruct (transport batch) as [msg|success [items|]] eqn:Hanswer; try constructor.
  eapply Forall_impl; [apply rawItemRows_origin|].
  intros row (Ht & v & Hin & Hinfo). split; [exact Ht|].
  now exists batch, success, items, v.
Qed.

(** X3.  [getKeywordData] rejects exactly the empty request.  Any other
    request resolves with [success] set, whatever happens to its batches.
    Every row stems from an item of a batch that was answered: it carries
    the keyword of the item, which is truthy, the volume of the item, or 0
    when the item has none, 0 for [cpc] and [competition] and no monthly
    searches.  A batch whose request fails contributes no row, so that there
    is no row at all when every request fails.  A request of at most 1000
    keywords that is answered with items none of which is [null] gets one
    row for each item with a truthy keyword, in the order of the answer. *)
Theorem getKeywordData_outcome
    (transport : list string -> ClientOutcome (list RawLabsItem)) (keywords : list string) :
  match rawGetKeywordData transport keywords with
  | Rejected _ => keywords = []
  | Resolved success payload =>
      keywords <> [] /\ success = true
      /\ exists rows,
           payload = Some rows
           /\ Forall (fun row =>
                        rawTruthy (raw_keyword row) = true
                        /\ exists batch success' items volume,
                             batch ∈ chunkArray keywords 1000
                             /\ transport batch = Resolved success' (Some items)
                             /\ labsItem (raw_keyword row) volume ∈ items
                             /\ raw_info row
                                = mkInfo (Some (match volume with Some v => v | None => 0%Q end))
                                         (Some 0%Q) (Some 0%Q) (Some [])) rows
           /\ ((forall batch, batch ∈ chunkArray keywords 1000 ->
                              exists msg, transport batch = Rejected msg) ->
               rows = [])
           /\ (forall success' items,
                 (length keywords <= 1000)%nat ->
                 transport keywords = Resolved success' (Some items) ->
                 labsNull ∉ items ->
                 rows = omap (fun item =>
                                match item with
                                | labsItem kw volume =>
                                    if rawTruthy kw
                                    then Some (mkRawRow kw
                                                 (mkInfo (Some (match volume with
                                                                | Some v => v
                                                                | None => 0%Q
                                                                end))
                                                         (Some 0%Q) (Some 0%Q) (Some [])))
                                    else None
                                | labsNull => None
                                end) items)
  end.
Proof.
  unfold rawGetKeywordData. destruct keywords as [|k ks]; [reflexivity|].
  cbn [length Nat.eqb]. split; [discriminate|]. split; [reflexivity|].
  eexists. split; [reflexivity|]. split; [apply rawRows_origin|]. split.
  - apply rawRows_all_rejected.
  - intros success' items Hlen Hanswer Hnull. unfold rawRows.
    rewrite chunkArray_single by (discriminate || exact Hlen).
    cbn [map concat]. rewrite Hanswer, app_nil_r. cbn [rawBatchRows].
    apply rawItemRows_complete. exact Hnull.
Qed.

(** A [null] among the items ends the batch: the rows before it stay, the
    items after it are never read. *)
Lemma null_item_ends_batch :
  rawBatchRows (Resolved true (Some [labsItem (rawString "seo") None; labsNull;
                                     labsItem (rawString "ppc") (Some 5%Q)]))
  = [mkRawRow (rawString "seo") (mkInfo (Some 0%Q) (Some 0%Q) (Some 0%Q) (Some []))].
Proof. reflexivity. Qed.

Lemma typedRow_shape (row : RawLabsRow) (typed : DataForSEORow) :
  rawTruthy (raw_keyword row) = true ->
  (exists volume, raw_info row = labsInfo volume) ->
  typedRow row = Some typed ->
  let r := normalizeDataForSEOData typed in
  source r = dataforseo /\ keyword r <> EmptyString /\ (exists v, volume r = Some v)
  /\ cpc r = Some 0%Q /\ competition r = Some 0%Q
  /\ difficulty r = None /\ trend r = Some [].
Proof.
  destruct row as [kw info]. cbn [raw_keyword raw_info]. intros Ht [v ->].
  unfold typedRow. cbn [raw_keyword raw_info].
  destruct kw as [[|c k]|b]; try discriminate.
  intros [= <-]. cbn. split; [reflexivity|]. split; [discriminate|].
  split; [eauto|]. now repeat split.
Qed.

Lemma typedRows_shape (rows : list RawLabsRow) (typed : list DataForSEORow) :
  Forall (fun row => rawTruthy (raw_keyword row) = true
                     /\ exists volume, raw_info row = labsInfo volume) rows ->
  Forall2 (fun row t => typedRow row = Some t) rows typed ->
  Forall (fun t =>
            let r := normalizeDataForSEOData t in
            source r = dataforseo /\ keyword r <> EmptyString
            /\ (exists v, volume r = Some v)
            /\ cpc r = Some 0%Q /\ competition r = Some 0%Q
            /\ difficulty r = None /\ trend r = Some []) typed.
Proof.
  intros Hrows Htyped. induction Htyped as [|row t rows typed Hrow _ IH]; [constructor|].
  apply Forall_cons in Hrows as [[Ht Hinfo] Hrows].
  constructor; [|now apply IH].
  exact (typedRow_shape row t Ht Hinfo Hrow).
Qed.

(** X4.  With the DataForSEO client of the repository as the only client
    and mock mode off, a non-empty bulk request comes back with mock
    records in one case only: a row of the client carries a keyword that
    is truthy without being a string.  Lower-casing it throws inside the
    branch, the error is caught, and every requested keyword comes back as
    a mock record, the usable rows included.  In every other case, also
    when requests fail, a record is either marked [dataforseo], with a
    volume, 0 for [cpc] and [competition], no difficulty and an empty
    trend, or it is the [unavailable] record of a requested keyword. *)
Theorem bulk_via_dataForSEO_records
    (transport : list string -> ClientOutcome (list RawLabsItem)) (rand : nat -> Q)
    (keywords : list string) :
  keywords <> [] ->
  let out := getBulkKeywordMetricsOver (mkProviderOver false (Some transport) None)
               rand keywords in
  if forallb (fun row => isRawString (raw_keyword row)) (rawRows transport keywords)
  then
    Forall (fun r =>
              (source r = dataforseo
               /\ keyword r <> EmptyString
               /\ (exists v, volume r = Some v)
               /\ cpc r = Some 0%Q /\ competition r = Some 0%Q
               /\ difficulty r = None /\ trend r = Some [])
              \/ (r = unavailableRecord (keyword r) /\ In (keyword r) keywords)) out
  else out = mockKeywords rand 0 keywords.
Proof.
  intros Hne. cbv zeta.
  rewrite (getBulkKeywordMetricsOver_dataForSEO (mkProviderOver false (Some transport) None)
             rand keywords transport eq_refl Hne eq_refl).
  cbn [over_ahrefs viaAhrefs].
  destruct (forallb _ (rawRows transport keywords)) eqn:Hall.
  - assert (Hstrings : Forall (fun row => isRawString (raw_keyword row) = true)
                              (rawRows transport keywords)).
    { apply Forall_forall. intros row Hin. apply list_elem_of_In in Hin.
      exact (proj1 (forallb_forall _ _) Hall row Hin). }
    destruct (mapM_typedRow _ Hstrings) as [typed Htyped]. rewrite Htyped.
    apply mapM_Some in Htyped.
    unfold fillMissing. apply Forall_app. split.
    + apply Forall_fmap.
      assert (Hpushed : Forall (fun row => rawTruthy (raw_keyword row) = true
                                          /\ exists volume, raw_info row = labsInfo volume)
                               (rawRows transport keywords)).
      { eapply Forall_impl; [apply rawRows_origin|].
        intros row (Ht & _ & _ & _ & v & _ & _ & _ & Hinfo). split; [exact Ht | now exists v]. }
      eapply Forall_impl; [exact (typedRows_shape _ _ Hpushed Htyped)|].
      intros t Ht. left. exact Ht.
    + apply Forall_fmap, Forall_forall. intros k Hin. right. cbn.
      split; [reflexivity|].
      apply list_elem_of_filter in Hin as [_ Hin]. apply list_elem_of_In in Hin. exact Hin.
  - rewrite mapM_typedRow_None; [reflexivity|].
    clear -Hall. induction (rawRows transport keywords) as [|row rows IH]; [discriminate|].
    cbn [forallb] in Hall. apply andb_false_iff in Hall as [Hrow|Hrest].
    + now left.
    + right. now apply IH.
Qed.

Lemma bulk_via_dataForSEO_records_witness :
  (let out := getBulkKeywordMetricsOver (mkProviderOver false (Some seoVolumeOnly) None)
                zeroRandom ["seo"; "ppc"] in
   source <$> out = [dataforseo; unavailable]
   /\ Forall (fun r =>
                (source r = dataforseo
                 /\ keyword r <> EmptyString
                 /\ (exists v, volume r = Some v)
                 /\ cpc r = Some 0%Q /\ competition r = Some 0%Q
                 /\ difficulty r = None /\ trend r = Some [])
                \/ (r = unavailableRecord (keyword r) /\ In (keyword r) ["seo"; "ppc"])) out)
  /\ getBulkKeywordMetricsOver (mkProviderOver false (Some numericKeyword) None)
       zeroRandom ["seo"; "ppc"]
     = mockKeywords zeroRandom 0 ["seo"; "ppc"].
Proof.
  cbv zeta. split; [split; [vm_compute; reflexivity|]|].
  - exact (bulk_via_dataForSEO_records seoVolumeOnly zeroRandom ["seo"; "ppc"]
             ltac:(discriminate)).
  - exact (bulk_via_dataForSEO_records numericKeyword zeroRandom ["seo"; "ppc"]
             ltac:(discriminate)).
Defined.

(** X5.  The single-keyword path differs from the bulk path: when the
    upstream fails or returns no item with a keyword, and Ahrefs is not
    configured, [getKeywordMetrics] answers with generated mock metrics. *)
Theorem single_without_row_is_mock
    (transport : list string -> ClientOutcome (list LabsItem)) (rand : nat -> Q)
    (k : string) (options : BulkOptions) :
  dataForSEOBatchRows (transport [k]) = [] ->
  getKeywordMetrics (mkProvider false (Some (dataForSEOOver transport)) None) rand k options
  = getMockKeywordData rand 0 k.
Proof.
  intros Hrows. unfold getKeywordMetrics.
  cbn [mockMode dataForSEOClient dataForSEOOver getKeywordData].
  unfold dataForSEOGetKeywordData. cbn [length Nat.eqb].
  replace (chunkArray [k] 1000) with [[k]] by reflexivity.
  cbn [map concat]. rewrite Hrows. reflexivity.
Qed.

Lemma single_without_row_is_mock_witness :
  source (getKeywordMetrics
            (mkProvider false (Some (dataForSEOOver (fun _ => Rejected "fetch failed"))) None)
            zeroRandom "seo" defaultOptions) = mock.
Proof.
  rewrite (single_without_row_is_mock (fun _ => Rejected "fetch failed") zeroRandom "seo"
             defaultOptions eq_refl).
  reflexivity.
Defined.

Lemma mockKeywords_keys (rand : nat -> Q) (keywords : list string) :
  forall i, keyword <$> mockKeywords rand i keywords = keywords.
Proof.
  induction keywords as [|k ks IH]; intros i; [reflexivity|].
  cbn [mockKeywords fmap list_fmap]. cbn. f_equal. apply IH.
Qed.

(** X6.  In mock mode the bulk operation consults no client: it returns one
    mock record per requested keyword, in the order of the request, each
    with confidence 0.5. *)
Theorem bulk_mock_mode (kp : KeywordProvider) (rand : nat -> Q)
    (keywords : list string) (options : BulkOptions) :
  mockMode kp = true ->
  let out := getBulkKeywordMetrics kp rand keywords options in
  out = mockKeywords rand 0 keywords
  /\ keyword <$> out = keywords
  /\ Forall (fun r => source r = mock) out.
Proof.
  intros Hmock out. subst out. unfold getBulkKeywordMetrics. rewrite Hmock. cbn [orb].
  split; [reflexivity|]. split; [apply mockKeywords_keys|].
  apply (mockKeywords_mock rand keywords 0%nat).
Qed.

Lemma bulk_mock_mode_witness :
  keyword <$> getBulkKeywordMetrics (mkProvider true (Some partialDataForSEO) None)
                zeroRandom ["seo"; "ppc"] defaultOptions
  = ["seo"; "ppc"].
Proof.
  exact (proj1 (proj2 (bulk_mock_mode (mkProvider true (Some partialDataForSEO) None)
                         zeroRandom ["seo"; "ppc"] defaultOptions eq_refl))).
Defined.

(** ** [GeminiClient]: cache, metrics and upstream calls *)

(** X7.  Cache round trip: what [setLLMCache] stores under a key is what
    [getLLMCache] returns for that key until 24 hours after the write, and
    nothing from then on. *)
Theorem llm_cache_round_trip {L} (st : GeminiClient L) (written now : Z)
    (key : string) (result : AnthropicResponse) :
  getLLMCache (setLLMCache st written key result) now key
  = if now <? written + 24 * 60 * 60 * 1000 then Some result else None.
Proof.
  unfold getLLMCache, setLLMCache. cbn [cache].
  rewrite lookup_insert_eq. reflexivity.
Qed.

Section GeminiFurther.
Context {L : Type} (limiter : RateLimiterOps L).
Variable upstream : nat -> UpstreamReply.
Variable intentPrompt : list string -> string -> string.
Variable titlePrompt : string -> string -> string -> string -> Z -> string.

(** A request that misses the cache, is admitted and is answered leaves its
    result in the cache; a later request under the same key, before the
    entry expires, is answered from it. *)
Lemma cached_after_success (prompt prompt' : string) (c : ascii) (k op op' : string)
    (now now' : Z) (st : GeminiClient L)
    (text : string) (usageMetadata : option (option Z * option Z))
    (candidate : option Candidate) (latency : Z) (nonce : string) :
  let key := String c k in
  cacheCheck (mkOptions (Some key) op) now st = None ->
  fst (tryConsume limiter now (rateLimiter st)) = true ->
  upstream (length (upstreamCalls st)) = Replied text usageMetadata candidate latency nonce ->
  now' < now + latency + cacheTtl ->
  exists result st1,
    makeLLMRequest limiter upstream prompt (mkOptions (Some key) op) now st = (inl result, st1)
    /\ data result = parseResponseText text
    /\ makeLLMRequest limiter upstream prompt' (mkOptions (Some key) op') now' st1
       = (inl (mkResponse (data result) (usage result) (model result) "cached"
                          ("cached_" ++ showZ now') 0),
          st1).
Proof.
  intros key Hmiss Hadmit Hreply Hfresh.
  unfold makeLLMRequest at 1. rewrite Hmiss. unfold requestAfterMiss.
  destruct (tryConsume limiter now (rateLimiter st)) as [canProceed rl] eqn:Hrl.
  cbn [fst] in Hadmit. subst canProceed.
  unfold performRequest. cbn [upstreamCalls]. rewrite Hreply.
  cbn [opt_cacheKey]. subst key.
  destruct (match usageMetadata with
            | Some (p, c0) => (match p with Some n => n | None => 0 end,
                               match c0 with Some n => n | None => 0 end)
            | None => (ceilDiv (Z.of_nat (String.length prompt)) 4,
                       ceilDiv (Z.of_nat (String.length text)) 4)
            end) as [inputTokens outputTokens].
  eexists. eexists. split; [reflexivity|]. split; [reflexivity|].
  unfold makeLLMRequest, cacheCheck, getLLMCache, setLLMCache.
  cbn [opt_cacheKey cache]. rewrite lookup_insert_eq. cbn [timestamp ttl entry_data].
  apply Z.ltb_lt in Hfresh. rewrite Hfresh. reflexivity.
Qed.

(** X8.  [classifyIntent] finds its own result again whatever the order of
    the keywords: once a request has been answered by the model, a request
    with the same keywords in another order and the same context, made
    before 24 hours have passed, returns the cached data and leaves the
    client as it is (no limiter token, no upstream call). *)
Theorem classifyIntent_reordered_is_cached (keywords keywords' : list string)
    (context : string) (now now' : Z) (st : GeminiClient L)
    (text : string) (usageMetadata : option (option Z * option Z))
    (candidate : option Candidate) (latency : Z) (nonce : string) :
  keywords <> [] ->
  (length keywords <= 500)%nat ->
  keywords ≡ₚ keywords' ->
  getLLMCache st now (intentCacheKey keywords context) = None ->
  fst (tryConsume limiter now (rateLimiter st)) = true ->
  upstream (length (upstreamCalls st)) = Replied text usageMetadata candidate latency nonce ->
  now' < now + latency + cacheTtl ->
  exists result st1,
    classifyIntent limiter upstream intentPrompt (mkClassification keywords context) now st
    = (inl result, st1)
    /\ data result = parseResponseText text
    /\ classifyIntent limiter upstream intentPrompt (mkClassification keywords' context) now' st1
       = (inl (mkResponse (data result) (usage result) (model result) "cached"
                          ("cached_" ++ showZ now') 0),
          st1).
Proof.
  intros Hne Hmax Hperm Hmiss Hadmit Hreply Hfresh.
  pose proof (Permutation_length Hperm) as Hlen.
  unfold classifyIntent. cbn [ic_keywords ic_contextJSON].
  assert (Hkey : intentCacheKey keywords' context = intentCacheKey keywords context).
  { unfold intentCacheKey. now rewrite (arraySort_permutation keywords keywords' Hperm). }
  rewrite Hkey, <- Hlen.
  destruct keywords as [|k0 ks]; [contradiction|]. cbn [length Nat.eqb].
  replace (500 <? S (length ks))%nat with false
    by (symmetry; apply Nat.ltb_ge; cbn [length] in Hmax; lia).
  set (keys := k0 :: ks) in *.
  change (intentCacheKey keys context)
    with (String "i"%char ("ntent:" ++ join "," (arraySort keys) ++ ":" ++ context)) in *.
  eapply cached_after_success; eassumption.
Qed.

(** X9.  [generateTitles] keys its cache on keyword, intent, content type
    and tone only: once a request has been answered by the model, a request
    that differs in [max_length] or [include_keyword] alone, made before 24
    hours have passed, gets the titles generated for the first one. *)
Theorem generateTitles_cache_ignores_max_length
    (request request' : AnthropicTitleGeneration)
    (now now' : Z) (st : GeminiClient L)
    (text : string) (usageMetadata : option (option Z * option Z))
    (candidate : option Candidate) (latency : Z) (nonce : string) :
  tg_keyword request' = tg_keyword request ->
  tg_intent request' = tg_intent request ->
  tg_content_type request' = tg_content_type request ->
  tg_tone request' = tg_tone request ->
  getLLMCache st now (titlesCacheKey request) = None ->
  fst (tryConsume limiter now (rateLimiter st)) = true ->
  upstream (length (upstreamCalls st)) = Replied text usageMetadata candidate latency nonce ->
  now' < now + latency + cacheTtl ->
  exists result st1,
    generateTitles limiter upstream titlePrompt request now st = (inl result, st1)
    /\ data result = parseResponseText text
    /\ generateTitles limiter upstream titlePrompt request' now' st1
       = (inl (mkResponse (data result) (usage result) (model result) "cached"
                          ("cached_" ++ showZ now') 0),
          st1).
Proof.
  intros Hk Hi Hc Ht Hmiss Hadmit Hreply Hfresh.
  unfold generateTitles.
  assert (Hkey : titlesCacheKey request' = titlesCacheKey request)
    by (unfold titlesCacheKey; now rewrite Hk, Hi, Hc, Ht).
  rewrite Hkey.
  change (titlesCacheKey request)
    with (String "t"%char ("itles:" ++ tg_keyword request ++ ":" ++ tg_intent request ++ ":"
                           ++ tg_content_type request ++ ":" ++ tg_tone request)) in *.
  eapply cached_after_success; eassumption.
Qed.

(** X10.  The counters balance: if [requests] equals [successes] plus
    [failures] before [makeLLMRequest], it does so afterwards, whatever the
    outcome; and [rateLimitHits] and [circuitBreakerTrips] never go down. *)
Theorem metrics_balance_preserved (prompt : string) (options : LLMOptions) (now : Z)
    (st : GeminiClient L) :
  requests (metrics st) = successes (metrics st) + failures (metrics st) ->
  let m' := metrics (snd (makeLLMRequest limiter upstream prompt options now st)) in
  requests m' = successes m' + failures m'
  /\ rateLimitHits (metrics st) <= rateLimitHits m'
  /\ circuitBreakerTrips (metrics st) <= circuitBreakerTrips m'.
Proof.
  intros Hbal. cbv zeta. unfold makeLLMRequest.
  destruct (cacheCheck options now st); [cbn [snd]; lia|].
  unfold requestAfterMiss.
  destruct (tryConsume limiter now (rateLimiter st)) as [[|] rl]; [|cbn; lia].
  unfold performRequest. cbn [upstreamCalls metrics cache rateLimiter].
  destruct (upstream (length (upstreamCalls st)))
    as [text usageMetadata candidate latency nonce|msg latency].
  - destruct (match usageMetadata with
              | Some (p, c0) => (match p with Some n => n | None => 0 end,
                                 match c0 with Some n => n | None => 0 end)
              | None => (ceilDiv (Z.of_nat (String.length prompt)) 4,
                         ceilDiv (Z.of_nat (String.length text)) 4)
              end) as [inputTokens outputTokens].
    destruct (opt_cacheKey options) as [[|c k]|]; cbn; lia.
  - destruct (includes "Circuit breaker" msg); cbn; lia.
Qed.

(** X11.  The network is reached at most once per request, and only after a
    cache miss and an admission by the limiter: the prompts that reached
    the upstream are those of before, with the prompt of this request added
    in exactly that case. *)
Theorem upstream_reached_once (prompt : string) (options : LLMOptions) (now : Z)
    (st : GeminiClient L) :
  upstreamCalls (snd (makeLLMRequest limiter upstream prompt options now st))
  = match cacheCheck options now st with
    | Some _ => upstreamCalls st
    | None =>
        if fst (tryConsume limiter now (rateLimiter st))
        then (upstreamCalls st ++ [prompt])%list
        else upstreamCalls st
    end.
Proof.
  unfold makeLLMRequest.
  destruct (cacheCheck options now st); [reflexivity|].
  unfold requestAfterMiss.
  destruct (tryConsume limiter now (rateLimiter st)) as [[|] rl]; [|reflexivity].
  unfold performRequest. cbn [upstreamCalls metrics cache rateLimiter fst].
  destruct (upstream (length (upstreamCalls st)))
    as [text usageMetadata candidate latency nonce|msg latency]; [|reflexivity].
  destruct (match usageMetadata with
            | Some (p, c0) => (match p with Some n => n | None => 0 end,
                               match c0 with Some n => n | None => 0 end)
            | None => (ceilDiv (Z.of_nat (String.length prompt)) 4,
                       ceilDiv (Z.of_nat (String.length text)) 4)
            end) as [inputTokens outputTokens].
  destruct (opt_cacheKey options) as [[|c k]|]; reflexivity.
Qed.

(** X12.  The cache is written at most once per request, and only on
    success: either the cache is left as it was, or the request carried a
    non-empty key, missed the cache, was answered, and the one write stores
    the returned result under that key.  A request that ends in an error
    writes nothing. *)
Theorem cache_written_on_success_only (prompt : string) (options : LLMOptions) (now : Z)
    (st : GeminiClient L) :
  let out := makeLLMRequest limiter upstream prompt options now st in
  match fst out with
  | inl result =>
      cache (snd out) = cache st
      \/ exists c k written,
           opt_cacheKey options = Some (String c k)
           /\ cacheCheck options now st = None
           /\ cache (snd out) = cache (setLLMCache st written (String c k) result)
  | inr _ => cache (snd out) = cache st
  end.
Proof.
  cbv zeta. unfold makeLLMRequest.
  destruct (cacheCheck options now st) eqn:Hcheck; [now left|].
  unfold requestAfterMiss.
  destruct (tryConsume limiter now (rateLimiter st)) as [[|] rl]; [|reflexivity].
  unfold performRequest. cbn [upstreamCalls metrics cache rateLimiter].
  destruct (upstream (length (upstreamCalls st)))
    as [text usageMetadata candidate latency nonce|msg latency]; [|reflexivity].
  destruct (match usageMetadata with
            | Some (p, c0) => (match p with Some n => n | None => 0 end,
                               match c0 with Some n => n | None => 0 end)
            | None => (ceilDiv (Z.of_nat (String.length prompt)) 4,
                       ceilDiv (Z.of_nat (String.length text)) 4)
            end) as [inputTokens outputTokens].
  cbn [fst snd].
  destruct (opt_cacheKey options) as [[|c k]|]; [now left | | now left].
  right. exists c, k, (now + latency). now repeat split.
Qed.
End GeminiFurther.

Lemma classifyIntent_reordered_is_cached_witness :
  exists result st1,
    classifyIntent tokenBucketOps answeringUpstream samplePrompt
      (mkClassification ["seo"; "ppc"] "{}") 2000 freshClient = (inl result, st1)
    /\ data result = parseResponseText "[]"
    /\ classifyIntent tokenBucketOps answeringUpstream samplePrompt
         (mkClassification ["ppc"; "seo"] "{}") 3000 st1
       = (inl (mkResponse (data result) (usage result) (model result) "cached"
                          ("cached_" ++ showZ 3000) 0),
          st1).
Proof.
  apply (classifyIntent_reordered_is_cached tokenBucketOps answeringUpstream samplePrompt
           ["seo"; "ppc"] ["ppc"; "seo"] "{}" 2000 3000 freshClient
           "[]" None None 5 "n").
  - discriminate.
  - cbn [length]. lia.
  - apply perm_swap.
  - reflexivity.
  - vm_compute. reflexivity.
  - reflexivity.
  - vm_compute. reflexivity.
Defined.

Lemma generateTitles_cache_ignores_max_length_witness :
  exists result st1,
    generateTitles tokenBucketOps answeringUpstream sampleTitlePrompt
      (mkTitleGeneration "seo" "commercial" "guide" "casual" (Some 40) None) 2000 freshClient
    = (inl result, st1)
    /\ data result = parseResponseText "[]"
    /\ generateTitles tokenBucketOps answeringUpstream sampleTitlePrompt
         (mkTitleGeneration "seo" "commercial" "guide" "casual" (Some 90) (Some false))
         3000 st1
       = (inl (mkResponse (data result) (usage result) (model result) "cached"
                          ("cached_" ++ showZ 3000) 0),
          st1).
Proof.
  apply (generateTitles_cache_ignores_max_length tokenBucketOps answeringUpstream
           sampleTitlePrompt
           (mkTitleGeneration "seo" "commercial" "guide" "casual" (Some 40) None)
           (mkTitleGeneration "seo" "commercial" "guide" "casual" (Some 90) (Some false))
           2000 3000 freshClient "[]" None None 5 "n");
    reflexivity.
Defined.

Lemma metrics_balance_preserved_witness :
  let m' := metrics (snd (makeLLMRequest tokenBucketOps answeringUpstream "p"
                            sampleKeyOptions 2000 freshClient)) in
  requests m' = successes m' + failures m'
  /\ rateLimitHits (metrics freshClient) <= rateLimitHits m'
  /\ circuitBreakerTrips (metrics freshClient) <= circuitBreakerTrips m'.
Proof.
  apply (metrics_balance_preserved tokenBucketOps answeringUpstream "p" sampleKeyOptions
           2000 freshClient).
  reflexivity.
Defined.

(** ** Generated metrics *)

Lemma Qfloor_bounds (x : Q) (a b : Z) :
  (inject_Z a <= x)%Q -> (x < inject_Z b)%Q -> a <= Qfloor x < b.
Proof.
  intros Ha Hb. split.
  - rewrite <- (Qfloor_Z a). now apply Qfloor_resp_le.
  - rewrite Zlt_Qlt. eapply Qle_lt_trans; [apply Qfloor_le | exact Hb].
Qed.

Lemma mockTrendPoints_bounds (rand : nat -> Q) (baseVolume : Q) (months : list string) :
  fairRandom rand ->
  (1000 <= baseVolume)%Q -> (baseVolume < 6000)%Q ->
  forall i,
    month <$> mockTrendPoints rand i baseVolume months = months
    /\ Forall (fun p => exists v, trend_volume p = inject_Z v /\ 500 <= v < 6500)
              (mockTrendPoints rand i baseVolume months).
Proof.
  intros Hrand Hlo Hhi. induction months as [|m ms IH]; intros i.
  - split; [reflexivity | constructor].
  - destruct (IH (S i)) as [Hmonths Hall]. cbn [mockTrendPoints]. split.
    + cbn [fmap list_fmap month]. f_equal. exact Hmonths.
    + constructor; [|exact Hall]. cbn [trend_volume]. unfold mathFloor.
      eexists. split; [reflexivity|].
      destruct (Hrand i) as [H0 H1].
      apply Qfloor_bounds; unfold inject_Z; lra.
Qed.

(** X13.  Whatever [Math.random] draws, a mock record echoes its keyword
    and stays in fixed ranges: the volume is a whole number from 1000 times
    the length of the keyword up to 5000 more, difficulty and competition
    are whole numbers from 0 to 99, the cpc is a whole number of cents from
    0.50 to 5.50, and the trend has the twelve months from Jan to Dec, each
    with a whole volume from 500 to 6500.  The arithmetic is exact here and
    rounds to doubles in the code; the ranges are stated so that rounding
    cannot leave them, every bound being a double itself: a sum may round
    up to its bound, which is why the upper ends 5000 and 6500 are
    included, while a draw below 1 times a factor stays below the
    factor. *)
Theorem mock_record_bounds (rand : nat -> Q) (i : nat) (k : string) :
  fairRandom rand ->
  let r := getMockKeywordData rand i k in
  let len := Z.of_nat (String.length k) in
  keyword r = k /\ source r = mock
  /\ (exists v, volume r = Some (inject_Z v) /\ 1000 * len <= v <= 1000 * len + 5000)
  /\ (exists d, difficulty r = Some (inject_Z d) /\ 0 <= d <= 99)
  /\ (exists cents, cpc r = Some (inject_Z cents / 100)%Q /\ 50 <= cents <= 550)
  /\ (exists c, competition r = Some (inject_Z c) /\ 0 <= c <= 99)
  /\ (exists t, trend r = Some t /\ month <$> t = MONTHS
                /\ Forall (fun p => exists v, trend_volume p = inject_Z v /\ 500 <= v <= 6500) t).
Proof.
  intros Hrand. cbv zeta. unfold getMockKeywordData.
  cbn [keyword source volume difficulty cpc competition trend].
  split; [reflexivity|]. split; [reflexivity|].
  pose proof (Hrand i) as [H0 H0'].
  pose proof (Hrand (i + 1)%nat) as [H1 H1'].
  pose proof (Hrand (i + 2)%nat) as [H2 H2'].
  pose proof (Hrand (i + 3)%nat) as [H3 H3'].
  pose proof (Hrand (i + 4)%nat) as [H4 H4'].
  split; [|split; [|split; [|split]]].
  - eexists. split; [reflexivity|].
    assert (Hb : 1000 * Z.of_nat (String.length k)
                 <= Qfloor (inject_Z (Z.of_nat (String.length k)) * 1000 + rand i * 5000)
                 < 1000 * Z.of_nat (String.length k) + 5000).
    { apply Qfloor_bounds.
      - rewrite inject_Z_mult.
        generalize (inject_Z (Z.of_nat (String.length k))). intros n.
        unfold inject_Z. lra.
      - rewrite inject_Z_plus, inject_Z_mult.
        generalize (inject_Z (Z.of_nat (String.length k))). intros n.
        unfold inject_Z. lra. }
    lia.
  - eexists. split; [reflexivity|].
    assert (Hb : 0 <= Qfloor (rand (i + 1)%nat * 100) < 100)
      by (apply Qfloor_bounds; unfold inject_Z; lra).
    lia.
  - eexists. split; [reflexivity|].
    assert (Hb : 50 <= Qfloor ((rand (i + 2)%nat * 5 + (1 # 2)) * 100 + (1 # 2)) < 551)
      by (apply Qfloor_bounds; unfold inject_Z; lra).
    lia.
  - eexists. split; [reflexivity|].
    assert (Hb : 0 <= Qfloor (rand (i + 3)%nat * 100) < 100)
      by (apply Qfloor_bounds; unfold inject_Z; lra).
    lia.
  - eexists. split; [reflexivity|]. unfold generateMockTrend.
    destruct (mockTrendPoints_bounds rand (1000 + rand (i + 4)%nat * 5000)%Q MONTHS Hrand
                ltac:(lra) ltac:(lra) (S (i + 4))) as [Hmonths Hall].
    split; [exact Hmonths|].
    eapply Forall_impl; [exact Hall|]. intros p (v & Hv & Hb). exists v. split; [exact Hv | lia].
Qed.

Lemma mock_record_bounds_witness :
  let r := getMockKeywordData halfRandom 0 "seo" in
  keyword r = "seo" /\ source r = mock
  /\ (exists v, volume r = Some (inject_Z v) /\ 1000 * 3 <= v <= 1000 * 3 + 5000)
  /\ (exists d, difficulty r = Some (inject_Z d) /\ 0 <= d <= 99)
  /\ (exists cents, cpc r = Some (inject_Z cents / 100)%Q /\ 50 <= cents <= 550)
  /\ (exists c, competition r = Some (inject_Z c) /\ 0 <= c <= 99)
  /\ (exists t, trend r = Some t /\ month <$> t = MONTHS
                /\ Forall (fun p => exists v, trend_volume p = inject_Z v /\ 500 <= v <= 6500) t).
Proof.
  apply (mock_record_bounds halfRandom 0 "seo").
  intros i. split; [discriminate | reflexivity].
Defined.

(** ** [AhrefsClient]: availability and generated rows *)

Lemma getMockKeywordMetrics_keys (rand : nat -> Q) (keywords : list string) :
  forall i, keyword <$> (normalizeAhrefsData <$> getMockKeywordMetrics rand i keywords)
            = keywords
            /\ Forall (fun r => source r = ahrefs /\ confidence r = (9 # 10)%Q
                                /\ volume r <> None /\ difficulty r <> None /\ cpc r <> None)
                      (normalizeAhrefsData <$> getMockKeywordMetrics rand i keywords).
Proof.
  induction keywords as [|k ks IH]; intros i.
  - split; [reflexivity | constructor].
  - destruct (IH (i + 7)%nat) as (Hkeys & Hall).
    cbn [getMockKeywordMetrics fmap list_fmap]. split.
    + cbn. f_equal. exact Hkeys.
    + constructor; [|exact Hall]. cbn. now repeat split.
Qed.

Lemma ahrefsGetKeywordMetrics_generated (known : option bool) (probe : option string)
    (response : ClientOutcome (list AhrefsRow)) (rand : nat -> Q) (keywords : list string) :
  keywords <> [] ->
  fst (checkKeywordsExplorerAvailability known probe) = false
  \/ (exists msg, response = Rejected msg) ->
  fst (ahrefsGetKeywordMetricsInPlace known probe response rand keywords)
  = Resolved true
      (Some (getMockKeywordMetrics rand 0
               (if fst (checkKeywordsExplorerAvailability known probe)
                then arraySort keywords else keywords))).
Proof.
  intros Hne Hwhy. unfold ahrefsGetKeywordMetricsInPlace.
  destruct keywords as [|k ks]; [contradiction|]. cbn [length Nat.eqb].
  destruct (checkKeywordsExplorerAvailability known probe) as [available known'].
  cbn [fst] in *. destruct available; [|reflexivity].
  destruct Hwhy as [Hno|[msg ->]]; [discriminate | reflexivity].
Qed.

(** X14.  When Keywords Explorer is not available on the plan, or the
    request for metrics fails, the Ahrefs client answers with rows it
    generates itself, and [getBulkKeywordMetrics] passes them on as provider
    data: one record per requested keyword, each marked [ahrefs] with
    confidence 0.9 and with volume, difficulty and cpc filled in.  The
    records come in the order of the request when Keywords Explorer is
    unavailable, and in sorted order when the request was sent and failed,
    because building the cache key has sorted the request by then. *)
Theorem bulk_via_ahrefs_generated (known : option bool) (probe : option string)
    (metrics : list string -> ClientOutcome (list AhrefsRow))
    (overview : string -> ClientOutcome AhrefsRow)
    (rand rand' : nat -> Q) (keywords : list string) (options : BulkOptions) :
  keywords <> [] ->
  fst (checkKeywordsExplorerAvailability known probe) = false
  \/ (exists msg, metrics keywords = Rejected msg) ->
  let out := getBulkKeywordMetrics
               (mkProvider false None (Some (ahrefsOver known probe metrics overview rand)))
               rand' keywords options in
  keyword <$> out
  = (if fst (checkKeywordsExplorerAvailability known probe)
     then arraySort keywords else keywords)
  /\ length out = length keywords
  /\ Forall (fun r => source r = ahrefs /\ confidence r = (9 # 10)%Q
                      /\ volume r <> None /\ difficulty r <> None /\ cpc r <> None) out.
Proof.
  intros Hne Hwhy. cbv zeta. unfold getBulkKeywordMetrics, bulkFallback.
  cbn [mockMode dataForSEOClient ahrefsClient ahrefsOver getKeywordMetricsCall orb].
  rewrite (ahrefsGetKeywordMetrics_generated _ _ _ _ _ Hne Hwhy).
  destruct keywords as [|k ks]; [contradiction|]. cbn [length Nat.eqb].
  change (map normalizeAhrefsData) with (fmap (M := list) normalizeAhrefsData).
  set (order := if fst (checkKeywordsExplorerAvailability known probe)
                then arraySort (k :: ks) else k :: ks).
  destruct (getMockKeywordMetrics_keys rand order 0%nat) as [Hkeys Hall].
  split; [exact Hkeys|]. split; [|exact Hall].
  rewrite <- (length_fmap keyword), Hkeys. subst order.
  destruct (fst (checkKeywordsExplorerAvailability known probe)); [|reflexivity].
  unfold arraySort. exact (Permutation_length (merge_sort_Permutation str_le (k :: ks))).
Qed.

Lemma bulk_via_ahrefs_generated_witness :
  let out := getBulkKeywordMetrics
               (mkProvider false None
                  (Some (ahrefsOver (Some true) None (fun _ => Rejected "fetch failed")
                           (fun _ => Rejected "unused") halfRandom)))
               zeroRandom ["seo"; "ppc"] defaultOptions in
  keyword <$> out = ["ppc"; "seo"]
  /\ length out = 2%nat
  /\ Forall (fun r => source r = ahrefs /\ confidence r = (9 # 10)%Q
                      /\ volume r <> None /\ difficulty r <> None /\ cpc r <> None) out.
Proof.
  apply (bulk_via_ahrefs_generated (Some true) None (fun _ => Rejected "fetch failed")
           (fun _ => Rejected "unused") halfRandom zeroRandom ["seo"; "ppc"] defaultOptions).
  - discriminate.
  - right. now exists "fetch failed".
Defined.

Lemma checkKeywordsExplorerAvailabilityNoting_quiet (known : option bool)
    (probe : option string) :
  checkKeywordsExplorerAvailabilityNoting known probe false
  = checkKeywordsExplorerAvailability known probe.
Proof. reflexivity. Qed.





(** ** [KeywordProvider.initializeProviders] *)

(** X16.  The constructor never sets up two clients.  The active provider
    names the client that is set ([mock] when none is), a client is only set
    when its credentials are configured, and DataForSEO wins when both
    are. *)
Theorem initializeProviders_single_client (preferred : PreferredProvider)
    (env : ProviderEnv) (dfsInstance : option DataForSEOClient)
    (ahrefsInstance : option AhrefsClient) :
  let state := initializeProviders preferred env dfsInstance ahrefsInstance in
  match ps_dataForSEOClient state, ps_ahrefsClient state with
  | Some client, None =>
      activeProvider state = dataforseo /\ dfsInstance = Some client
      /\ isDataForSEOConfigured env = true /\ preferred <> preferAhrefs
  | None, Some client =>
      activeProvider state = ahrefs /\ ahrefsInstance = Some client
      /\ isAhrefsConfigured env = true /\ preferred <> preferDataForSEO
  | None, None => activeProvider state = mock
  | Some _, Some _ => False
  end.
Proof.
  cbv zeta. unfold initializeProviders.
  destruct preferred, (isDataForSEOConfigured env), dfsInstance,
    (isAhrefsConfigured env), ahrefsInstance; cbn; repeat split; discriminate.
Qed.

(** [constructedOver] leaves the fields that [initializeProviders] sets
    when both [getInstance] calls succeed. *)
Lemma constructedOver_fields (mock : bool) (preferred : PreferredProvider)
    (env : ProviderEnv) (transport : list string -> ClientOutcome (list RawLabsItem))
    (ahrefsInstance : RawAhrefs) (dfs : DataForSEOClient) (ah : AhrefsClient) :
  let state := initializeProviders preferred env (Some dfs) (Some ah) in
  let kp := constructedOver mock preferred env transport ahrefsInstance in
  over_mockMode kp = mock
  /\ over_dataForSEO kp
     = match ps_dataForSEOClient state with Some _ => Some transport | None => None end
  /\ over_ahrefs kp
     = match ps_ahrefsClient state with Some _ => Some ahrefsInstance | None => None end.
Proof.
  cbv zeta. unfold constructedOver, initializeProviders.
  destruct preferred, (isDataForSEOConfigured env), (isAhrefsConfigured env);
    repeat split; reflexivity.
Qed.

(** X17.  For a provider set up by the constructor the cascade has one real
    provider only.  When DataForSEO was initialised, [getBulkKeywordMetrics]
    never consults Ahrefs, also when Ahrefs is configured and would answer:
    no record is marked [ahrefs], and when the DataForSEO branch throws on a
    keyword that is no string the result is mock records straight away. *)
Theorem constructed_provider_skips_ahrefs (preferred : PreferredProvider)
    (env : ProviderEnv) (transport : list string -> ClientOutcome (list RawLabsItem))
    (ahrefsInstance : RawAhrefs) (rand : nat -> Q) (keywords : list string) :
  preferred <> preferAhrefs ->
  isDataForSEOConfigured env = true ->
  let out := getBulkKeywordMetricsOver
               (constructedOver false preferred env transport ahrefsInstance)
               rand keywords in
  Forall (fun r => source r <> ahrefs) out
  /\ (keywords <> [] ->
      Exists (fun row => isRawString (raw_keyword row) = false) (rawRows transport keywords) ->
      out = mockKeywords rand 0 keywords).
Proof.
  intros Hpref Hconf. cbv zeta.
  assert (Hkp : constructedOver false preferred env transport ahrefsInstance
                = mkProviderOver false (Some transport) None).
  { unfold constructedOver. rewrite Hconf. destruct preferred; [| |contradiction]; reflexivity. }
  rewrite Hkp. split.
  - unfold getBulkKeywordMetricsOver, rawGetKeywordData.
    cbn [over_mockMode over_dataForSEO over_ahrefs orb viaAhrefs].
    assert (Hmock : Forall (fun r => source r <> ahrefs) (mockKeywords rand 0 keywords)).
    { eapply Forall_impl; [apply (mockKeywords_mock rand keywords 0%nat)|].
      intros r ->. discriminate. }
    destruct (length keywords =? 0)%nat; [exact Hmock|].
    destruct (mapM typedRow (rawRows transport keywords)) as [typed|]; [|exact Hmock].
    eapply Forall_impl; [apply fillMissing_sources|].
    intros r [[->| ->] _]; discriminate.
  - intros Hne Hex.
    rewrite (getBulkKeywordMetricsOver_dataForSEO (mkProviderOver false (Some transport) None)
               rand keywords transport eq_refl Hne eq_refl).
    now rewrite (mapM_typedRow_None _ Hex).
Qed.

Lemma constructed_provider_skips_ahrefs_witness :
  let answering := mkRawAhrefs (Some true) None
                     (fun _ => ahrefsResolved true (ahrefsArray [Some (sampleAhrefsRow "seo")])) in
  getBulkKeywordMetricsOver (mkProviderOver false None (Some answering)) zeroRandom
    ["seo"; "ppc"]
  = [normalizeAhrefsData (sampleAhrefsRow "seo")]
  /\ getBulkKeywordMetricsOver
       (constructedOver false preferAuto bothConfigured numericKeyword answering)
       zeroRandom ["seo"; "ppc"]
     = mockKeywords zeroRandom 0 ["seo"; "ppc"].
Proof.
  cbv zeta. split; [vm_compute; reflexivity|].
  refine (proj2 (constructed_provider_skips_ahrefs preferAuto bothConfigured numericKeyword
                   _ zeroRandom ["seo"; "ppc"] _ eq_refl) _ _).
  - discriminate.
  - discriminate.
  - right. left. reflexivity.
Defined.

(** ** What the bracket scan returns *)

Lemma bracketDepth_append (sc ec : ascii) (a b : string) :
  forall d, bracketDepth sc ec d (a ++ b) = bracketDepth sc ec (bracketDepth sc ec d a) b.
Proof.
  induction a as [|c a IH]; intros d; [reflexivity|].
  rewrite append_cons. cbn [bracketDepth]. apply IH.
Qed.

Lemma substring_prefix (mid post : string) :
  substring 0 (String.length mid) (mid ++ post) = mid.
Proof.
  induction mid as [|c mid IH]; [now destruct post|].
  rewrite append_cons. cbn [String.length substring]. now rewrite IH.
Qed.

Lemma substring_middle (pre mid post : string) :
  substring (String.length pre) (String.length mid) (pre ++ mid ++ post) = mid.
Proof.
  induction pre as [|c pre IH]; [exact (substring_prefix mid post)|].
  rewrite append_cons. cbn [String.length substring]. exact IH.
Qed.

Lemma length_append (a b : string) :
  String.length (a ++ b) = (String.length a + String.length b)%nat.
Proof.
  induction a as [|c a IH]; [reflexivity|].
  rewrite append_cons. cbn [String.length]. now rewrite IH.
Qed.

(** A split of [mid ++ c] splits [mid], unless it cuts off nothing. *)
Lemma push_split (mid : string) (c : ascii) (p q : string) :
  mid ++ str1 c = p ++ q -> q <> EmptyString ->
  exists q', q = q' ++ str1 c /\ mid = p ++ q'.
Proof.
  revert p. induction mid as [|x mid IH]; intros p Heq Hq.
  - rewrite append_nil_l in Heq. destruct p as [|y p].
    + rewrite append_nil_l in Heq. subst q. now exists EmptyString.
    + rewrite append_cons in Heq. unfold str1 in Heq. injection Heq as _ Heq.
      destruct p; [rewrite append_nil_l in Heq; congruence|discriminate].
  - rewrite append_cons in Heq. destruct p as [|y p].
    + rewrite append_nil_l in Heq. subst q. now exists (String x mid).
    + rewrite append_cons in Heq. injection Heq as -> Heq.
      destruct (IH p Heq Hq) as (q' & -> & ->). now exists q'.
Qed.

Lemma scanStarted_push (sc ec c : ascii) (done : string) (d : Z) (s0 : nat) :
  scanStarted sc ec done d s0 ->
  1 <= bracketDepthStep sc ec d c ->
  scanStarted sc ec (done ++ str1 c) (bracketDepthStep sc ec d c) s0.
Proof.
  intros (pre & mid' & -> & Hlen & -> & Hopen) Hpos.
  exists pre, (mid' ++ str1 c). split; [now rewrite append_assoc|]. split; [exact Hlen|].
  assert (Hd : bracketDepth sc ec 0 (String sc (mid' ++ str1 c))
               = bracketDepthStep sc ec (bracketDepth sc ec 0 (String sc mid')) c).
  { rewrite <- append_cons, bracketDepth_append. reflexivity. }
  split; [now rewrite Hd|].
  intros p q Heq Hp. rewrite <- append_cons in Heq.
  destruct q as [|y q].
  - rewrite append_nil_r in Heq. subst p. rewrite append_cons, Hd. exact Hpos.
  - destruct (push_split _ _ _ _ Heq ltac:(discriminate)) as (q' & _ & Hmid).
    now apply (Hopen p q').
Qed.

Lemma balancedLoop_returned (sc ec : ascii) (str : string) :
  sc <> ec ->
  forall rest done i d s r,
    str = done ++ rest -> i = String.length done ->
    match s with Some s0 => scanStarted sc ec done d s0 | None => True end ->
    balancedLoop str sc ec rest i d s = Returned r ->
    exists pre body post,
      str = pre ++ r ++ post
      /\ r = String sc (body ++ str1 ec)
      /\ bracketDepth sc ec 0 r = 0
      /\ openInside sc ec r.
Proof.
  intros Hne. induction rest as [|c rest IH]; intros done i d s r Hstr Hi Hinv Hret.
  - discriminate.
  - assert (Hstr' : str = (done ++ str1 c) ++ rest)
      by (now rewrite append_assoc).
    assert (Hi' : S i = String.length (done ++ str1 c))
      by (rewrite length_append; cbn [String.length str1]; lia).
    cbn [balancedLoop] in Hret.
    destruct (Ascii.eqb c sc) eqn:Hsc.
    + apply Ascii.eqb_eq in Hsc. subst c.
      assert (Hstep : bracketDepthStep sc ec d sc = d + 1)
        by (unfold bracketDepthStep; now rewrite Ascii.eqb_refl).
      apply (IH _ _ _ _ _ Hstr' Hi') in Hret; [exact Hret|].
      destruct (d =? 0) eqn:Hd.
      * apply Z.eqb_eq in Hd. subst d.
        exists done, EmptyString. split; [reflexivity|]. split; [now symmetry|].
        split; [cbn; unfold bracketDepthStep; now rewrite Ascii.eqb_refl|].
        intros p q Heq Hp. destruct p as [|y p]; [contradiction|].
        rewrite append_cons in Heq. injection Heq as <- Heq.
        destruct p; [|discriminate]. cbn. unfold bracketDepthStep.
        rewrite Ascii.eqb_refl. lia.
      * destruct s as [s0|]; [|exact I].
        rewrite <- Hstep. apply scanStarted_push; [exact Hinv|].
        destruct Hinv as (pre & mid' & _ & _ & -> & Hopen).
        specialize (Hopen (String sc mid') EmptyString).
        rewrite append_nil_r in Hopen. specialize (Hopen eq_refl ltac:(discriminate)).
        rewrite Hstep. lia.
    + assert (Hpush : forall s0, scanStarted sc ec done d s0 ->
                                 1 <= bracketDepthStep sc ec d c ->
                                 scanStarted sc ec (done ++ str1 c)
                                   (bracketDepthStep sc ec d c) s0)
        by (intros; now apply scanStarted_push).
      destruct (Ascii.eqb c ec) eqn:Hec.
      * apply Ascii.eqb_eq in Hec. subst c.
        assert (Hstep : bracketDepthStep sc ec d ec = d - 1)
          by (unfold bracketDepthStep; now rewrite Hsc, Ascii.eqb_refl).
        destruct s as [s0|].
        -- destruct (d - 1 =? 0) eqn:Hd.
           ++ injection Hret as <-. apply Z.eqb_eq in Hd.
              destruct Hinv as (pre & mid' & -> & Hlen & Hdepth & Hopen).
              exists pre, mid', rest.
              assert (E : str = pre ++ String sc (mid' ++ str1 ec) ++ rest).
              { rewrite Hstr, append_assoc. f_equal. rewrite !append_cons. f_equal.
                now rewrite append_assoc. }
              assert (Hsub : substring s0 (S i - s0) str = String sc (mid' ++ str1 ec)).
              { replace (S i - s0)%nat with (String.length (String sc (mid' ++ str1 ec))).
                - rewrite <- Hlen, E. apply substring_middle.
                - rewrite Hi, length_append. cbn [String.length].
                  rewrite length_append. cbn [String.length str1]. lia. }
              rewrite Hsub. split; [exact E|].
              split; [reflexivity|].
              assert (Hzero : bracketDepth sc ec 0 (String sc (mid' ++ str1 ec)) = 0).
              { rewrite <- append_cons, bracketDepth_append, <- Hdepth. cbn.
                rewrite Hstep. exact Hd. }
              split; [exact Hzero|].
              intros p q Heq Hp Hq. rewrite <- append_cons in Heq.
              destruct (push_split _ _ _ _ Heq Hq) as (q' & _ & Hmid).
              now apply (Hopen p q').
           ++ apply (IH _ _ _ _ _ Hstr' Hi') in Hret; [exact Hret|].
              rewrite <- Hstep. apply Hpush; [exact Hinv|].
              apply Z.eqb_neq in Hd.
              destruct Hinv as (pre & mid' & _ & _ & -> & Hopen).
              specialize (Hopen (String sc mid') EmptyString).
              rewrite append_nil_r in Hopen. specialize (Hopen eq_refl ltac:(discriminate)).
              rewrite Hstep. lia.
        -- apply (IH _ _ _ _ _ Hstr' Hi') in Hret; [exact Hret | exact I].
      * assert (Hstep : bracketDepthStep sc ec d c = d)
          by (unfold bracketDepthStep; now rewrite Hsc, Hec).
        apply (IH _ _ _ _ _ Hstr' Hi') in Hret; [exact Hret|].
        destruct s as [s0|]; [|exact I].
        rewrite <- Hstep. apply Hpush; [exact Hinv|].
        destruct Hinv as (pre & mid' & _ & _ & -> & Hopen).
        specialize (Hopen (String sc mid') EmptyString).
        rewrite append_nil_r in Hopen. specialize (Hopen eq_refl ltac:(discriminate)).
        rewrite Hstep. lia.
Qed.

(** X18.  What [findBalancedJSON] isolates, when it is not asked to complete
    anything, is a piece of the input that begins with the opening bracket
    and ends with the closing one, in which the two kinds of bracket are
    equally many, and in which the depth never returns to zero before the
    last character. *)
Theorem findBalancedJSON_returns_balanced (str : string) (startChar endChar : ascii)
    (r : string) :
  startChar <> endChar ->
  findBalancedJSON str startChar endChar false = Some r ->
  exists pre body post,
    str = pre ++ r ++ post
    /\ r = String startChar (body ++ str1 endChar)
    /\ bracketDepth startChar endChar 0 r = 0
    /\ openInside startChar endChar r.
Proof.
  intros Hne Hfind. unfold findBalancedJSON in Hfind.
  destruct (balancedLoop str startChar endChar str 0 0 None) as [r'|d s] eqn:Hloop.
  - injection Hfind as ->.
    apply (balancedLoop_returned startChar endChar str Hne str EmptyString 0%nat 0 None r);
      [reflexivity | reflexivity | exact I | exact Hloop].
  - destruct s; discriminate.
Qed.

Lemma findBalancedJSON_returns_balanced_witness :
  exists pre body post,
    "Here: [1, [2]] thanks" = pre ++ "[1, [2]]" ++ post
    /\ "[1, [2]]" = String "["%char (body ++ str1 "]"%char)
    /\ bracketDepth "["%char "]"%char 0 "[1, [2]]" = 0
    /\ openInside "["%char "]"%char "[1, [2]]".
Proof.
  apply (findBalancedJSON_returns_balanced "Here: [1, [2]] thanks" "["%char "]"%char
           "[1, [2]]").
  - discriminate.
  - reflexivity.
Defined.

(** ** Fence stripping *)

Lemma codeBlockMatch_unfold (c : ascii) (text : string) :
  codeBlockMatch (String c text)
  = if String.prefix FENCE (String c text)
    then Some (trimStart
                 (if String.prefix "json" (string_drop 3 (String c text))
                  then string_drop 4 (string_drop 3 (String c text))
                  else string_drop 3 (String c text)))
    else codeBlockMatch text.
Proof. reflexivity. Qed.

Lemma stripTrailingFence_unfold (c : ascii) (s : string) :
  stripTrailingFence (String c s)
  = if String.prefix FENCE (String c s) && allWhitespace (string_drop 3 (String c s))
    then EmptyString
    else String c (stripTrailingFence s).
Proof. reflexivity. Qed.

Lemma prefix_fence_other (c : ascii) (s : string) :
  Ascii.eqb c "`"%char = false -> String.prefix FENCE (String c s) = false.
Proof.
  intros Hc. unfold FENCE. cbn [String.prefix].
  destruct (ascii_dec "`"%char c) as [<-|_]; [discriminate | reflexivity].
Qed.

Lemma codeBlockMatch_skip (pre s : string) :
  noBacktick pre = true -> codeBlockMatch (pre ++ s) = codeBlockMatch s.
Proof.
  induction pre as [|c pre IH]; intros Hpre; [reflexivity|].
  cbn [noBacktick] in Hpre. apply andb_true_iff in Hpre as [Hc Hpre].
  apply negb_true_iff in Hc.
  rewrite append_cons, codeBlockMatch_unfold, prefix_fence_other by exact Hc.
  now apply IH.
Qed.

Lemma stripTrailingFence_last (x : string) :
  noBacktick x = true -> stripTrailingFence (x ++ FENCE) = x.
Proof.
  induction x as [|c x IH]; intros Hx; [reflexivity|].
  cbn [noBacktick] in Hx. apply andb_true_iff in Hx as [Hc Hx].
  apply negb_true_iff in Hc.
  rewrite append_cons, stripTrailingFence_unfold, prefix_fence_other by exact Hc.
  cbn [andb]. now rewrite IH.
Qed.

Lemma noBacktick_append (a b : string) :
  noBacktick (a ++ b) = noBacktick a && noBacktick b.
Proof.
  induction a as [|c a IH]; [reflexivity|].
  rewrite append_cons. cbn [noBacktick]. now rewrite IH, andb_assoc.
Qed.

Lemma allWhitespace_append (a b : string) :
  allWhitespace (a ++ b) = allWhitespace a && allWhitespace b.
Proof.
  induction a as [|c a IH]; [reflexivity|].
  rewrite append_cons. cbn [allWhitespace]. now rewrite IH, andb_assoc.
Qed.

Lemma trimEnd_newline (x : string) : trimEnd (x ++ str1 NEWLINE) = trimEnd x.
Proof.
  induction x as [|c x IH]; [reflexivity|].
  rewrite append_cons. cbn [trimEnd allWhitespace].
  rewrite allWhitespace_append, IH. cbn [allWhitespace str1].
  change (isJSWhitespace NEWLINE) with true. cbn [andb]. now rewrite andb_true_r.
Qed.

Lemma fenced_body_trim (body : string) :
  noBacktick body = true ->
  trim (stripTrailingFence (trimStart (body ++ str1 NEWLINE ++ FENCE))) = trim body.
Proof.
  induction body as [|c body IH]; intros Hbody; [reflexivity|].
  pose proof Hbody as Hall.
  cbn [noBacktick] in Hbody. apply andb_true_iff in Hbody as [Hc Hbody].
  rewrite append_cons. unfold trim. cbn [trimStart].
  destruct (isJSWhitespace c) eqn:Hws; [now apply IH|].
  rewrite <- append_cons, <- append_assoc, stripTrailingFence_last.
  - rewrite append_cons. cbn [trimStart]. rewrite Hws.
    rewrite <- append_cons. apply trimEnd_newline.
  - rewrite noBacktick_append, Hall. reflexivity.
Qed.

(** X19.  A fenced block is unwrapped exactly: for a response that consists
    of any text without backticks, an opening fence with or without the
    [json] tag, a line break, a body without backticks, a line break and the
    closing fence, the text handed to [JSON.parse] is the trimmed body; when
    that parses, its value is the parsed data. *)
Theorem fenced_json_is_unwrapped (pre body : string) (tagged : bool) (v : json) :
  noBacktick pre = true ->
  noBacktick body = true ->
  JSON_parse (trim body) = Some v ->
  let text := pre ++ FENCE ++ (if tagged then "json" else "") ++ str1 NEWLINE
              ++ body ++ str1 NEWLINE ++ FENCE in
  fencedJsonText text = trim body /\ parseResponseText text = DataJSON v.
Proof.
  intros Hpre Hbody Hparse text.
  assert (Htext : fencedJsonText text = trim body).
  { unfold fencedJsonText. subst text. rewrite codeBlockMatch_skip by exact Hpre.
    assert (Hgroup : codeBlockMatch
                       (FENCE ++ (if tagged then "json" else "") ++ str1 NEWLINE
                        ++ body ++ str1 NEWLINE ++ FENCE)
                     = Some (trimStart (body ++ str1 NEWLINE ++ FENCE)))
      by (destruct tagged; reflexivity).
    rewrite Hgroup. now apply fenced_body_trim. }
  split; [exact Htext|].
  unfold parseResponseText. now rewrite Htext, Hparse.
Qed.

Lemma fenced_json_is_unwrapped_witness :
  let text := "Here you go: " ++ FENCE ++ "json" ++ str1 NEWLINE
              ++ js "[{'keyword':'a'}]" ++ str1 NEWLINE ++ FENCE in
  fencedJsonText text = trim (js "[{'keyword':'a'}]")
  /\ parseResponseText text
     = DataJSON (JArray [JObject [(ustr "keyword", JString (ustr "a"))]]).
Proof.
  apply (fenced_json_is_unwrapped "Here you go: " (js "[{'keyword':'a'}]") true
           (JArray [JObject [(ustr "keyword", JString (ustr "a"))]]));
    vm_compute; reflexivity.
Defined.

(** ** The adapter's keywords *)

Lemma orElse_truthy (value : option json) (fallback : json) :
  truthy (Some fallback) = true -> truthy (Some (orElse value fallback)) = true.
Proof.
  intros Hfb. unfold orElse. destruct value as [v|]; [|exact Hfb].
  destruct (truthy (Some v)) eqn:Hv; [exact Hv | exact Hfb].
Qed.

Lemma orElse_cases (value : option json) (fallback : json) :
  truthy (Some (orElse value fallback)) = true \/ orElse value fallback = fallback.
Proof.
  unfold orElse. destruct value as [v|]; [|now right].
  destruct (truthy (Some v)) eqn:Hv; [now left | now right].
Qed.

Lemma mapKeyword_defaults (k : json) (mapped : LLMKeyword) :
  mapKeyword k = Some mapped ->
  k <> JNull
  /\ (truthy (Some (lk_keyword mapped)) = true \/ lk_keyword mapped = JString [])
  /\ truthy (Some (lk_intent mapped)) = true
  /\ truthy (Some (lk_relevance_score mapped)) = true
  /\ match lk_reasoning mapped with Some v => truthy (Some v) = true | None => True end.
Proof.
  intros Hmap.
  assert (Hk : k <> JNull) by (intros ->; discriminate).
  split; [exact Hk|].
  assert (Hsome : Some mapped
                  = Some (mkLLMKeyword
                            (orElse (getProperty k "keyword")
                                    (orElse (getProperty k "keyword_name") (JString [])))
                            (orElse (getProperty k "intent") (JString (ustr "informational")))
                            (orElse (getProperty k "relevance_score")
                                    (orElse (getProperty k "relevanceScore") (JNumber "0.5")))
                            (if truthy (getProperty k "reasoning")
                             then getProperty k "reasoning" else None)))
    by (rewrite <- Hmap; destruct k; try reflexivity; contradiction).
  injection Hsome as ->. cbn [lk_keyword lk_intent lk_relevance_score lk_reasoning].
  split; [|split; [|split]].
  - destruct (orElse_cases (getProperty k "keyword")
                (orElse (getProperty k "keyword_name") (JString []))) as [H|H];
      [now left|]. rewrite H.
    destruct (orElse_cases (getProperty k "keyword_name") (JString [])) as [H'|H'];
      [now left | now right].
  - now apply orElse_truthy.
  - apply orElse_truthy, orElse_truthy. reflexivity.
  - destruct (truthy (getProperty k "reasoning")) eqn:Hr; [|exact I].
    destruct (getProperty k "reasoning"); [exact Hr | exact I].
Qed.

(** X20.  What the adapter makes of the parsed data.  A string, whether
    it is the raw text or a string that the parser decoded, goes through the
    adapter's own extraction.  The mapping throws exactly when the keywords
    are not an array or one of them is [null].  Otherwise there is one
    mapped keyword per item, [total_generated] counts the items, and in
    every mapped keyword the intent and the relevance score are truthy (an
    absent, empty or zero value has been replaced by [informational] or
    0.5), the keyword is truthy or the empty string, and the reasoning is
    truthy or absent. *)
Theorem expandKeywords_mapping (data : ParsedData) (keywords : json) :
  adapterKeywords data = Some keywords ->
  (forall units text, data = DataJSON (JString units) -> unitsString units = Some text ->
     keywords = adapterKeywordsOfString text)
  /\ expandKeywordsMapped data = Some (mapKeywords keywords)
  /\ match mapKeywords keywords with
     | mappedKeywords mapped total =>
         exists items,
           keywords = JArray items
           /\ Forall (fun k => k <> JNull) items
           /\ total = length items /\ length mapped = length items
           /\ Forall (fun m =>
                        (truthy (Some (lk_keyword m)) = true \/ lk_keyword m = JString [])
                        /\ truthy (Some (lk_intent m)) = true
                        /\ truthy (Some (lk_relevance_score m)) = true
                        /\ match lk_reasoning m with
                           | Some v => truthy (Some v) = true
                           | None => True
                           end) mapped
     | mappingThrows =>
         match keywords with
         | JArray items => In JNull items
         | _ => True
         end
     end.
Proof.
  intros Hkeywords. split; [|split].
  - intros units text -> Htext. cbn [adapterKeywords] in Hkeywords.
    rewrite Htext in Hkeywords. now injection Hkeywords as <-.
  - unfold expandKeywordsMapped. now rewrite Hkeywords.
  - unfold mapKeywords. destruct keywords as [| | | |items|]; try exact I.
    destruct (mapM mapKeyword items) as [mapped|] eqn:Hmap.
    + exists items. split; [reflexivity|].
      apply mapM_Some in Hmap. split; [|split; [reflexivity|split]].
      * clear Hkeywords. induction Hmap as [|k m items mapped Hkm _ IH];
          constructor; [|exact IH].
        now apply mapKeyword_defaults in Hkm as (H & _).
      * symmetry. now apply (Forall2_length _ _ _ Hmap).
      * clear Hkeywords. induction Hmap as [|k m items mapped Hkm _ IH];
          constructor; [|exact IH].
        now apply mapKeyword_defaults in Hkm as (_ & H).
    + apply mapM_None in Hmap. apply Exists_exists in Hmap as (k & Hin & Hk).
      destruct k; try discriminate.
      apply list_elem_of_In in Hin. exact Hin.
Qed.

Lemma expandKeywords_mapping_witness :
  let data := DataJSON (JString (ustr (js "[{'keyword':'a','relevance_score':1e-400}]"))) in
  let item := JObject [(ustr "keyword", JString (ustr "a"));
                       (ustr "relevance_score", JNumber "1e-400")] in
  adapterKeywords data = Some (JArray [item])
  /\ expandKeywordsMapped data
     = Some (mappedKeywords
               [mkLLMKeyword (JString (ustr "a")) (JString (ustr "informational"))
                             (JNumber "0.5") None] 1).
Proof.
  cbv zeta.
  assert (Hdata : adapterKeywords
                    (DataJSON (JString (ustr (js "[{'keyword':'a','relevance_score':1e-400}]"))))
                  = Some (JArray [JObject [(ustr "keyword", JString (ustr "a"));
                                           (ustr "relevance_score", JNumber "1e-400")]]))
    by (vm_compute; reflexivity).
  split; [exact Hdata|].
  rewrite (proj1 (proj2 (expandKeywords_mapping _ _ Hdata))).
  vm_compute. reflexivity.
Defined.

(** ** Mock suggestions *)

Lemma suggestionMark_suffix (seed suffix : string) :
  String.length suffix <> 7%nat -> String.length suffix <> 8%nat ->
  suggestionMark seed (seed ++ suffix) = suffix.
Proof.
  intros H7 H8. unfold suggestionMark. rewrite length_append.
  replace (_ =? _)%nat with false by (symmetry; apply Nat.eqb_neq; lia).
  replace (_ =? _)%nat with false by (symmetry; apply Nat.eqb_neq; lia).
  apply string_drop_append.
Qed.

Lemma mockSuggestions_NoDup (seed : string) : NoDup (mockSuggestions seed).
Proof.
  apply (NoDup_fmap_1 (suggestionMark seed)). unfold mockSuggestions.
  cbn [fmap list_fmap].
  rewrite !suggestionMark_suffix by (cbn; lia).
  unfold suggestionMark. rewrite !length_append. cbn [String.length].
  replace (7 + String.length seed =? String.length seed + 7)%nat with true
    by (symmetry; apply Nat.eqb_eq; lia).
  replace (8 + String.length seed =? String.length seed + 7)%nat with false
    by (symmetry; apply Nat.eqb_neq; lia).
  replace (8 + String.length seed =? String.length seed + 8)%nat with true
    by (symmetry; apply Nat.eqb_eq; lia).
  apply (bool_decide_unpack _). vm_compute. exact I.
Qed.

(** X21.  For every seed and every limit that is not negative,
    [getMockKeywordSuggestions] returns the first min(limit, 15) of its
    fifteen patterns, all different from each other and each containing the
    seed keyword. *)
Theorem mock_suggestions (seedKeyword : string) (limit : Z) :
  0 <= limit ->
  let out := getMockKeywordSuggestions seedKeyword limit in
  length out = Z.to_nat (Z.min limit 15)
  /\ NoDup out
  /\ Forall (fun s => exists pre post, s = pre ++ seedKeyword ++ post) out.
Proof.
  intros Hlimit out. subst out. unfold getMockKeywordSuggestions, sliceTo.
  replace (limit <? 0) with false by (symmetry; apply Z.ltb_ge; lia).
  split; [|split].
  - rewrite length_take. cbn [mockSuggestions length]. lia.
  - apply (sublist_NoDup _ (mockSuggestions seedKeyword));
      [apply mockSuggestions_NoDup | apply sublist_take].
  - apply Forall_take. unfold mockSuggestions.
    repeat (constructor;
            [first [ now exists "how to ", EmptyString; rewrite append_nil_r
                   | now exists "what is ", EmptyString; rewrite append_nil_r
                   | eexists EmptyString, _; reflexivity ]|]).
    constructor.
Qed.

Lemma mock_suggestions_witness :
  let out := getMockKeywordSuggestions "seo" 50 in
  length out = Z.to_nat (Z.min 50 15)
  /\ NoDup out
  /\ Forall (fun s => exists pre post, s = pre ++ "seo" ++ post) out.
Proof. apply (mock_suggestions "seo" 50). lia. Defined.

(** ** Content gaps *)

Lemma coverTopics_elem (page : ScrapedContent) (topics : list string) :
  forall (covered : gset string) (t : string),
    t ∈ foldl (fun covered topic =>
                 if includes topic (pageText page) then {[topic]} ∪ covered else covered)
              covered topics
    <-> t ∈ covered \/ (t ∈ topics /\ includes t (pageText page) = true).
Proof.
  induction topics as [|topic topics IH]; intros covered t; cbn [foldl].
  - split; [now left|]. intros [H|[H _]]; [exact H|]. now apply elem_of_nil in H.
  - rewrite IH. destruct (includes topic (pageText page)) eqn:Hinc.
    + rewrite elem_of_union, elem_of_singleton, elem_of_cons. split.
      * intros [[->|H]|[H1 H2]]; auto.
      * intros [H|[[->|H1] H2]]; auto.
    + rewrite elem_of_cons. split.
      * intros [H|[H1 H2]]; auto.
      * intros [H|[[->|H1] H2]]; auto. congruence.
Qed.

Lemma coveredTopics_elem (pages : list ScrapedContent) :
  forall (covered : gset string) (t : string),
    t ∈ foldl coverTopics covered pages
    <-> t ∈ covered
        \/ (t ∈ commonTopics /\ Exists (fun page => includes t (pageText page) = true) pages).
Proof.
  induction pages as [|page pages IH]; intros covered t; cbn [foldl].
  - split; [now left|]. intros [H|[_ H]]; [exact H | now apply Exists_nil in H].
  - rewrite IH. unfold coverTopics. rewrite coverTopics_elem, Exists_cons. tauto.
Qed.

(** X22.  [identifyContentGaps] returns exactly the common topics that the
    lower-cased title and content of no page include, in the order of the
    list of common topics; in particular every topic is a gap when there is
    no page. *)
Theorem identifyContentGaps_spec (pages : list ScrapedContent) (topic : string) :
  (topic ∈ identifyContentGaps pages
   <-> topic ∈ commonTopics
       /\ Forall (fun page => includes topic (pageText page) = false) pages)
  /\ identifyContentGaps pages `sublist_of` commonTopics
  /\ identifyContentGaps [] = commonTopics.
Proof.
  split; [|split].
  - unfold identifyContentGaps. rewrite list_elem_of_filter. split.
    + intros [Hnot Hin]. split; [exact Hin|].
      apply Forall_forall. intros page Hpage.
      destruct (includes topic (pageText page)) eqn:Hinc; [|reflexivity].
      exfalso. apply Hnot, coveredTopics_elem. right. split; [exact Hin|].
      apply Exists_exists. now exists page.
    + intros [Hin Hall]. split; [|exact Hin].
      intros Hcovered. apply coveredTopics_elem in Hcovered as [H|[_ H]].
      * now apply not_elem_of_empty in H.
      * apply Exists_exists in H as (page & Hpage & Hinc).
        rewrite Forall_forall in Hall. specialize (Hall page Hpage). congruence.
  - apply sublist_filter.
  - reflexivity.
Qed.

(** ** Word counts *)

Lemma trimStart_whitespace (lead s : string) :
  allWhitespace lead = true -> trimStart (lead ++ s) = trimStart s.
Proof.
  induction lead as [|c lead IH]; intros Hlead; [reflexivity|].
  cbn [allWhitespace] in Hlead. apply andb_true_iff in Hlead as [Hc Hlead].
  rewrite append_cons. cbn [trimStart]. rewrite Hc. now apply IH.
Qed.

Lemma trimEnd_whitespace (s trail : string) :
  allWhitespace trail = true -> trimEnd (s ++ trail) = trimEnd s.
Proof.
  intros Htrail. induction s as [|c s IH].
  - rewrite append_nil_l. destruct trail as [|c trail]; [reflexivity|].
    cbn [trimEnd]. now rewrite Htrail.
  - rewrite append_cons. cbn [trimEnd allWhitespace].
    now rewrite allWhitespace_append, IH, Htrail, andb_true_r.
Qed.

Lemma trimEnd_before (s rest : string) :
  allWhitespace rest = false -> trimEnd (s ++ rest) = s ++ trimEnd rest.
Proof.
  intros Hrest. induction s as [|c s IH]; [reflexivity|].
  rewrite !append_cons. cbn [trimEnd allWhitespace].
  rewrite allWhitespace_append, Hrest, andb_false_r, andb_false_r. now rewrite IH.
Qed.

Lemma noWhitespace_allWhitespace (c : ascii) (s : string) :
  noWhitespace (String c s) = true -> allWhitespace (String c s) = false.
Proof.
  cbn [noWhitespace allWhitespace]. intros H. apply andb_true_iff in H as [H _].
  apply negb_true_iff in H. now rewrite H.
Qed.

Lemma trimEnd_word (word : string) : noWhitespace word = true -> trimEnd word = word.
Proof.
  induction word as [|c word IH]; intros Hword; [reflexivity|].
  cbn [trimEnd]. rewrite (noWhitespace_allWhitespace _ _ Hword).
  cbn [noWhitespace] in Hword. apply andb_true_iff in Hword as [_ Hword].
  now rewrite IH.
Qed.

Lemma trimStart_all (s : string) : allWhitespace s = true -> trimStart s = EmptyString.
Proof.
  induction s as [|c s IH]; intros Hs; [reflexivity|].
  cbn [allWhitespace] in Hs. apply andb_true_iff in Hs as [Hc Hs].
  cbn [trimStart]. rewrite Hc. now apply IH.
Qed.

Lemma allWhitespace_trimStart (s : string) :
  allWhitespace (trimStart s) = allWhitespace s.
Proof.
  induction s as [|c s IH]; [reflexivity|].
  cbn [trimStart]. destruct (isJSWhitespace c) eqn:Hc.
  - cbn [allWhitespace]. now rewrite Hc, IH.
  - reflexivity.
Qed.

(** Trimming the two ends commutes. *)
Lemma trimStart_trimEnd (s : string) : trimStart (trimEnd s) = trimEnd (trimStart s).
Proof.
  induction s as [|c s IH]; [reflexivity|].
  cbn [trimEnd trimStart]. destruct (allWhitespace (String c s)) eqn:Hall.
  - cbn [allWhitespace] in Hall. apply andb_true_iff in Hall as [Hc Hs].
    rewrite Hc. rewrite (trimStart_all s Hs). reflexivity.
  - destruct (isJSWhitespace c) eqn:Hc.
    + cbn [trimStart]. rewrite Hc. exact IH.
    + cbn [trimStart trimEnd]. now rewrite Hc, Hall.
Qed.

Lemma splitWhitespace_unfold (cur : string) (skipping : bool) (c : ascii) (s : string) :
  splitWhitespace cur skipping (String c s)
  = if isJSWhitespace c then
      if skipping then splitWhitespace cur true s
      else cur :: splitWhitespace EmptyString true s
    else splitWhitespace (push cur c) false s.
Proof. reflexivity. Qed.

Lemma splitWhitespace_word (word : string) :
  noWhitespace word = true ->
  forall cur skipping c rest,
    isJSWhitespace c = false ->
    splitWhitespace cur skipping (String c (word ++ rest))
    = splitWhitespace (cur ++ String c word) false rest.
Proof.
  induction word as [|w word IH]; intros Hword cur skipping c rest Hc.
  - rewrite append_nil_l, splitWhitespace_unfold, Hc. reflexivity.
  - cbn [noWhitespace] in Hword. apply andb_true_iff in Hword as [Hw Hword].
    apply negb_true_iff in Hw.
    rewrite append_cons, splitWhitespace_unfold, Hc.
    rewrite (IH Hword (push cur c) false w rest Hw). f_equal.
    unfold push, str1. now rewrite append_assoc.
Qed.

Lemma splitWhitespace_skip (s : string) (cur : string) :
  splitWhitespace cur true s = splitWhitespace cur true (trimStart s).
Proof.
  induction s as [|c s IH]; [reflexivity|].
  cbn [trimStart]. rewrite splitWhitespace_unfold.
  destruct (isJSWhitespace c) eqn:Hc; [exact IH|].
  now rewrite splitWhitespace_unfold, Hc.
Qed.

Lemma splitWhitespace_start (s : string) (cur : string) :
  startsWithGap s = false ->
  splitWhitespace cur true s = splitWhitespace cur false s.
Proof.
  destruct s as [|c s]; [discriminate|]. cbn [startsWithGap]. intros Hc.
  now rewrite !splitWhitespace_unfold, Hc.
Qed.

Lemma startsWithGap_trim (s : string) :
  trim s = EmptyString \/ startsWithGap (trim s) = false.
Proof.
  unfold trim. rewrite <- trimStart_trimEnd.
  induction (trimEnd s) as [|c t IH]; [now left|].
  cbn [trimStart]. destruct (isJSWhitespace c) eqn:Hc; [exact IH|].
  right. exact Hc.
Qed.

Lemma countWords_whitespace (text : string) :
  allWhitespace text = true -> countWords text = 0%nat.
Proof.
  intros Hall. unfold countWords, trim. now rewrite (trimStart_all text Hall).
Qed.

(** X23.  [countWords] counts the maximal runs of characters that are not
    white space: a text of white space only has no word, and a word,
    preceded by white space only and followed by the end of the text or by
    white space, adds one to the count of what follows it. *)
Theorem countWords_counts_runs (lead word rest : string) :
  allWhitespace lead = true ->
  word <> EmptyString ->
  noWhitespace word = true ->
  startsWithGap rest = true ->
  countWords lead = 0%nat
  /\ countWords (lead ++ word ++ rest) = S (countWords rest).
Proof.
  intros Hlead Hne Hword Hrest.
  split; [now apply countWords_whitespace|].
  destruct word as [|c word]; [contradiction|].
  pose proof Hword as Hall. apply noWhitespace_allWhitespace in Hall.
  cbn [noWhitespace] in Hword. apply andb_true_iff in Hword as [Hc Hword].
  apply negb_true_iff in Hc.
  unfold countWords at 1. unfold trim.
  rewrite trimStart_whitespace by exact Hlead.
  rewrite append_cons. cbn [trimStart]. rewrite Hc. rewrite <- append_cons.
  destruct (allWhitespace rest) eqn:Hgap.
  - rewrite trimEnd_whitespace by exact Hgap.
    rewrite trimEnd_word by (cbn [noWhitespace]; now rewrite Hc, Hword).
    rewrite (countWords_whitespace rest Hgap).
    rewrite <- (append_nil_r word) at 1.
    rewrite splitWhitespace_word by assumption. reflexivity.
  - rewrite trimEnd_before by exact Hgap. rewrite append_cons.
    rewrite splitWhitespace_word by assumption. rewrite append_nil_l.
    destruct rest as [|g rest]; [discriminate|]. cbn [startsWithGap] in Hrest.
    cbn [trimEnd]. rewrite Hgap. cbn [splitWhitespace]. rewrite Hrest.
    cbn [List.filter String.length Nat.ltb Nat.leb length]. f_equal.
    unfold countWords. change (trim (String g rest)) with (trimEnd (trimStart (String g rest))).
    cbn [trimStart]. rewrite Hrest.
    rewrite splitWhitespace_skip, trimStart_trimEnd.
    destruct (startsWithGap_trim rest) as [Hempty|Hstart]; unfold trim in *.
    + now rewrite Hempty.
    + now rewrite splitWhitespace_start.
Qed.

Lemma countWords_counts_runs_witness :
  countWords "  " = 0%nat
  /\ countWords ("  " ++ "keyword" ++ " research tools ") = S (countWords " research tools ").
Proof.
  apply (countWords_counts_runs "  " "keyword" " research tools ");
    [reflexivity | discriminate | reflexivity | reflexivity].
Defined.

(** ** Retry hints and cost accounting *)

Lemma ceilDiv_bounds (x : Z) : x <= 1000 * ceilDiv x 1000 < x + 1000.
Proof.
  unfold ceilDiv.
  pose proof (Z.div_mod (- x) 1000 ltac:(lia)) as Hdiv.
  pose proof (Z.mod_pos_bound (- x) 1000 ltac:(lia)) as Hmod.
  lia.
Qed.

(** X24.  The retry hint of a rate-limit rejection counts whole seconds and
    rounds up: the moment it names is never before the limiter's next
    refill and less than a second after it; the same holds for [reset]. *)
Theorem retry_after_covers_refill {L} (limiter : RateLimiterOps L) (now : Z) (rl : L) :
  let next := getNextRefillTime limiter rl in
  exists info,
    rateLimit (rateLimitError limiter now rl) = Some info
    /\ next - now <= 1000 * retryAfter info < next - now + 1000
    /\ next <= 1000 * reset info < next + 1000.
Proof.
  cbv zeta. unfold rateLimitError. cbn [rateLimit]. eexists. split; [reflexivity|].
  cbn [retryAfter reset]. split; apply ceilDiv_bounds.
Qed.

Lemma calculateCost_nonneg (inputTokens outputTokens : Z) :
  0 <= inputTokens -> 0 <= outputTokens ->
  (0 <= calculateCost inputTokens outputTokens)%Q.
Proof.
  intros Hi Ho. unfold calculateCost, costPerToken, outputCostPerToken.
  rewrite Zle_Qle in Hi, Ho.
  generalize dependent (inject_Z inputTokens). generalize dependent (inject_Z outputTokens).
  intros o Ho i Hi. change (inject_Z 0) with 0%Q in *. lra.
Qed.

Lemma ceilDiv_nonneg (x : Z) : 0 <= x -> 0 <= ceilDiv x 4.
Proof.
  intros Hx. unfold ceilDiv.
  pose proof (Z.div_mod (- x) 4 ltac:(lia)) as Hdiv.
  pose proof (Z.mod_pos_bound (- x) 4 ltac:(lia)) as Hmod.
  lia.
Qed.

(** X25.  The total cost never goes down: as long as the upstream reports
    no negative token count, [totalCost] after [makeLLMRequest] is at least
    what it was before, whatever the outcome of the request. *)
Theorem total_cost_never_decreases {L} (limiter : RateLimiterOps L)
    (upstream : nat -> UpstreamReply) (prompt : string) (options : LLMOptions)
    (now : Z) (st : GeminiClient L) :
  (forall n text p c candidate latency nonce,
      upstream n = Replied text (Some (p, c)) candidate latency nonce ->
      0 <= match p with Some k => k | None => 0 end
      /\ 0 <= match c with Some k => k | None => 0 end) ->
  (totalCost (metrics st)
   <= totalCost (metrics (snd (makeLLMRequest limiter upstream prompt options now st))))%Q.
Proof.
  intros Hcounts. unfold makeLLMRequest.
  destruct (cacheCheck options now st); [apply Qle_refl|].
  unfold requestAfterMiss.
  destruct (tryConsume limiter now (rateLimiter st)) as [[|] rl]; [|apply Qle_refl].
  unfold performRequest. cbn [upstreamCalls metrics cache rateLimiter].
  destruct (upstream (length (upstreamCalls st)))
    as [text usageMetadata candidate latency nonce|msg latency] eqn:Hreply.
  - assert (Hcost : exists inputTokens outputTokens,
               match usageMetadata with
               | Some (p, c0) => (match p with Some n => n | None => 0 end,
                                  match c0 with Some n => n | None => 0 end)
               | None => (ceilDiv (Z.of_nat (String.length prompt)) 4,
                          ceilDiv (Z.of_nat (String.length text)) 4)
               end = (inputTokens, outputTokens)
               /\ 0 <= inputTokens /\ 0 <= outputTokens).
    { destruct usageMetadata as [[p c0]|].
      - eexists. eexists. split; [reflexivity|]. exact (Hcounts _ _ _ _ _ _ _ Hreply).
      - eexists. eexists. split; [reflexivity|]. split; apply ceilDiv_nonneg; lia. }
    destruct Hcost as (inputTokens & outputTokens & -> & Hi & Ho).
    pose proof (calculateCost_nonneg inputTokens outputTokens Hi Ho) as Hnonneg.
    destruct (opt_cacheKey options) as [[|c k]|]; cbn; lra.
  - destruct (includes "Circuit breaker" msg); cbn; lra.
Qed.

Lemma total_cost_never_decreases_witness :
  (totalCost (metrics freshClient)
   <= totalCost (metrics (snd (makeLLMRequest tokenBucketOps meteredUpstream "p"
                                 sampleKeyOptions 2000 freshClient))))%Q.
Proof.
  apply (total_cost_never_decreases tokenBucketOps meteredUpstream "p" sampleKeyOptions
           2000 freshClient).
  intros n text p c candidate latency nonce Hreply.
  inversion Hreply. split; lia.
Defined.

(** ** The single-keyword path over Ahrefs *)

(** X26.  On the single-keyword path too the rows the Ahrefs client
    generates come back as provider data: when Keywords Explorer is not
    available, or the overview request fails, [getKeywordMetrics] returns
    the normalised generated row, marked [ahrefs] with confidence 0.9. *)
Theorem single_via_ahrefs_generated (known : option bool) (probe : option string)
    (metrics : list string -> ClientOutcome (list AhrefsRow))
    (overview : string -> ClientOutcome AhrefsRow)
    (rand rand' : nat -> Q) (k : string) (options : BulkOptions) :
  fst (checkKeywordsExplorerAvailability known probe) = false
  \/ (exists msg, overview k = Rejected msg) ->
  let r := getKeywordMetrics
             (mkProvider false None (Some (ahrefsOver known probe metrics overview rand)))
             rand' k options in
  r = normalizeAhrefsData (mockAhrefsRow rand 0 k)
  /\ keyword r = k /\ source r = ahrefs /\ confidence r = (9 # 10)%Q.
Proof.
  intros Hwhy. cbv zeta. unfold getKeywordMetrics, singleFallback.
  cbn [mockMode dataForSEOClient ahrefsClient ahrefsOver getKeywordOverview].
  assert (Hrow : fst (ahrefsGetKeywordOverview known probe (overview k) rand k)
                 = Resolved true (Some (mockAhrefsRow rand 0 k))).
  { unfold ahrefsGetKeywordOverview.
    destruct (checkKeywordsExplorerAvailability known probe) as [available known'].
    cbn [fst] in Hwhy. destruct available; [|reflexivity].
    destruct Hwhy as [Hno|[msg ->]]; [discriminate | reflexivity]. }
  rewrite Hrow. now repeat split.
Qed.

Lemma single_via_ahrefs_generated_witness :
  let r := getKeywordMetrics
             (mkProvider false None
                (Some (ahrefsOver (Some false) None (fun _ => Rejected "unused")
                         (fun _ => Rejected "unused") halfRandom)))
             zeroRandom "seo" defaultOptions in
  r = normalizeAhrefsData (mockAhrefsRow halfRandom 0 "seo")
  /\ keyword r = "seo" /\ source r = ahrefs /\ confidence r = (9 # 10)%Q.
Proof.
  apply (single_via_ahrefs_generated (Some false) None (fun _ => Rejected "unused")
           (fun _ => Rejected "unused") halfRandom zeroRandom "seo" defaultOptions).
  left. reflexivity.
Defined.

(** ** Fingerprints that sort their keywords *)

(** X27.  The four fingerprints that sort the keywords before joining them
    do not depend on the order of the request: for a permutation of the
    keywords, [expandToDream100], [classifyIntent],
    [AhrefsClient.getKeywordMetrics] and
    [DataForSEOClient.getKeywordDifficulty] compute the same cache key. *)
Theorem sorted_cache_keys_ignore_order (keywords keywords' : list string)
    (target_count : Z) (intent_focus : option string) (context country : string)
    (location : Z) (language : string) :
  keywords ≡ₚ keywords' ->
  expansionCacheKey keywords target_count intent_focus
  = expansionCacheKey keywords' target_count intent_focus
  /\ intentCacheKey keywords context = intentCacheKey keywords' context
  /\ ahrefsMetricsCacheKey keywords country = ahrefsMetricsCacheKey keywords' country
  /\ dataForSEODifficultyCacheKey keywords location language
     = dataForSEODifficultyCacheKey keywords' location language.
Proof.
  intros Hperm.
  unfold expansionCacheKey, intentCacheKey, ahrefsMetricsCacheKey,
    dataForSEODifficultyCacheKey.
  now rewrite (arraySort_permutation keywords keywords' Hperm).
Qed.

Lemma sorted_cache_keys_ignore_order_witness :
  expansionCacheKey ["seo"; "ppc"] 100 (Some "mixed")
  = expansionCacheKey ["ppc"; "seo"] 100 (Some "mixed")
  /\ intentCacheKey ["seo"; "ppc"] "{}" = intentCacheKey ["ppc"; "seo"] "{}"
  /\ ahrefsMetricsCacheKey ["seo"; "ppc"] "us" = ahrefsMetricsCacheKey ["ppc"; "seo"] "us"
  /\ dataForSEODifficultyCacheKey ["seo"; "ppc"] 2840 "en"
     = dataForSEODifficultyCacheKey ["ppc"; "seo"] 2840 "en".
Proof.
  apply (sorted_cache_keys_ignore_order ["seo"; "ppc"] ["ppc"; "seo"] 100 (Some "mixed")
           "{}" "us" 2840 "en").
  apply perm_swap.
Defined.

(** ** Available and active providers *)

(** X28.  With the preference left at [auto] and both factories returning a
    client, the provider the constructor activates is the first one
    [getAvailableProviders] lists, and [mock] when it lists none; the list
    itself names DataForSEO before Ahrefs and names no provider twice. *)
Theorem active_provider_is_first_available (env : ProviderEnv)
    (dfsInstance : DataForSEOClient) (ahrefsInstance : AhrefsClient) :
  activeProvider (initializeProviders preferAuto env (Some dfsInstance) (Some ahrefsInstance))
  = hd mock (getAvailableProviders env)
  /\ getAvailableProviders env `sublist_of` [dataforseo; ahrefs].
Proof.
  unfold initializeProviders, getAvailableProviders.
  destruct (isDataForSEOConfigured env), (isAhrefsConfigured env); cbn;
    (split; [reflexivity|]);
    repeat first [apply sublist_nil_l | apply sublist_skip | apply sublist_cons].
Qed.

(** ** The object scan on complete objects *)

Lemma complete_object_quoted_brace : complete_object (js "{'keyword':'a}]'}").
Proof.
  exists (js "'keyword':'a}]'"). split; [|reflexivity].
  apply (bal_quoted "keyword" (js ":'a}]'") quoted_body_keyword).
  apply bal_plain; [reflexivity|].
  apply (bal_quoted "a}]" EmptyString); repeat constructor.
Qed.

(** X29.  At object granularity the scan does respect quoted strings: in a
    text made of complete objects, each followed by text without quotes,
    backslashes and braces, the scan finds exactly these objects, in their
    order, whatever braces and brackets their quoted strings hold. *)
Theorem salvage_scan_finds_every_object (lead : string) (items : list (string * string)) :
  allPlain lead = true ->
  Forall (fun it => complete_object (fst it) /\ allPlain (snd it) = true) items ->
  salvageObjects (lead ++ joinItems items) = map fst items.
Proof.
  intros Hlead Hitems. unfold salvageObjects, salvageInit.
  rewrite salvageRun_append, salvageRun_plain_top by assumption.
  destruct (salvageRun_items items Hitems [] EmptyString) as [cur' ->].
  reflexivity.
Qed.

Lemma salvage_scan_finds_every_object_witness :
  salvageObjects
    ("[" ++ joinItems [(js "{'keyword':'a}]'}", ", "); (js "{'keyword':'a'}", "]")])
  = [js "{'keyword':'a}]'}"; js "{'keyword':'a'}"].
Proof.
  apply (salvage_scan_finds_every_object "["
           [(js "{'keyword':'a}]'}", ", "); (js "{'keyword':'a'}", "]")]).
  - reflexivity.
  - constructor; [split; [apply complete_object_quoted_brace | reflexivity]|].
    constructor; [split; [apply complete_object_a | reflexivity]|].
    constructor.
Defined.
